(** * sc-ast-injector: the injection engine, embedded and verified

    A shallow embedding of the Python package [vuln_injector]
    (utils.py, models.py, ast_helpers.py, injectors.py,
    payload_generators.py, templates/point_injection.py) together with
    the properties its design document states about it.

    Conventions of the embedding:
    - a Python [int] is a [Z]; [len(x)] is [Z.of_nat (length x)];
    - [bytes] is [list byte]; a [str] is a [string] whose characters
      are the code points below 256;
    - a Python slice [x[a:b]] is [py_slice], with the clamping and the
      negative-index rule of the language written out;
    - a method that mutates [self] returns the fields it changed;
    - [print] calls are dropped: they change no state;
    - the [random] module is an explicit oracle: every draw reads the
      next number of a tape [nat -> nat] and advances the position. *)

From Stdlib Require Import ZArith Lia List Sorted Permutation.
From Stdlib Require Import Strings.String Strings.Ascii Strings.Byte.
From stdpp Require Import base tactics option list sorting strings gmap pretty.

Local Open Scope string_scope.
Local Open Scope list_scope.
Local Open Scope Z_scope.

(** ** Python primitives *)

Module Py.

Definition bytes := list byte.

(** [len(x)] *)
Definition len {A} (l : list A) : Z := Z.of_nat (length l).

(** The index normalisation of a slice bound: a negative bound counts
    from the end, and every bound is clamped into [0, len]. *)
Definition slice_index (n k : Z) : Z :=
  if k <? 0 then Z.max (k + n) 0 else Z.min k n.

(** [x[:k]] *)
Definition slice_to {A} (l : list A) (k : Z) : list A :=
  take (Z.to_nat (slice_index (len l) k)) l.

(** [x[k:]] *)
Definition slice_from {A} (l : list A) (k : Z) : list A :=
  drop (Z.to_nat (slice_index (len l) k)) l.

(** [x[a:b]] *)
Definition py_slice {A} (l : list A) (a b : Z) : list A :=
  let lo := slice_index (len l) a in
  let hi := slice_index (len l) b in
  take (Z.to_nat (hi - lo)) (drop (Z.to_nat lo) l).

(** [enumerate(l)], counting from [i]. *)
Fixpoint enumerate_from {A} (i : nat) (l : list A) : list (nat * A) :=
  match l with
  | [] => []
  | x :: l' => (i, x) :: enumerate_from (S i) l'
  end.
Definition enumerate {A} (l : list A) : list (nat * A) := enumerate_from 0 l.

(** [sum(f(p) for p in l)] *)
Definition sum_with {A} (f : A -> Z) (l : list A) : Z :=
  fold_left (fun acc p => acc + f p) l 0.

(** [sorted(l, key=key, reverse=True)]: the sort of the language is
    stable, and stays so under [reverse=True]: elements with equal
    keys keep their input order.  Insertion from the right, placing an
    element before the first one whose key is not strictly greater. *)
Fixpoint insert_desc {A} (key : A -> Z) (x : A) (l : list A) : list A :=
  match l with
  | [] => [x]
  | y :: l' =>
      if key x <? key y then y :: insert_desc key x l' else x :: y :: l'
  end.
Definition sorted_desc {A} (key : A -> Z) (l : list A) : list A :=
  foldr (insert_desc key) [] l.

(** The [random] oracle: a tape of numbers and the position of the
    next draw. *)
Definition tape := nat -> nat.

(** [random.choice(seq)]: every call below is on a non-empty
    sequence; [d] stands for the IndexError of the empty one. *)
Definition choice {A} (d : A) (t : tape) (pos : nat) (l : list A) : A * nat :=
  (nth (t pos mod length l)%nat l d, S pos).

(** [random.randint(a, b)] for [a <= b]. *)
Definition randint (t : tape) (pos : nat) (a b : nat) : nat * nat :=
  ((a + t pos mod (b - a + 1))%nat, S pos).

End Py.

(** ** models.py *)

Module Models.

Record InjectionPayload := mkPayload {
  offset : Z;
  content : Py.bytes;
  component_name : string
}.

(** One entry of [InjectionMetadata.injected_regions]. *)
Record Region := mkRegion {
  start_byte : Z;
  end_byte : Z;
  component : string;
  description : string
}.

Record InjectionMetadata := mkMetadata {
  source_contract : string;
  output_contract : string;
  vulnerability_type : string;
  injection_mode : string;
  template_name : string;
  solidity_version : string;
  injected_regions : list Region
}.

(** [InjectionMetadata.add_region]: append to the list in place. *)
Definition add_region (m : InjectionMetadata)
    (start_byte end_byte : Z) (component description : string)
    : InjectionMetadata :=
  {| source_contract := source_contract m;
     output_contract := output_contract m;
     vulnerability_type := vulnerability_type m;
     injection_mode := injection_mode m;
     template_name := template_name m;
     solidity_version := solidity_version m;
     injected_regions :=
       injected_regions m ++ [mkRegion start_byte end_byte component description] |}.

End Models.

(** ** injectors.py: the splicing engine *)

Module Injectors.
Import Py Models.

(** The body of the [for] loop of [BaseInjector._apply_payloads]: the
    state is the local [content] and the object [self.metadata].  The
    local [cumulative_added] of the source is set to 0 and never read. *)
Definition apply_step (sorted_payloads : list InjectionPayload)
    (st : bytes * option InjectionMetadata) (ip : nat * InjectionPayload)
    : bytes * option InjectionMetadata :=
  let '(content0, metadata) := st in
  let '(i, payload) := ip in
  let bytes_added_after :=
    sum_with (fun p => len (content p)) (drop (S i) sorted_payloads) in
  let final_start := offset payload + bytes_added_after in
  let final_end := final_start + len (content payload) in
  let content1 :=
    slice_to content0 (offset payload) ++ content payload
      ++ slice_from content0 (offset payload) in
  let metadata1 :=
    match metadata with
    | Some m =>
        Some (add_region m final_start final_end (component_name payload)
                ("Injected " +:+ component_name payload +:+ " code"))
    | None => None
    end in
  (content1, metadata1).

(** [BaseInjector._apply_payloads(self, payloads)]: [self_content] is
    [self.content], [metadata] is [self.metadata]; the result is the
    returned buffer and [self.metadata] after the call. *)
Definition _apply_payloads (self_content : bytes)
    (metadata : option InjectionMetadata) (payloads : list InjectionPayload)
    : bytes * option InjectionMetadata :=
  let sorted_payloads := sorted_desc offset payloads in
  fold_left (apply_step sorted_payloads) (enumerate sorted_payloads)
    (self_content, metadata).

(** The files an injection writes: output contracts by path, and the
    metadata sidecars by the path of the contract they describe (the
    sidecar holds [metadata.to_dict()], field for field). *)
Record FileSystem := mkFileSystem {
  contracts : gmap string bytes;
  sidecars : gmap string InjectionMetadata
}.

(** [BaseInjector._write_output(content, output_path)] *)
Definition _write_output (content0 : bytes) (output_path : string)
    (fs : FileSystem) : FileSystem :=
  mkFileSystem (<[output_path := content0]> (contracts fs)) (sidecars fs).

(** [BaseInjector._save_metadata(output_path)] *)
Definition _save_metadata (metadata : option InjectionMetadata)
    (output_path : string) (fs : FileSystem) : FileSystem :=
  match metadata with
  | None => fs
  | Some m => mkFileSystem (contracts fs) (<[output_path := m]> (sidecars fs))
  end.

(** The [# Apply and write] tail shared by [PointInjector.inject] and
    [CoupledInjector.inject]: the returned flag, the files and
    [self.metadata] afterwards. *)
Definition inject_apply_and_write (self_content : bytes)
    (metadata : option InjectionMetadata) (payloads : list InjectionPayload)
    (output_path : string) (save_metadata : bool) (fs : FileSystem)
    : bool * FileSystem * option InjectionMetadata :=
  let '(modified_content, metadata1) :=
    _apply_payloads self_content metadata payloads in
  let fs1 := _write_output modified_content output_path fs in
  let fs2 := if save_metadata then _save_metadata metadata1 output_path fs1
             else fs1 in
  (true, fs2, metadata1).

End Injectors.

(** ** Strings of the language *)

Module PyStr.

(** A [str] is a [string] whose characters are the code points below
    256. *)

Definition code (c : ascii) : N := N_of_ascii c.

(** [c.isspace()] on these code points. *)
Definition isspace (c : ascii) : bool :=
  let n := code c in
  ((9 <=? n) && (n <=? 13) || (28 <=? n) && (n <=? 32)
   || (n =? 133) || (n =? 160))%N.

(** The ASCII decimal digits. *)
Definition is_decimal (c : ascii) : bool :=
  let n := code c in ((48 <=? n) && (n <=? 57))%N.

(** [c.isdigit()]: the decimal digits and the superscripts one, two
    and three, which are digits without being decimal. *)
Definition isdigit_char (c : ascii) : bool :=
  let n := code c in
  (is_decimal c || (n =? 178) || (n =? 179) || (n =? 185))%N.

Fixpoint forallb_str (f : ascii -> bool) (s : string) : bool :=
  match s with
  | EmptyString => true
  | String c r => f c && forallb_str f r
  end.

(** [s.isdigit()]: non-empty and every character a digit. *)
Definition isdigit (s : string) : bool :=
  negb (String.eqb s "") && forallb_str isdigit_char s.

(** [int(s)] for a string that passed [isdigit]: the decimal value,
    or [None] for the ValueError that a non-decimal digit raises, as
    does a string longer than the interpreter's default limit of 4300
    digits. *)
Fixpoint int_acc (acc : Z) (s : string) : option Z :=
  match s with
  | EmptyString => Some acc
  | String c r =>
      if is_decimal c
      then int_acc (10 * acc + Z.of_N (code c - 48)) r
      else None
  end.
Definition int_max_str_digits : nat := 4300.
Definition int (s : string) : option Z :=
  match s with
  | EmptyString => None
  | _ =>
      if (int_max_str_digits <? String.length s)%nat then None
      else int_acc 0 s
  end.

(** [s.replace(old, new)] for a non-empty [old]: the occurrences are
    found left to right and do not overlap; [skip] counts the
    characters of a match still to drop. *)
Fixpoint replace_go (old new : string) (skip : nat) (s : string) : string :=
  match s with
  | EmptyString => EmptyString
  | String c r =>
      match skip with
      | S k => replace_go old new k r
      | O =>
          if String.prefix old s
          then new +:+ replace_go old new (String.length old - 1) r
          else String c (replace_go old new 0 r)
      end
  end.
Definition replace (s old new : string) : string := replace_go old new 0 s.

Fixpoint lstrip (s : string) : string :=
  match s with
  | EmptyString => EmptyString
  | String c r => if isspace c then lstrip r else s
  end.

Fixpoint rstrip (s : string) : string :=
  match s with
  | EmptyString => EmptyString
  | String c r =>
      match rstrip r with
      | EmptyString => if isspace c then EmptyString else String c EmptyString
      | r' => String c r'
      end
  end.

(** [s.strip()] *)
Definition strip (s : string) : string := rstrip (lstrip s).

(** [s.split(sep)] for a one-character separator. *)
Fixpoint split (sep : ascii) (s : string) : list string :=
  match s with
  | EmptyString => [EmptyString]
  | String c r =>
      if Ascii.eqb c sep then EmptyString :: split sep r
      else match split sep r with
           | h :: t => String c h :: t
           | [] => [String c EmptyString]
           end
  end.

(** The comparison of two tuples of integers: lexicographic, a proper
    prefix being smaller. *)
Fixpoint tuple_le (a b : list Z) : bool :=
  match a, b with
  | [], _ => true
  | _ :: _, [] => false
  | x :: a', y :: b' =>
      if x =? y then tuple_le a' b' else x <? y
  end.

(** [c.lower()] on these code points. *)
Definition lower_char (c : ascii) : ascii :=
  let n := code c in
  if ((65 <=? n) && (n <=? 90)
      || (192 <=? n) && (n <=? 222) && negb (n =? 215))%N
  then ascii_of_N (n + 32) else c.

Fixpoint lower (s : string) : string :=
  match s with
  | EmptyString => EmptyString
  | String c r => String (lower_char c) (lower r)
  end.

(** [sub in s] *)
Fixpoint contains (sub s : string) : bool :=
  String.prefix sub s
  || match s with
     | EmptyString => false
     | String _ r => contains sub r
     end.

End PyStr.

(** ** Byte strings of the language *)

Module PyBytes.
Import Py.

Definition newline : byte := x0a.
Definition space : byte := x20.
Definition tab : byte := x09.
Definition slash : byte := x2f.
Definition star : byte := x2a.

(** The whitespace of [bytes.strip()]: space, \t, \n, \r, \x0b, \x0c. *)
Definition isspace (c : byte) : bool :=
  match c with
  | x20 | x09 | x0a | x0d | x0b | x0c => true
  | _ => false
  end.

Fixpoint lstrip (l : bytes) : bytes :=
  match l with
  | [] => []
  | c :: r => if isspace c then lstrip r else l
  end.

Fixpoint rstrip (l : bytes) : bytes :=
  match l with
  | [] => []
  | c :: r =>
      match rstrip r with
      | [] => if isspace c then [] else [c]
      | r' => c :: r'
      end
  end.

(** [line.strip()] *)
Definition strip (l : bytes) : bytes := rstrip (lstrip l).

(** [x.startswith(prefix)] *)
Fixpoint startswith (l prefix : bytes) : bool :=
  match prefix, l with
  | [], _ => true
  | _ :: _, [] => false
  | p :: prefix', c :: l' => Byte.eqb p c && startswith l' prefix'
  end.

(** [sub in x] *)
Fixpoint contains (sub l : bytes) : bool :=
  startswith l sub
  || match l with
     | [] => false
     | _ :: r => contains sub r
     end.

(** [x.decode('utf-8')] for ASCII bytes. *)
Definition decode (l : bytes) : string := string_of_list_byte l.

End PyBytes.

(** ** utils.py *)

Module Utils.
Import Py PyStr.

(** The inner [parse_version]; [None] is the ValueError of [int]. *)
Definition parse_version (v : string) : option (list Z) :=
  let v := strip (replace (replace (replace (replace v "^" "") ">=" "") ">" "") "<" "") in
  let parts := take 3 (split "." v) in
  mapM int (List.filter isdigit parts).

Definition is_version_compatible (version min_version max_version : string)
    : bool :=
  match parse_version version with
  | None => true
  | Some ver =>
      match parse_version min_version with
      | None => true
      | Some min_v =>
          match parse_version max_version with
          | None => true
          | Some max_v => tuple_le min_v ver && tuple_le ver max_v
          end
      end
  end.

(** [content[k:k + 1] != b'\n'] *)
Definition not_newline_at (content : bytes) (k : Z) : bool :=
  match py_slice content k (k + 1) with
  | [c] => negb (Byte.eqb c PyBytes.newline)
  | _ => true
  end.

(** The loop [while k < len(content) and content[k:k + 1] != b'\n':
    k += 1], run for at most [fuel] increments. *)
Fixpoint skip_to_newline (fuel : nat) (content : bytes) (k : Z) : Z :=
  match fuel with
  | O => k
  | S fuel' =>
      if (k <? len content) && not_newline_at content k
      then skip_to_newline fuel' content (k + 1)
      else k
  end.

(** The same loop with the fuel it needs: the distance to the end. *)
Definition find_line_end (content : bytes) (k : Z) : Z :=
  skip_to_newline (Z.to_nat (len content - k)) content k.

(** The inner loop that collects the leading spaces and tabs. *)
Fixpoint leading_indent (line : bytes) : bytes :=
  match line with
  | c :: line' =>
      if Byte.eqb c PyBytes.space || Byte.eqb c PyBytes.tab
      then c :: leading_indent line' else []
  | [] => []
  end.

(** Whether the line passes the test that guards the extraction of
    its indentation. *)
Definition is_code_line (stripped : bytes) (in_multiline_comment : bool)
    : bool :=
  negb (bool_decide (stripped = []))
  && negb in_multiline_comment
  && negb (PyBytes.startswith stripped [PyBytes.slash; PyBytes.slash])
  && negb (PyBytes.startswith stripped [PyBytes.slash; PyBytes.star])
  && negb (PyBytes.startswith stripped [PyBytes.star]).

(** The main loop of [detect_indentation], for at most [fuel] lines. *)
Fixpoint scan_lines (fuel : nat) (content : bytes) (next_line_start : Z)
    (in_multiline_comment : bool) : string :=
  match fuel with
  | O => "  "
  | S fuel' =>
      if negb (next_line_start <? len content) then "  " else
      let line_end := find_line_end content next_line_start in
      let line := py_slice content next_line_start line_end in
      let stripped := PyBytes.strip line in
      let in_multiline_comment :=
        if PyBytes.contains [PyBytes.slash; PyBytes.star] stripped
        then true else in_multiline_comment in
      if PyBytes.contains [PyBytes.star; PyBytes.slash] stripped
      then scan_lines fuel' content (line_end + 1) false
      else
        if is_code_line stripped in_multiline_comment
           && negb (bool_decide (leading_indent line = []))
        then PyBytes.decode (leading_indent line)
        else scan_lines fuel' content (line_end + 1) in_multiline_comment
  end.

(** [detect_indentation(content, offset)].  Every pass of the main
    loop moves [next_line_start] forward by at least one, so the
    distance to the end bounds the number of passes. *)
Definition detect_indentation (content : bytes) (offset : Z) : string :=
  let next_line_start := find_line_end content offset + 1 in
  scan_lines (Z.to_nat (len content - next_line_start)) content
    next_line_start false.

(** [select_one(items, randomize)]: [None] for an empty list, a
    random element or the first one otherwise. *)
Definition select_one {A} (t : tape) (pos : nat) (items : list A)
    (randomize : bool) : option A * nat :=
  match items with
  | [] => (None, pos)
  | x :: _ =>
      if randomize then let '(y, pos') := choice x t pos items in (Some y, pos')
      else (Some x, pos)
  end.

End Utils.

(** ** The syntax tree and models.py: semantic entities *)

Module Ast.

(** A JSON value found in an attribute map.  Compound values (lists,
    objects) only matter through their truthiness here. *)
Inductive pyval :=
| VNone
| VBool (b : bool)
| VInt (z : Z)
| VStr (s : string)
| VOther (truthy : bool).

#[export] Instance pyval_eq_dec : EqDecision pyval.
Proof. solve_decision. Defined.

(** Truthiness, as [if v:] and [not v] test it. *)
Definition truthy (v : pyval) : bool :=
  match v with
  | VNone => false
  | VBool b => b
  | VInt z => negb (z =? 0)
  | VStr s => negb (String.eqb s "")
  | VOther t => t
  end.

(** [v == s] for a string literal [s]. *)
Definition is_str (v : pyval) (s : string) : bool := bool_decide (v = VStr s).

(** [v in [s1, s2, ...]] *)
Definition in_strs (v : pyval) (l : list string) : bool :=
  existsb (is_str v) l.

(** A tree node: [name] is the kind tag, [id] is absent when the key
    is, [attributes] is empty when the key is absent. *)
Inductive node :=
| Node (name : string) (id : option Z) (src : string)
       (attributes : gmap string pyval) (children : list node).

Definition name (n : node) : string := let 'Node x _ _ _ _ := n in x.
Definition id (n : node) : option Z := let 'Node _ x _ _ _ := n in x.
Definition src (n : node) : string := let 'Node _ _ x _ _ := n in x.
Definition attributes (n : node) : gmap string pyval :=
  let 'Node _ _ _ x _ := n in x.
Definition children (n : node) : list node := let 'Node _ _ _ _ x := n in x.

(** [attrs.get(key, default)] *)
Definition get (attrs : gmap string pyval) (key : string) (dflt : pyval)
    : pyval :=
  default dflt (attrs !! key).

End Ast.

Module FunctionInfo.
Import Ast.

Record t := mk {
  node : Ast.node;
  id : option Z;
  name : pyval;
  src : string;
  body_src : string;
  visibility : pyval;
  state_mutability : pyval;
  is_payable : bool;
  params : list (pyval * pyval);     (* the "name" and the "type" of each *)
  has_params : bool
}.

(** The parameters of the first [ParameterList] child. *)
Fixpoint first_parameter_list (cs : list Ast.node) : list (pyval * pyval) :=
  match cs with
  | [] => []
  | param_list :: cs' =>
      if String.eqb (Ast.name param_list) "ParameterList" then
        omap (fun param =>
                if String.eqb (Ast.name param) "VariableDeclaration" then
                  Some (get (attributes param) "name" VNone,
                        get (attributes param) "type" VNone)
                else None)
             (children param_list)
      else first_parameter_list cs'
  end.

(** The first [Block] child. *)
Fixpoint first_block (cs : list Ast.node) : option Ast.node :=
  match cs with
  | [] => None
  | child :: cs' =>
      if String.eqb (Ast.name child) "Block" then Some child
      else first_block cs'
  end.

Definition from_ast_node (n : Ast.node) : option t :=
  if negb (String.eqb (Ast.name n) "FunctionDefinition") then None else
  let attrs := attributes n in
  let func_name := get attrs "name" (VStr "") in
  let visibility := get attrs "visibility" (VStr "") in
  let state_mutability := get attrs "stateMutability" (VStr "") in
  let is_constructor := get attrs "isConstructor" (VBool false) in
  if truthy is_constructor || negb (truthy func_name) then None else
  let params := first_parameter_list (children n) in
  match first_block (children n) with
  | None => None
  | Some func_body =>
      Some {| node := n;
              id := Ast.id n;
              name := func_name;
              src := Ast.src n;
              body_src := Ast.src func_body;
              visibility := visibility;
              state_mutability := state_mutability;
              is_payable := is_str state_mutability "payable";
              params := params;
              has_params := bool_decide (0 < length params)%nat |}
  end.

Definition is_public_or_external (f : t) : bool :=
  in_strs (visibility f) ["public"; "external"].

Definition is_state_modifying (f : t) : bool :=
  negb (in_strs (state_mutability f) ["view"; "pure"; "constant"]).

End FunctionInfo.

Module ContractInfo.
Import Ast.

Record t := mk {
  node : Ast.node;
  id : option Z;
  name : pyval;
  src : string;
  contract_kind : pyval
}.

Definition from_ast_node (n : Ast.node) : option t :=
  if negb (String.eqb (Ast.name n) "ContractDefinition") then None else
  let attrs := attributes n in
  Some {| node := n;
          id := Ast.id n;
          name := get attrs "name" (VStr "");
          src := Ast.src n;
          contract_kind := get attrs "contractKind" (VStr "contract") |}.

Definition is_concrete_contract (c : t) : bool :=
  negb (in_strs (contract_kind c) ["interface"; "library"]).

End ContractInfo.

Module CoupledInjectionSet.
Record t := mk {
  contract : ContractInfo.t;
  setter : FunctionInfo.t;
  executor : FunctionInfo.t
}.
End CoupledInjectionSet.

(** ** ast_helpers.py *)

Module AstHelpers.
Import Ast.

(** [find_nodes_by_name]: the nodes of the given kind, in depth-first
    pre-order (the order the generator yields them). *)
Fixpoint find_nodes_by_name (ast : node) (node_name : string) : list node :=
  match ast with
  | Node nm _ _ _ cs =>
      (if String.eqb nm node_name then [ast] else [])
      ++ (fix search_children (l : list node) : list node :=
            match l with
            | [] => []
            | child :: l' =>
                find_nodes_by_name child node_name ++ search_children l'
            end) cs
  end.

Definition find_contracts (ast : node) : list ContractInfo.t :=
  omap ContractInfo.from_ast_node (find_nodes_by_name ast "ContractDefinition").

Definition find_functions_in_contract (contract_node : node)
    : list FunctionInfo.t :=
  omap (fun child =>
          if String.eqb (Ast.name child) "FunctionDefinition"
          then FunctionInfo.from_ast_node child else None)
       (children contract_node).

End AstHelpers.

(** ** injectors.py: cross-function location discovery *)

Module CoupledInjector.
Import Ast.

Definition is_setter_candidate (f : FunctionInfo.t) : bool :=
  FunctionInfo.is_public_or_external f
  && FunctionInfo.is_state_modifying f
  && FunctionInfo.has_params f.

Definition is_executor_candidate (f : FunctionInfo.t) : bool :=
  FunctionInfo.is_public_or_external f
  && FunctionInfo.is_state_modifying f
  && (FunctionInfo.is_payable f || negb (FunctionInfo.has_params f)).

Definition setter_candidates (functions : list FunctionInfo.t) :=
  List.filter is_setter_candidate functions.

Definition executor_candidates (functions : list FunctionInfo.t) :=
  List.filter is_executor_candidate functions.

(** The pairs of one contract: the two nested loops over the
    candidates, with the [setter.id != executor.id] test. *)
Definition contract_pairs (contract_info : ContractInfo.t)
    : list CoupledInjectionSet.t :=
  let functions :=
    AstHelpers.find_functions_in_contract (ContractInfo.node contract_info) in
  flat_map (fun setter =>
    flat_map (fun executor =>
      if bool_decide (FunctionInfo.id setter <> FunctionInfo.id executor)
      then [CoupledInjectionSet.mk contract_info setter executor]
      else [])
      (executor_candidates functions))
    (setter_candidates functions).

(** [CoupledInjector.find_locations(self)], with [ast] for [self.ast]. *)
Definition find_locations (ast : node) : list CoupledInjectionSet.t :=
  flat_map (fun contract_info =>
    if negb (ContractInfo.is_concrete_contract contract_info) then []
    else contract_pairs contract_info)
    (AstHelpers.find_contracts ast).

End CoupledInjector.

(** ** templates/point_injection.py: name generation *)

Module PointInjection.
Import Py.

Definition UINT_VAR_NAMES : list string :=
  ["amount"; "value"; "balance"; "total"; "count"; "limit";
   "threshold"; "allocation"; "deposit"; "fee"; "reward"].

Definition ADDR_VAR_NAMES : list string :=
  ["recipient"; "sender"; "account"; "target"; "destination";
   "beneficiary"; "payee"; "delegate"; "handler"; "controller"].

Definition MAPPING_VAR_NAMES : list string :=
  ["balances"; "deposits"; "allocations"; "credits"; "amounts";
   "userBalances"; "accountValues"; "pendingPayouts"; "reserves"].

Definition BOOL_VAR_NAMES : list string :=
  ["isActive"; "isEnabled"; "isValid"; "isProcessed"; "isComplete";
   "hasExecuted"; "canWithdraw"; "isAuthorized"; "isLocked"].

Definition TIME_VAR_NAMES : list string :=
  ["lockTime"; "releaseTime"; "expirationTime"; "deadline";
   "cooldownEnd"; "unlockTime"; "scheduledTime"; "activeUntil"].

(** A name generator: a function drawing from the oracle. *)
Definition generator := tape -> nat -> string * nat.

(** [get_random_uint_var()], with the default context "generic". *)
Definition get_random_uint_var : generator :=
  fun t pos => choice "" t pos UINT_VAR_NAMES.
Definition get_random_addr_var : generator :=
  fun t pos => choice "" t pos ADDR_VAR_NAMES.
Definition get_random_mapping_var : generator :=
  fun t pos => choice "" t pos MAPPING_VAR_NAMES.
Definition get_random_bool_var : generator :=
  fun t pos => choice "" t pos BOOL_VAR_NAMES.
Definition get_random_time_var : generator :=
  fun t pos => choice "" t pos TIME_VAR_NAMES.

(** The [for _ in range(max_attempts)] loop of [generate_unique_name]:
    [Some name] when an attempt returned. *)
Fixpoint attempts (generator_func : generator) (existing_names : gset string)
    (n : nat) (t : tape) (pos : nat) : option string * nat :=
  match n with
  | O => (None, pos)
  | S n' =>
      let '(name, pos1) := generator_func t pos in
      if decide (name ∈ existing_names)
      then attempts generator_func existing_names n' t pos1
      else (Some name, pos1)
  end.

Definition generate_unique_name (generator_func : generator)
    (existing_names : gset string) (max_attempts : nat)
    (t : tape) (pos : nat) : string * nat :=
  match attempts generator_func existing_names max_attempts t pos with
  | (Some name, pos1) => (name, pos1)
  | (None, pos1) =>
      let '(base_name, pos2) := generator_func t pos1 in
      let '(k, pos3) := randint t pos2 1 999 in
      (base_name +:+ pretty k, pos3)
  end.

(** One [if kind in var_types:] block of [generate_var_names]; the
    state is the dict [names] (in insertion order), the set [used]
    and the position of the oracle. *)
Definition add_kind (var_types : list string) (kind key : string)
    (generator_func : generator) (t : tape)
    (st : list (string * string) * gset string * nat)
    : list (string * string) * gset string * nat :=
  let '(names, used, pos) := st in
  if bool_decide (kind ∈ var_types) then
    let '(name, pos1) := generate_unique_name generator_func used 50 t pos in
    (names ++ [(key, name)], used ∪ {[name]}, pos1)
  else st.

(** [generate_var_names(var_types, existing_names)]: the dict of
    generated names and the position of the oracle afterwards. *)
Definition generate_var_names (var_types : list string)
    (existing_names : option (gset string)) (t : tape) (pos : nat)
    : list (string * string) * nat :=
  let existing_names := default ∅ existing_names in
  let st0 := ([], existing_names, pos) in
  let st1 := add_kind var_types "addr" "var_addr" get_random_addr_var t st0 in
  let st2 := add_kind var_types "uint" "var_uint" get_random_uint_var t st1 in
  let st3 := add_kind var_types "mapping" "var_mapping" get_random_mapping_var t st2 in
  let st4 := add_kind var_types "bool" "var_bool" get_random_bool_var t st3 in
  let st5 := add_kind var_types "time" "var_time" get_random_time_var t st4 in
  let '(names, _, pos') := st5 in
  (names, pos').

End PointInjection.

(** ** Templates and their selection (payload_generators.py, injectors.py) *)

Module Templates.

(** A template: the keys of the dict that the selection code reads,
    each with the default its [.get] gives it. *)
Record Template := mkTemplate {
  min_version : string;
  max_version : string;
  state : option string;
  var_types : list string;
  needs_addr_param : bool;
  needs_uint_param : bool;
  needs_state_modifying : bool;
  setter_needs_args : bool;
  requires_payable_executor : bool;
  needs_payable_setter : bool
}.

(** A dict of templates, in insertion order. *)
Definition registry := list (string * Template).

(** [key in d] and [d[key]] *)
Definition has_key (d : registry) (key : string) : bool :=
  existsb (fun kv => String.eqb (fst kv) key) d.
Definition lookup (d : registry) (key : string) : option Template :=
  snd <$> List.find (fun kv => String.eqb (fst kv) key) d.

(** The truthiness of an optional string argument: [None] and the
    empty string are false. *)
Definition given (name : option string) : option string :=
  match name with
  | Some s => if String.eqb s "" then None else Some s
  | None => None
  end.

(** What a call yields: a value, or the exception it raises (a
    ValueError with its message, or the KeyError of a dict lookup). *)
Inductive outcome (A : Type) :=
| Ok (a : A)
| ValueError (msg : string)
| KeyError (key : option string).
Arguments Ok {A} a.
Arguments ValueError {A} msg.
Arguments KeyError {A} key.

End Templates.

Module PointPayloadGenerator.
Import Py Templates.

(** The location dict of single-function mode: the keys the
    requirement check reads, and the name of the function. *)
Record Location := mkLocation {
  function_name : string;
  has_address_param : bool;
  has_uint_param : bool;
  is_state_modifying : bool
}.

(** [PayloadGenerator._get_compatible_templates] *)
Definition _get_compatible_templates (templates : registry) (version : string)
    : registry :=
  List.filter
    (fun kv => Utils.is_version_compatible version
                 (min_version (snd kv)) (max_version (snd kv)))
    templates.

Definition check_template_requirements (template : Template)
    (location : Location) : bool :=
  if needs_addr_param template && negb (has_address_param location) then false
  else if needs_uint_param template && negb (has_uint_param location) then false
  else if needs_state_modifying template && negb (is_state_modifying location)
  then false
  else if bool_decide (state template <> None)
          && negb (is_state_modifying location) then false
  else true.

(** The template selection of [PointPayloadGenerator.generate]: from
    [compatible = self.get_compatible_templates(vuln_type)] to the
    end of the [# Select template] block.  [templates] is the dict
    [_get_templates_for_type] returned for [vuln_type], and
    [vuln_type] is the text it prints as. *)
Definition generate_select (templates : registry)
    (solidity_version : string) (randomize : bool)
    (location : Location) (vuln_type : string)
    (template_name : option string) (t : tape) (pos : nat)
    : outcome (string * Template) * nat :=
  let compatible := _get_compatible_templates templates solidity_version in
  match compatible with
  | [] =>
      (ValueError ("No compatible templates for Solidity " +:+ solidity_version
                   +:+ " and vuln type " +:+ vuln_type), pos)
  | _ :: _ =>
      let filtered :=
        List.filter (fun kv => check_template_requirements (snd kv) location)
          compatible in
      match filtered with
      | [] =>
          (ValueError ("No compatible templates for location in function "
                       +:+ function_name location), pos)
      | _ :: _ =>
          let pick :=
            match Utils.select_one t pos (fst <$> filtered) randomize with
            | (Some selected_name, pos') =>
                match lookup filtered selected_name with
                | Some template => (Ok (selected_name, template), pos')
                | None => (KeyError (Some selected_name), pos')
                end
            | (None, pos') => (KeyError None, pos')
            end in
          match given template_name with
          | Some name =>
              match lookup filtered name with
              | Some template => (Ok (name, template), pos)
              | None =>
                  if has_key compatible name then
                    (ValueError ("Template " +:+ name
                                 +:+ " is incompatible with function "
                                 +:+ function_name location
                                 +:+ " (state mutability)"), pos)
                  else pick
              end
          | None => pick
          end
      end
  end.

End PointPayloadGenerator.

Module CoupledSelection.
Import Py Ast Templates.

(** [any(sub in param.get("type", "").lower() for param in params)]:
    [None] is the AttributeError of [.lower()] on a type that is not
    a string, met before any match. *)
Fixpoint any_type_contains (sub : string) (params : list (pyval * pyval))
    : option bool :=
  match params with
  | [] => Some false
  | (_, VStr ty) :: params' =>
      if PyStr.contains sub (PyStr.lower ty) then Some true
      else any_type_contains sub params'
  | _ :: _ => None
  end.

(** The body of the inner loop of [_filter_by_template]: whether the
    combination is kept. *)
Definition template_fits (inj_set : CoupledInjectionSet.t) (tmpl : Template)
    : option bool :=
  let setter := CoupledInjectionSet.setter inj_set in
  let executor := CoupledInjectionSet.executor inj_set in
  let check (wanted : bool) (sub : string) : option bool :=
    if wanted && FunctionInfo.has_params setter
    then any_type_contains sub (FunctionInfo.params setter)
    else Some true in
  if setter_needs_args tmpl && negb (FunctionInfo.has_params setter)
  then Some false
  else if requires_payable_executor tmpl && negb (FunctionInfo.is_payable executor)
  then Some false
  else if needs_payable_setter tmpl && negb (FunctionInfo.is_payable setter)
  then Some false
  else
    match check (needs_addr_param tmpl) "address" with
    | None => None
    | Some false => Some false
    | Some true =>
        match check (needs_uint_param tmpl) "uint" with
        | None => None
        | Some false => Some false
        | Some true =>
            check (bool_decide ("addr" ∈ var_types tmpl)) "address"
        end
    end.

Definition valid_entry : Type := CoupledInjectionSet.t * string * Template.

Fixpoint filter_templates (inj_set : CoupledInjectionSet.t)
    (templates : registry) : option (list valid_entry) :=
  match templates with
  | [] => Some []
  | (tmpl_name, tmpl) :: templates' =>
      match template_fits inj_set tmpl with
      | None => None
      | Some keep =>
          match filter_templates inj_set templates' with
          | None => None
          | Some rest =>
              Some (if keep then (inj_set, tmpl_name, tmpl) :: rest else rest)
          end
      end
  end.

(** [CoupledInjector._filter_by_template(sets, templates)] *)
Fixpoint _filter_by_template (sets : list CoupledInjectionSet.t)
    (templates : registry) : option (list valid_entry) :=
  match sets with
  | [] => Some []
  | inj_set :: sets' =>
      match filter_templates inj_set templates with
      | None => None
      | Some here =>
          match _filter_by_template sets' templates with
          | None => None
          | Some rest => Some (here ++ rest)
          end
      end
  end.

(** The [# Select one] block of [CoupledInjector.inject], reached with
    a non-empty [valid_sets]. *)
Definition inject_select (valid_sets : list valid_entry)
    (template_name : option string) (randomize : bool)
    (t : tape) (pos : nat) : option valid_entry * nat :=
  match given template_name with
  | Some name =>
      let matching :=
        List.filter (fun e => String.eqb (snd (fst e)) name) valid_sets in
      match matching with
      | _ :: _ => Utils.select_one t pos matching randomize
      | [] => Utils.select_one t pos valid_sets randomize
      end
  | None => Utils.select_one t pos valid_sets randomize
  end.

End CoupledSelection.

Module SelectionModel.
Import Templates PointPayloadGenerator.

(** The two dicts [generate] builds before it selects. *)
Definition compatible_of (templates : registry) (solidity_version : string)
    : registry :=
  _get_compatible_templates templates solidity_version.

Definition filtered_of (templates : registry) (solidity_version : string)
    (location : Location) : registry :=
  List.filter (fun kv => check_template_requirements (snd kv) location)
    (compatible_of templates solidity_version).

(** The message of the one error that names the requested template. *)
Definition incompatible_message (name : string) (location : Location) : string :=
  "Template " +:+ name +:+ " is incompatible with function "
  +:+ function_name location +:+ " (state mutability)".

End SelectionModel.

(** ** Concrete inputs used by the examples *)

Module Samples.
Import Ast Templates.

Definition attrs (l : list (string * pyval)) : gmap string pyval :=
  list_to_map l.

Definition param (n ty : string) : node :=
  Node "VariableDeclaration" None ""
    (attrs [("name", VStr n); ("type", VStr ty)]) [].

Definition func (i : Z) (n mutability : string) (ps : list node) : node :=
  Node "FunctionDefinition" (Some i) ""
    (attrs [("name", VStr n); ("visibility", VStr "public");
            ("stateMutability", VStr mutability);
            ("isConstructor", VBool false)])
    [Node "ParameterList" None "" ∅ ps;
     Node "ParameterList" None "" ∅ [];
     Node "Block" None "" ∅ []].

Definition contract (i : Z) (n kind : string) (fs : list node) : node :=
  Node "ContractDefinition" (Some i) ""
    (attrs [("name", VStr n); ("contractKind", VStr kind)]) fs.

(** [contract Wallet { function set(address _a) public {..}
                       function pay() public payable {..} }] *)
Definition wallet_ast : node :=
  Node "SourceUnit" (Some 0) "" ∅
    [contract 1 "Wallet" "contract"
       [func 2 "set" "nonpayable" [param "_a" "address"];
        func 3 "pay" "payable" []]].

(** The same with an executor that is not payable. *)
Definition vault_ast : node :=
  Node "SourceUnit" (Some 0) "" ∅
    [contract 1 "Vault" "contract"
       [func 2 "set" "nonpayable" [param "_a" "address"];
        func 3 "run" "nonpayable" []]].

Definition plain : Template :=
  mkTemplate "0.4.0" "0.8.99" None [] false false false false false false.

(** A template with prerequisites: an address parameter in point
    mode, a payable executor in coupled mode. *)
Definition demanding : Template :=
  mkTemplate "0.4.0" "0.8.99" None [] true false false false true false.

(** A template for old compilers only. *)
Definition legacy : Template :=
  mkTemplate "0.4.0" "0.4.26" None [] false false false false false false.

Definition sample_registry : registry :=
  [("plain", plain); ("demanding", demanding); ("legacy", legacy)].

Definition no_address_location : PointPayloadGenerator.Location :=
  PointPayloadGenerator.mkLocation "run" false false true.

Definition zero_tape : Py.tape := fun _ => 0%nat.

(** The identifiers of a contract that declares [recipient] and
    [recipient1]. *)
Definition taken_names : gset string := {[ "recipient"; "recipient1" ]}.

(** The bytes of a text given line by line, each line ended by a
    newline. *)
Definition text (ls : list string) : Py.bytes :=
  concat (List.map (fun s => list_byte_of_string s ++ [PyBytes.newline]) ls).

(** A body whose first statement starts in the first column. *)
Definition flush_left_body : Py.bytes :=
  text ["function f() public {"; "x = 1;"; "    y = 2;"; "}"].

(** A body that starts with comments. *)
Definition commented_body : Py.bytes :=
  text ["function f() public {"; ""; "  // note"; "   /* a"; " * b";
        "   */"; "      y = 2;"; "}"].

End Samples.

(** ** Indentation detection, line by line *)

Module IndentModel.
Import Py PyBytes Utils.

(** The bytes up to the first newline, and what follows it ([None]
    when there is no newline). *)
Fixpoint first_line (l : bytes) : bytes :=
  match l with
  | [] => []
  | c :: r => if Byte.eqb c newline then [] else c :: first_line r
  end.

Fixpoint after_line (l : bytes) : option bytes :=
  match l with
  | [] => None
  | c :: r => if Byte.eqb c newline then Some r else after_line r
  end.

(** The lines of a buffer, as [split(b'\n')] gives them. *)
Fixpoint split_lines (l : bytes) : list bytes :=
  match l with
  | [] => [[]]
  | c :: r =>
      if Byte.eqb c newline then [] :: split_lines r
      else match split_lines r with
           | h :: t => (c :: h) :: t
           | [] => [[c]]
           end
  end.

(** The lines that follow the line holding [offset]. *)
Definition lines_after (content : bytes) (offset : Z) : list bytes :=
  match after_line (drop (Z.to_nat offset) content) with
  | Some r => split_lines r
  | None => []
  end.

(** What a line is, given whether a multi-line comment is open
    before it. *)
Inductive line_kind := Blank | LineComment | CommentBody | Code.

Definition opens_comment (line : bytes) : bool :=
  contains [slash; star] (strip line).
Definition closes_comment (line : bytes) : bool :=
  contains [star; slash] (strip line).

(** Whether a multi-line comment is open after the line. *)
Definition comment_open_after (open : bool) (line : bytes) : bool :=
  if closes_comment line then false
  else if opens_comment line then true else open.

Definition classify (open : bool) (line : bytes) : line_kind :=
  let stripped := strip line in
  if closes_comment line then CommentBody
  else if bool_decide (stripped = []) then Blank
  else if opens_comment line || open then CommentBody
  else if startswith stripped [slash; slash] then LineComment
  else if startswith stripped [star] then CommentBody
  else Code.

Definition default_indent : string := "  ".

(** The design, as stated: the leading whitespace of the first code
    line. *)
Fixpoint first_code_line_indent (lines : list bytes) (open : bool) : string :=
  match lines with
  | [] => default_indent
  | line :: lines' =>
      match classify open line with
      | Code => decode (leading_indent line)
      | _ => first_code_line_indent lines' (comment_open_after open line)
      end
  end.

(** The design, as the code has it: the leading whitespace of the
    first code line that has any; a code line that starts in the
    first column is passed over like a blank one. *)
Fixpoint first_indented_code_line_indent (lines : list bytes) (open : bool)
    : string :=
  match lines with
  | [] => default_indent
  | line :: lines' =>
      match classify open line, leading_indent line with
      | Code, _ :: _ => decode (leading_indent line)
      | _, _ =>
          first_indented_code_line_indent lines' (comment_open_after open line)
      end
  end.

End IndentModel.

(** ** What discovery is asked to return *)

Module DiscoveryModel.
Import Ast AstHelpers CoupledInjector.

(** The pairs the design asks discovery to return. *)
Definition eligible_pair (ast : node) (s : CoupledInjectionSet.t) : Prop :=
  let c := CoupledInjectionSet.contract s in
  let setter := CoupledInjectionSet.setter s in
  let executor := CoupledInjectionSet.executor s in
  let functions := find_functions_in_contract (ContractInfo.node c) in
  In c (find_contracts ast)
  /\ ContractInfo.is_concrete_contract c = true
  /\ In setter functions /\ In executor functions
  /\ FunctionInfo.id setter <> FunctionInfo.id executor
  /\ FunctionInfo.is_public_or_external setter = true
  /\ FunctionInfo.is_state_modifying setter = true
  /\ FunctionInfo.has_params setter = true
  /\ FunctionInfo.is_public_or_external executor = true
  /\ FunctionInfo.is_state_modifying executor = true
  /\ (FunctionInfo.is_payable executor = true
      \/ FunctionInfo.has_params executor = false).

End DiscoveryModel.

(** ** Versions with three components *)

Module VersionModel.
Import PyStr.

(** A component: a non-empty string of decimal digits. *)
Definition decimal (s : string) : Prop :=
  s <> "" /\ forallb_str is_decimal s = true
  /\ (String.length s <= int_max_str_digits)%nat.

Definition value (s : string) : Z := default 0 (int s).

(** The text [major.minor.patch]. *)
Definition version_text (a b c : string) : string :=
  a +:+ "." +:+ b +:+ "." +:+ c.

(** The prefixes that [parse_version] removes. *)
Definition handled_prefix (p : string) : Prop :=
  p = "" \/ p = "^" \/ p = ">=" \/ p = ">" \/ p = "<".

(** The lexicographic order on (major, minor, patch). *)
Definition triple_le (x y : Z * Z * Z) : bool :=
  let '(a, b, c) := x in
  let '(a', b', c') := y in
  (a <? a') || ((a =? a') && ((b <? b') || ((b =? b') && (c <=? c')))).

Definition in_interval (lo v hi : Z * Z * Z) : bool :=
  triple_le lo v && triple_le v hi.

(** The characters of a version text: decimal digits and dots. *)
Definition plain_char (c : ascii) : bool := is_decimal c || Ascii.eqb c ".".

(** The four [replace] calls of [parse_version]. *)
Definition remove_operators (v : string) : string :=
  replace (replace (replace (replace v "^" "") ">=" "") ">" "") "<" "".

End VersionModel.

(** ** What name generation guarantees *)

Module NameModel.
Import Py PointInjection.

(** The names the fallback can produce: a drawn name followed by a
    number from 1 to 999. *)
Definition fallback_shape (name : string) : Prop :=
  exists (base : string) (k : nat),
    name = base +:+ pretty k /\ (1 <= k <= 999)%nat.

(** What holds of the name at position [i] of a pass. *)
Definition fresh_at (existing : gset string) (names : list (string * string))
    (i : nat) (name : string) : Prop :=
  ((name ∉ existing) /\ (name ∉ (take i names).*2)) \/ fallback_shape name.

(** The invariant of a pass: [used] holds the existing identifiers and
    the names chosen so far, and every name chosen so far is fresh
    unless the fallback made it. *)
Definition pass_inv (existing : gset string)
    (st : list (string * string) * gset string * nat) : Prop :=
  let '(names, used, _) := st in
  existing ⊆ used
  /\ (forall n, n ∈ names.*2 -> n ∈ used)
  /\ forall i key name, names !! i = Some (key, name) ->
       fresh_at existing names i name.

End NameModel.

(** ** Exceptions *)

Module PyExn.

(** The exceptions the modelled code can raise. *)
Inductive exn := ValueError | IndexError | AttributeError | TypeError.

(** The result of a call: a value, or a raised exception. *)
Inductive result (A : Type) :=
| Ret (a : A)
| Raise (e : exn).
Arguments Ret {A} a.
Arguments Raise {A} e.

Definition bind {A B} (r : result A) (k : A -> result B) : result B :=
  match r with
  | Ret a => k a
  | Raise e => Raise e
  end.

End PyExn.

(** ** utils.py: source ranges and the brace search *)

Module SrcLocation.
Import Py PyStr PyExn.

(** The digits of an integer literal: decimal digits, with single
    underscores allowed between two digits.  [after_digit] tells
    whether the previous character was a digit; the result is the
    value and the number of digits. *)
Fixpoint digits_go (acc : Z) (count : nat) (after_digit : bool) (s : string)
    : option (Z * nat) :=
  match s with
  | EmptyString => if after_digit then Some (acc, count) else None
  | String c r =>
      if is_decimal c
      then digits_go (10 * acc + Z.of_N (code c - 48)) (S count) true r
      else if Ascii.eqb c "_" && after_digit
      then digits_go acc count false r
      else None
  end.

(** [int(s)] for any string: surrounding whitespace is dropped, one
    sign is allowed, and more than 4300 digits are refused; [None] is
    the ValueError. *)
Definition int_literal (s : string) : option Z :=
  let s := strip s in
  let '(negative, body) :=
    match s with
    | String "-" r => (true, r)
    | String "+" r => (false, r)
    | _ => (false, s)
    end in
  match digits_go 0 0 false body with
  | Some (v, count) =>
      if (int_max_str_digits <? count)%nat then None
      else Some (if negative then - v else v)
  | None => None
  end.

Definition int_of (s : string) : result Z :=
  match int_literal s with
  | Some v => Ret v
  | None => Raise ValueError
  end.

(** [parts[i]] *)
Definition item (parts : list string) (i : nat) : result string :=
  match parts !! i with
  | Some p => Ret p
  | None => Raise IndexError
  end.

(** [parse_src_location(src)] *)
Definition parse_src_location (src : string) : result (Z * Z * Z) :=
  let parts := split ":" src in
  bind (item parts 0) (fun p0 => bind (int_of p0) (fun a =>
  bind (item parts 1) (fun p1 => bind (int_of p1) (fun b =>
  bind (item parts 2) (fun p2 => bind (int_of p2) (fun c =>
  Ret (a, b, c))))))).

(** [x.find(sub)], counting from [i]: the index of the first
    occurrence, or -1. *)
Fixpoint find_from (sub l : bytes) (i : Z) : Z :=
  if PyBytes.startswith l sub then i
  else match l with
       | [] => -1
       | _ :: r => find_from sub r (i + 1)
       end.
Definition find (l sub : bytes) : Z := find_from sub l 0.

Definition open_brace : byte := x7b.

(** [find_brace_offset(content, start_offset, length)] *)
Definition find_brace_offset (content : bytes) (start_offset length : Z) : Z :=
  let search_range := py_slice content start_offset (start_offset + length) in
  let brace_pos := find search_range [open_brace] in
  if brace_pos =? -1 then -1 else start_offset + brace_pos + 1.

(** [InjectionLocation.get_start_offset]:
    [int(self.assignment_src.split(':')[0])] *)
Definition get_start_offset (assignment_src : string) : result Z :=
  bind (item (split ":" assignment_src) 0) int_of.

(** [_get_function_body_offset(func)], from [func.body_src] *)
Definition _get_function_body_offset (body_src : string) : result Z :=
  bind (parse_src_location body_src) (fun '(start, _, _) => Ret (start + 1)).

(** [_get_contract_body_offset(contract)], from [self.content] and
    [contract.src] *)
Definition _get_contract_body_offset (content : bytes) (src : string)
    : result Z :=
  bind (parse_src_location src)
    (fun '(start, length, _) => Ret (find_brace_offset content start length)).

End SrcLocation.

(** ** Undoing the splice *)

Module UnspliceModel.
Import Py Models.

(** The buffer without the bytes of a region. *)
Definition remove_region (out : bytes) (r : Region) : bytes :=
  slice_to out (start_byte r) ++ slice_from out (end_byte r).

(** The regions removed one after the other, in the order given. *)
Definition remove_regions (out : bytes) (rs : list Region) : bytes :=
  fold_left remove_region rs out.

End UnspliceModel.
(** ** The indentation of the setter and executor payloads *)

Module CoupledIndent.
Import Py PyStr Utils.

(** [indent = detect_indentation(content, offset)] followed by
    [if not indent.strip() == "": indent = "        "]. *)
Definition default_body_indent : string := "        ".
Definition body_indent (content : bytes) (offset : Z) : string :=
  let indent := detect_indentation content offset in
  if negb (String.eqb (strip indent) "") then default_body_indent
  else indent.

(** A byte string of spaces and tabs. *)
Definition blank (l : bytes) : Prop :=
  Forall (fun c => c = PyBytes.space \/ c = PyBytes.tab) l.

End CoupledIndent.

(** ** ast_helpers.py: traversal, lookup by id, identifiers *)

Module AstTraversal.
Import Ast PyExn.

(** [traverse_ast(node, visitor)]: the visitor is called on the node,
    then the children are traversed from left to right.  A visitor
    works on the variables of its closure: here it takes their state
    and returns the new one, or raises. *)
Fixpoint traverse_ast {S : Type} (visitor : node -> S -> result S)
    (n : node) (s : S) : result S :=
  match n with
  | Node _ _ _ _ cs =>
      bind (visitor n s)
        ((fix traverse_children (l : list node) (s : S) : result S :=
            match l with
            | [] => Ret s
            | child :: l' =>
                bind (traverse_ast visitor child s) (traverse_children l')
            end) cs)
  end.

(** The nodes in the order [traverse_ast] visits them: the trace of a
    visitor that appends its argument to a list. *)
Definition record_visit (n : node) (seen : list node) : result (list node) :=
  Ret (seen ++ [n]).
Definition visit_order (ast : node) : list node :=
  match traverse_ast record_visit ast [] with
  | Ret seen => seen
  | Raise _ => []
  end.

(** The calls of a visitor on a list of nodes, one after the other,
    up to the first exception. *)
Fixpoint visit_all {S : Type} (visitor : node -> S -> result S)
    (l : list node) (s : S) : result S :=
  match l with
  | [] => Ret s
  | n :: l' => bind (visitor n s) (visit_all visitor l')
  end.

(** [find_node_by_id(ast, target_id)].  A node found has an [id] key,
    so it is a non-empty dict and passes the test [if result:]. *)
Fixpoint find_node_by_id (ast : node) (target_id : Z) : option node :=
  match ast with
  | Node _ i _ _ cs =>
      if bool_decide (i = Some target_id) then Some ast
      else (fix search_children (l : list node) : option node :=
              match l with
              | [] => None
              | child :: l' =>
                  match find_node_by_id child target_id with
                  | Some result => Some result
                  | None => search_children l'
                  end
              end) cs
  end.

(** The kinds of node whose name [extract_all_identifiers] collects. *)
Definition declaration_kinds : list string :=
  ["VariableDeclaration"; "FunctionDefinition"; "EventDefinition";
   "ModifierDefinition"; "StructDefinition"; "EnumDefinition";
   "ContractDefinition"].

(** [identifiers.add(name)]: a compound value cannot be hashed.  The
    set is kept as the list of the values added to it. *)
Definition set_add (name : pyval) (identifiers : list pyval)
    : result (list pyval) :=
  match name with
  | VOther _ => Raise TypeError
  | _ => Ret (identifiers ++ [name])
  end.

(** The visitor of [extract_all_identifiers]. *)
Definition collect_name (n : node) (identifiers : list pyval)
    : result (list pyval) :=
  let name := get (attributes n) "name" VNone in
  let node_name := Ast.name n in
  bind (if bool_decide (node_name ∈ declaration_kinds) && truthy name
        then set_add name identifiers else Ret identifiers)
    (fun identifiers =>
       if String.eqb node_name "Identifier" && truthy name
       then set_add name identifiers else Ret identifiers).

(** [extract_all_identifiers(ast)], as the values added to the set. *)
Definition extract_all_identifiers (ast : node) : result (list pyval) :=
  traverse_ast collect_name ast [].

(** The strings of the set: what [name in existing_names] can find for
    a string [name]. *)
Definition strings_of (identifiers : list pyval) : gset string :=
  list_to_set (omap (fun v => match v with VStr s => Some s | _ => None end)
                 identifiers).

(** Whether a node contributes its name attribute. *)
Definition names_identifier (n : node) : bool :=
  bool_decide (Ast.name n ∈ declaration_kinds)
  || String.eqb (Ast.name n) "Identifier".

End AstTraversal.

(** ** ast_helpers.py: the locations of single-function mode *)

Module PointLocations.
Import Ast PyExn.

(** The location dict built by [find_point_injection_locations]. *)
Record t := mk {
  contract : ContractInfo.t;
  function : FunctionInfo.t;
  has_params : bool;
  has_address_param : bool;
  has_uint_param : bool;
  is_payable : bool;
  is_state_modifying : bool
}.

(** The body of the loop over the functions of a contract: nothing
    for a function that is skipped, the location otherwise;
    AttributeError when [.lower()] meets a parameter type that is not
    a string. *)
Definition location_of (contract_info : ContractInfo.t)
    (func_info : FunctionInfo.t) : result (list t) :=
  if negb (FunctionInfo.is_public_or_external func_info) then Ret []
  else if String.eqb (FunctionInfo.body_src func_info) "" then Ret []
  else
    match CoupledSelection.any_type_contains "address"
            (FunctionInfo.params func_info) with
    | None => Raise AttributeError
    | Some has_address =>
        match CoupledSelection.any_type_contains "uint"
                (FunctionInfo.params func_info) with
        | None => Raise AttributeError
        | Some has_uint =>
            Ret [{| contract := contract_info;
                    function := func_info;
                    has_params := FunctionInfo.has_params func_info;
                    has_address_param := has_address;
                    has_uint_param := has_uint;
                    is_payable := FunctionInfo.is_payable func_info;
                    is_state_modifying :=
                      FunctionInfo.is_state_modifying func_info |}]
        end
    end.



(** A loop that extends the list [locations] and stops at the first
    exception. *)
Fixpoint collect {A B} (f : A -> result (list B)) (l : list A)
    : result (list B) :=
  match l with
  | [] => Ret []
  | x :: l' =>
      bind (f x) (fun here => bind (collect f l') (fun rest => Ret (here ++ rest)))
  end.

Definition contract_locations (contract_info : ContractInfo.t)
    : result (list t) :=
  if negb (ContractInfo.is_concrete_contract contract_info) then Ret []
  else collect (location_of contract_info)
         (AstHelpers.find_functions_in_contract
            (ContractInfo.node contract_info)).

(** [find_point_injection_locations(ast)] *)
Definition find_point_injection_locations (ast : node) : result (list t) :=
  collect contract_locations (AstHelpers.find_contracts ast).

End PointLocations.

Module LocationSamples.
Import Ast.

Definition func_at (i : Z) (n visibility mutability body_src : string)
    (ps : list node) : node :=
  Node "FunctionDefinition" (Some i) ""
    (Samples.attrs [("name", VStr n); ("visibility", VStr visibility);
                    ("stateMutability", VStr mutability);
                    ("isConstructor", VBool false)])
    [Node "ParameterList" None "" ∅ ps;
     Node "ParameterList" None "" ∅ [];
     Node "Block" None body_src ∅ []].

(** [contract Ledger { function peek(address a) public view {..} ... }] *)
Definition ledger_ast : node :=
  Node "SourceUnit" (Some 0) "" ∅
    [Samples.contract 1 "Ledger" "contract"
       [func_at 2 "peek" "public" "view" "40:12:0"
          [Samples.param "a" "address"];
        func_at 3 "bare" "public" "nonpayable" "" [];
        func_at 4 "hidden" "internal" "nonpayable" "80:9:0" []]].

End LocationSamples.

(** ** Placeholder substitution (templates/point_injection.py,
    templates/coupled_injection.py) *)

Module PayloadText.
Import Py PyStr Templates.

(** [apply_var_names(template_str, var_names, input_param, indent)]:
    [var_names] is the dict in insertion order; the function has the
    same text in both template modules. *)
Definition apply_var_names (template_str : option string)
    (var_names : list (string * string)) (input_param : option string)
    (indent : string) : option string :=
  match template_str with
  | None => None
  | Some template_str =>
      let result :=
        fold_left (fun result kv =>
                     replace result ("{" +:+ fst kv +:+ "}") (snd kv))
          var_names template_str in
      let result :=
        match given input_param with
        | Some input_param => replace result "{input_param}" input_param
        | None => result
        end in
      Some (replace result "{indent}" indent)
  end.

(** [PointPayloadGenerator._apply_vars(code, var_names, input_param,
    indent)] and [CrossFunctionPayloadGenerator._apply_vars(code,
    var_names)]; the second leaves the last two arguments to their
    defaults, [None] and four spaces. *)
Definition point_apply_vars (code : option string)
    (var_names : list (string * string)) (input_param : option string)
    (indent : string) : option string :=
  apply_var_names code var_names input_param indent.
Definition coupled_apply_vars (code : option string)
    (var_names : list (string * string)) : option string :=
  apply_var_names code var_names None "    ".

(** The characters of a string. *)
Definition chars (s : string) : list ascii := list_ascii_of_string s.

End PayloadText.

(** ** templates/coupled_injection.py: name generation *)

Module CoupledNames.
Import Py PointInjection.

Definition REALISTIC_PREFIXES : list string :=
  ["pending"; "current"; "last"; "next"; "active"; "primary"; "default";
   "registered"; "approved"; "verified"; "authorized"; "delegated"].

Definition REALISTIC_SUFFIXES : list string :=
  ["Recipient"; "Account"; "Address"; "Wallet"; "Handler"; "Manager";
   "Controller"; "Target"; "Destination"; "Payee"; "Holder"; "Owner"].

Definition AMOUNT_NAMES : list string :=
  ["pendingAmount"; "currentBalance"; "reservedFunds"; "allocatedValue";
   "depositAmount"; "withdrawalLimit"; "transferAmount"; "payoutValue"].

Definition TIME_NAMES : list string :=
  ["releaseTime"; "lockPeriod"; "expirationTime"; "activationTime";
   "cooldownEnd"; "nextAllowedTime"; "scheduledTime"; "unlockTimestamp"].

Definition ARRAY_NAMES : list string :=
  ["participants"; "members"; "registeredUsers"; "activeAccounts";
   "pendingRecipients"; "queuedAddresses"; "enrolledUsers"; "subscribers"].

Definition MAPPING_NAMES : list string :=
  ["balances"; "deposits"; "allocations"; "contributions";
   "pendingPayouts"; "userCredits"; "accountValues"; "reservedAmounts"].

Definition BOOL_VAR_NAMES : list string :=
  ["isActive"; "isEnabled"; "isValid"; "isProcessed"; "isComplete";
   "hasExecuted"; "canWithdraw"; "isAuthorized"; "isLocked"].

Definition UINT_VAR_NAMES : list string :=
  ["amount"; "value"; "balance"; "total"; "count"; "limit";
   "threshold"; "allocation"; "deposit"; "fee"; "reward"].

(** [random.choice(REALISTIC_PREFIXES) + random.choice(REALISTIC_SUFFIXES)]:
    the prefix is drawn first. *)
Definition get_random_address_var : generator :=
  fun t pos =>
    let '(prefix, pos1) := choice "" t pos REALISTIC_PREFIXES in
    let '(suffix, pos2) := choice "" t pos1 REALISTIC_SUFFIXES in
    (prefix +:+ suffix, pos2).
Definition get_random_amount_var : generator :=
  fun t pos => choice "" t pos AMOUNT_NAMES.
Definition get_random_time_var : generator :=
  fun t pos => choice "" t pos TIME_NAMES.
Definition get_random_array_var : generator :=
  fun t pos => choice "" t pos ARRAY_NAMES.
Definition get_random_mapping_var : generator :=
  fun t pos => choice "" t pos MAPPING_NAMES.
Definition get_random_bool_var : generator :=
  fun t pos => choice "" t pos BOOL_VAR_NAMES.
Definition get_random_uint_var : generator :=
  fun t pos => choice "" t pos UINT_VAR_NAMES.

(** [generate_var_names(var_types, existing_names)] of the coupled
    templates: seven kinds, each block as in the point templates
    ([generate_unique_name] has the same text in both modules). *)
Definition generate_var_names (var_types : list string)
    (existing_names : option (gset string)) (t : tape) (pos : nat)
    : list (string * string) * nat :=
  let existing_names := default ∅ existing_names in
  let st0 := ([], existing_names, pos) in
  let st1 := add_kind var_types "addr" "var_addr" get_random_address_var t st0 in
  let st2 := add_kind var_types "time" "var_time" get_random_time_var t st1 in
  let st3 := add_kind var_types "amt" "var_amt" get_random_amount_var t st2 in
  let st4 := add_kind var_types "array" "var_array" get_random_array_var t st3 in
  let st5 := add_kind var_types "mapping" "var_mapping" get_random_mapping_var t st4 in
  let st6 := add_kind var_types "bool" "var_bool" get_random_bool_var t st5 in
  let st7 := add_kind var_types "uint" "var_uint" get_random_uint_var t st6 in
  let '(names, _, pos') := st7 in
  (names, pos').

End CoupledNames.

(** ** The pools behind the generated names *)

Module NamePools.
Import Py PointInjection.

(** A name made from a pool: one of its names, or one of its names
    followed by a number from 1 to 999. *)
Definition from_pool (pool : list string) (name : string) : Prop :=
  exists base, In base pool
    /\ (name = base
        \/ exists k : nat, (1 <= k <= 999)%nat /\ name = base +:+ pretty k).

(** A generator that draws from a pool. *)
Definition draws_from (gen : generator) (pool : list string) : Prop :=
  forall t pos, In (fst (gen t pos)) pool.

(** The blocks of a [generate_var_names], in the order of the source:
    the kind tested, the key written, the pool drawn from. *)
Definition kinds := list (string * string * list string).

Definition point_kinds : kinds :=
  [("addr", "var_addr", ADDR_VAR_NAMES);
   ("uint", "var_uint", UINT_VAR_NAMES);
   ("mapping", "var_mapping", MAPPING_VAR_NAMES);
   ("bool", "var_bool", BOOL_VAR_NAMES);
   ("time", "var_time", TIME_VAR_NAMES)].

(** The names [get_random_address_var] can build. *)
Definition address_names : list string :=
  flat_map (fun prefix =>
              List.map (fun suffix => prefix +:+ suffix)
                CoupledNames.REALISTIC_SUFFIXES)
    CoupledNames.REALISTIC_PREFIXES.

Definition coupled_kinds : kinds :=
  [("addr", "var_addr", address_names);
   ("time", "var_time", CoupledNames.TIME_NAMES);
   ("amt", "var_amt", CoupledNames.AMOUNT_NAMES);
   ("array", "var_array", CoupledNames.ARRAY_NAMES);
   ("mapping", "var_mapping", CoupledNames.MAPPING_NAMES);
   ("bool", "var_bool", CoupledNames.BOOL_VAR_NAMES);
   ("uint", "var_uint", CoupledNames.UINT_VAR_NAMES)].

(** The keys of the blocks whose kind is requested. *)
Definition keys_for (var_types : list string) (ks : kinds) : list string :=
  omap (fun k => if bool_decide (k.1.1 ∈ var_types) then Some k.1.2 else None)
    ks.

(** What holds of the state after the blocks [ks]. *)
Definition shape_inv (var_types : list string) (ks : kinds)
    (st : list (string * string) * gset string * nat) : Prop :=
  let '(names, _, _) := st in
  names.*1 = keys_for var_types ks
  /\ forall key name, In (key, name) names ->
       exists kind pool, In (kind, key, pool) ks /\ kind ∈ var_types
                         /\ from_pool pool name.

End NamePools.

(** ** Version texts of any number of components *)

Module DottedVersions.
Import PyStr.

(** The components joined by dots. *)
Fixpoint dotted (comps : list string) : string :=
  match comps with
  | [] => ""
  | [a] => a
  | a :: rest => a +:+ "." +:+ dotted rest
  end.

(** The tuple [parse_version] makes of the components. *)
Definition version_tuple (comps : list string) : list Z :=
  VersionModel.value <$> take 3 comps.

End DottedVersions.

(** ** ast_helpers.py: assignments to state variables *)

Module StateAssignments.
Import Ast PyExn AstTraversal.

(** The visitor of [find_state_variables]: the dict maps the id of a
    state variable declaration to its name. *)
Definition record_state_variable (n : node) (state_vars : gmap Z pyval)
    : result (gmap Z pyval) :=
  if String.eqb (Ast.name n) "VariableDeclaration" then
    let attrs := attributes n in
    if truthy (get attrs "stateVariable" VNone) then
      let var_name := get attrs "name" VNone in
      match Ast.id n with
      | Some var_id =>
          if truthy var_name then Ret (<[var_id := var_name]> state_vars)
          else Ret state_vars
      | None => Ret state_vars
      end
    else Ret state_vars
  else Ret state_vars.

(** [find_state_variables(ast)] *)
Definition find_state_variables (ast : node) : gmap Z pyval :=
  match traverse_ast record_state_variable ast ∅ with
  | Ret state_vars => state_vars
  | Raise _ => ∅
  end.

(** The key that a value is as an index of a dict with integer keys:
    [True] and [False] are the keys 1 and 0, [None] and a string are
    the key of no entry, a list or an object cannot be hashed. *)
Definition dict_key (v : pyval) : result (option Z) :=
  match v with
  | VInt z => Ret (Some z)
  | VBool b => Ret (Some (if b then 1 else 0))
  | VNone | VStr _ => Ret None
  | VOther _ => Raise TypeError
  end.

(** [if ref_id in state_vars: return state_vars[ref_id]]: the value
    returned, or [None] when the test fails. *)
Definition lookup_ref (state_vars : gmap Z pyval) (ref_id : pyval)
    : result (option pyval) :=
  bind (dict_key ref_id) (fun k =>
    Ret (match k with Some z => state_vars !! z | None => None end)).

Definition referenced_declaration (n : node) : pyval :=
  get (attributes n) "referencedDeclaration" VNone.

(** [check_assignment_target(assignment_node, state_vars)]: [Ret None]
    is the [return None] at the end (or at the top, for a node
    without children). *)
Definition check_assignment_target (assignment_node : node)
    (state_vars : gmap Z pyval) : result (option pyval) :=
  match children assignment_node with
  | [] => Ret None
  | lhs :: _ =>
      bind (if String.eqb (Ast.name lhs) "Identifier"
            then lookup_ref state_vars (referenced_declaration lhs)
            else Ret None)
        (fun found =>
           match found with
           | Some state_var => Ret (Some state_var)
           | None =>
               if in_strs (VStr (Ast.name lhs)) ["IndexAccess"; "MemberAccess"]
               then
                 match children lhs with
                 | [] => Ret None
                 | base :: _ =>
                     if String.eqb (Ast.name base) "Identifier"
                     then lookup_ref state_vars (referenced_declaration base)
                     else Ret None
                 end
               else Ret None
           end)
  end.

(** The visitor of [find_state_variable_assignments]. *)
Definition record_assignment (state_vars : gmap Z pyval) (n : node)
    (assignments : list (node * pyval)) : result (list (node * pyval)) :=
  if String.eqb (Ast.name n) "Assignment" then
    bind (check_assignment_target n state_vars) (fun state_var =>
      match state_var with
      | Some v =>
          if truthy v then Ret (assignments ++ [(n, v)]) else Ret assignments
      | None => Ret assignments
      end)
  else Ret assignments.

(** [find_state_variable_assignments(node, state_vars)] *)
Definition find_state_variable_assignments (n : node)
    (state_vars : gmap Z pyval) : result (list (node * pyval)) :=
  traverse_ast (record_assignment state_vars) n [].

(** An [InjectionLocation]: [function_id], [function_name] and
    [function_src] are the fields of the function, [assignment_id]
    and [assignment_src] are read from the assignment node. *)
Record InjectionLocation := mkLocation {
  function : FunctionInfo.t;
  assignment : node;
  state_variable : pyval
}.
Definition function_id (loc : InjectionLocation) : option Z :=
  FunctionInfo.id (function loc).
Definition function_name (loc : InjectionLocation) : pyval :=
  FunctionInfo.name (function loc).
Definition function_src (loc : InjectionLocation) : string :=
  FunctionInfo.src (function loc).
Definition assignment_id (loc : InjectionLocation) : option Z :=
  Ast.id (assignment loc).

(** The body of the loop of [find_reentrancy_locations]. *)
Definition function_locations (state_vars : gmap Z pyval) (func_node : node)
    : result (list InjectionLocation) :=
  match FunctionInfo.from_ast_node func_node with
  | None => Ret []
  | Some func_info =>
      if negb (FunctionInfo.is_public_or_external func_info) then Ret []
      else if negb (FunctionInfo.is_state_modifying func_info) then Ret []
      else
        bind (find_state_variable_assignments func_node state_vars)
          (fun assignments =>
             Ret (List.map (fun a => mkLocation func_info (fst a) (snd a))
                    assignments))
  end.

(** [find_reentrancy_locations(ast)] *)
Definition find_reentrancy_locations (ast : node)
    : result (list InjectionLocation) :=
  PointLocations.collect (function_locations (find_state_variables ast))
    (AstHelpers.find_nodes_by_name ast "FunctionDefinition").

(** A declaration of the state variable [state_var] with the id that
    the value [ref_id] refers to. *)
Definition declares (decl : node) (ref_id : pyval) (state_var : pyval)
    : Prop :=
  Ast.name decl = "VariableDeclaration"
  /\ truthy (get (attributes decl) "stateVariable" VNone) = true
  /\ get (attributes decl) "name" VNone = state_var
  /\ truthy state_var = true
  /\ exists z, Ast.id decl = Some z /\ dict_key ref_id = Ret (Some z).

(** The identifier that an assignment writes to: its left side, or
    the base of an index or member access on its left side. *)
Definition written_identifier (assignment_node target : node) : Prop :=
  Ast.name target = "Identifier"
  /\ exists lhs rest, children assignment_node = lhs :: rest
       /\ (target = lhs
           \/ (in_strs (VStr (Ast.name lhs)) ["IndexAccess"; "MemberAccess"]
               = true
               /\ exists rest', children lhs = target :: rest')).

End StateAssignments.

Module ReentrancySamples.
Import Ast StateAssignments.

(** [total = 1;] inside a function body: an assignment whose left
    side refers to the declaration with id 5. *)
Definition total_assignment : node :=
  Node "Assignment" (Some 9) "60:9:0" ∅
    [Node "Identifier" (Some 7) "60:5:0"
       (Samples.attrs [("referencedDeclaration", VInt 5);
                       ("value", VStr "total")]) [];
     Node "Literal" (Some 8) "68:1:0" ∅ []].

Definition add_function : node :=
  Node "FunctionDefinition" (Some 6) "30:42:0"
    (Samples.attrs [("name", VStr "add"); ("visibility", VStr "public");
                    ("stateMutability", VStr "nonpayable");
                    ("isConstructor", VBool false)])
    [Node "ParameterList" None "" ∅ [];
     Node "ParameterList" None "" ∅ [];
     Node "Block" (Some 10) "52:20:0" ∅
       [Node "ExpressionStatement" (Some 11) "60:9:0" ∅ [total_assignment]]].

(** [contract Bank { uint total; function add() public { total = 1; } }] *)
Definition bank_ast : node :=
  Node "SourceUnit" (Some 0) "" ∅
    [Samples.contract 1 "Bank" "contract"
       [Node "VariableDeclaration" (Some 5) "16:10:0"
          (Samples.attrs [("name", VStr "total");
                          ("stateVariable", VBool true);
                          ("type", VStr "uint256")]) [];
        add_function]].

Definition add_info : FunctionInfo.t :=
  FunctionInfo.mk add_function (Some 6) (VStr "add") "30:42:0" "52:20:0"
    (VStr "public") (VStr "nonpayable") false [] false.

Definition add_location : InjectionLocation :=
  mkLocation add_info total_assignment (VStr "total").

End ReentrancySamples.

(** ** The splicing engine, as a recursion over the sorted payloads *)

Module SpliceModel.
Import Py Models Injectors.

(** One insertion, [content[:offset] + payload.content + content[offset:]]. *)
Definition insert_at (c : bytes) (p : InjectionPayload) : bytes :=
  slice_to c (offset p) ++ content p ++ slice_from c (offset p).

Definition splice_all (c : bytes) (l : list InjectionPayload) : bytes :=
  fold_left insert_at l c.

Definition total_len (l : list InjectionPayload) : Z :=
  sum_with (fun p => len (content p)) l.

(** The region recorded for the head of the payloads still to apply:
    the bytes counted are those of the payloads after it. *)
Definition region_of (p : InjectionPayload) (rest : list InjectionPayload)
    : Region :=
  mkRegion (offset p + total_len rest)
           (offset p + total_len rest + len (content p))
           (component_name p)
           ("Injected " +:+ component_name p +:+ " code").

Fixpoint regions_of (l : list InjectionPayload) : list Region :=
  match l with
  | [] => []
  | p :: rest => region_of p rest :: regions_of rest
  end.

Definition with_regions (m : InjectionMetadata) (rs : list Region)
    : InjectionMetadata :=
  {| source_contract := source_contract m;
     output_contract := output_contract m;
     vulnerability_type := vulnerability_type m;
     injection_mode := injection_mode m;
     template_name := template_name m;
     solidity_version := solidity_version m;
     injected_regions := injected_regions m ++ rs |}.

Definition add_regions (md : option InjectionMetadata) (rs : list Region)
    : option InjectionMetadata :=
  match md with Some m => Some (with_regions m rs) | None => None end.

(** What the design asks of a recorded region [r] for payload [p] in
    the output buffer [out]. *)
Definition region_matches (out : bytes) (p : InjectionPayload) (r : Region)
    : Prop :=
  0 <= start_byte r
  /\ end_byte r = start_byte r + len (content p)
  /\ end_byte r <= len out
  /\ py_slice out (start_byte r) (end_byte r) = content p
  /\ component r = component_name p.

Definition in_range (c : bytes) (p : InjectionPayload) : Prop :=
  0 <= offset p <= len c.

Definition desc_offsets : relation InjectionPayload :=
  fun p q => offset q <= offset p.
Definition strict_desc_offsets : relation InjectionPayload :=
  fun p q => offset q < offset p.


(** The two readings of "bytes that precede the fragment in the final
    buffer": the fragments inserted at strictly higher offsets, and
    those inserted at strictly lower offsets. *)
Definition bytes_at_higher_offsets (ps : list InjectionPayload)
    (p : InjectionPayload) : Z :=
  total_len (filter (fun q => offset p < offset q) ps).

Definition bytes_at_lower_offsets (ps : list InjectionPayload)
    (p : InjectionPayload) : Z :=
  total_len (filter (fun q => offset q < offset p) ps).

(** A call that refuses its payloads leaves the buffer and the
    metadata as they were. *)
Definition rejected (c : bytes) (md : option InjectionMetadata)
    (result : bytes * option InjectionMetadata) : Prop :=
  result = (c, md).

End SpliceModel.

Module SpliceProofs.
Import Py Models Injectors SpliceModel.

(** *** Slices *)

Lemma slice_index_id n k : 0 <= k <= n -> slice_index n k = k.
Proof.
  intros H. unfold slice_index.
  destruct (Z.ltb_spec k 0); lia.
Qed.

Lemma len_app {A} (l k : list A) : len (l ++ k) = len l + len k.
Proof. unfold len. rewrite length_app. lia. Qed.

Lemma len_nonneg {A} (l : list A) : 0 <= len l.
Proof. unfold len. lia. Qed.

Lemma slice_to_take {A} (l : list A) k :
  0 <= k <= len l -> slice_to l k = take (Z.to_nat k) l.
Proof. intros H. unfold slice_to. by rewrite slice_index_id. Qed.

Lemma slice_from_drop {A} (l : list A) k :
  0 <= k <= len l -> slice_from l k = drop (Z.to_nat k) l.
Proof. intros H. unfold slice_from. by rewrite slice_index_id. Qed.

Lemma len_slice_to {A} (l : list A) k :
  0 <= k <= len l -> len (slice_to l k) = k.
Proof.
  intros H. rewrite slice_to_take by done.
  unfold len in *. rewrite length_take. lia.
Qed.

Lemma py_slice_app_mid {A} (X Y W : list A) :
  py_slice (X ++ Y ++ W) (len X) (len X + len Y) = Y.
Proof.
  unfold py_slice.
  pose proof (len_nonneg X). pose proof (len_nonneg Y). pose proof (len_nonneg W).
  rewrite !slice_index_id by (rewrite !len_app; lia).
  replace (Z.to_nat (len X)) with (length X) by (unfold len; lia).
  replace (Z.to_nat (len X + len Y - len X)) with (length Y) by (unfold len; lia).
  rewrite drop_app_length. by rewrite take_app_length.
Qed.

Lemma py_slice_app_l {A} (X W : list A) a e :
  0 <= a -> a <= e -> e <= len X ->
  py_slice (X ++ W) a e = py_slice X a e.
Proof.
  intros Ha Hae He. unfold py_slice.
  pose proof (len_nonneg W).
  rewrite !slice_index_id by (rewrite ?len_app; lia).
  unfold len in *.
  rewrite drop_app_le by lia.
  rewrite take_app_le; [done|]. rewrite length_drop. lia.
Qed.

(** *** Sums *)

Lemma sum_with_acc {A} (f : A -> Z) l a :
  fold_left (fun acc p => acc + f p) l a = a + sum_with f l.
Proof.
  unfold sum_with. revert a.
  induction l as [|x l IH]; intros a; simpl; [lia|].
  rewrite IH, (IH (0 + f x)). lia.
Qed.

Lemma sum_with_cons {A} (f : A -> Z) x l :
  sum_with f (x :: l) = f x + sum_with f l.
Proof. unfold sum_with at 1. simpl. rewrite sum_with_acc. lia. Qed.

Lemma sum_with_perm {A} (f : A -> Z) l k :
  l ≡ₚ k -> sum_with f l = sum_with f k.
Proof.
  induction 1; rewrite ?sum_with_cons; try lia; congruence.
Qed.

Lemma total_len_nonneg l : 0 <= total_len l.
Proof.
  unfold total_len. induction l as [|p l IH]; [done|].
  rewrite sum_with_cons. pose proof (len_nonneg (content p)). lia.
Qed.

(** *** The sort *)

Section sorted_desc.
Context {A : Type} (key : A -> Z).

Lemma insert_desc_perm x l : insert_desc key x l ≡ₚ x :: l.
Proof.
  induction l as [|y l IH]; simpl; [done|].
  destruct (key x <? key y); [|done].
  rewrite IH. apply Permutation_swap.
Qed.

Lemma sorted_desc_perm l : sorted_desc key l ≡ₚ l.
Proof.
  induction l as [|x l IH]; simpl; [done|].
  unfold sorted_desc in *. simpl. by rewrite insert_desc_perm, IH.
Qed.

Lemma insert_desc_sorted x l :
  StronglySorted (fun a b => key b <= key a) l ->
  StronglySorted (fun a b => key b <= key a) (insert_desc key x l).
Proof.
  induction 1 as [|y l Hl IH Hy]; simpl.
  - repeat constructor.
  - destruct (Z.ltb_spec (key x) (key y)).
    + constructor; [done|].
      rewrite insert_desc_perm. constructor; [lia|done].
    + constructor; [by constructor|].
      constructor; [done|].
      eapply Forall_impl; [exact Hy|]. simpl. intros; lia.
Qed.

Lemma sorted_desc_sorted l :
  StronglySorted (fun a b => key b <= key a) (sorted_desc key l).
Proof.
  induction l as [|x l IH]; [constructor|].
  by apply insert_desc_sorted.
Qed.

Lemma sorted_nodup_strict l :
  NoDup (key <$> l) ->
  StronglySorted (fun a b => key b <= key a) l ->
  StronglySorted (fun a b => key b < key a) l.
Proof.
  induction l as [|x l IH]; intros Hnd Hs; [constructor|].
  simpl in Hnd. apply NoDup_cons in Hnd as [Hx Hnd].
  apply StronglySorted_cons in Hs as [Hall Hs].
  constructor; [by apply IH|].
  rewrite Forall_forall in Hall |- *. intros y Hy.
  specialize (Hall y Hy).
  assert (key y <> key x); [|lia].
  intros E. apply Hx. rewrite <- E. by apply list_elem_of_fmap_2.
Qed.

Lemma sorted_desc_strict l :
  NoDup (key <$> l) ->
  StronglySorted (fun a b => key b < key a) (sorted_desc key l).
Proof.
  intros Hnd. apply sorted_nodup_strict; [|apply sorted_desc_sorted].
  by rewrite sorted_desc_perm.
Qed.

(** With pairwise distinct keys the sorted list does not depend on
    the order of the input. *)
Lemma sorted_desc_perm_eq l k :
  NoDup (key <$> l) -> l ≡ₚ k -> sorted_desc key l = sorted_desc key k.
Proof.
  intros Hnd Hp.
  apply (StronglySorted_unique_strong (fun a b => key b < key a)).
  - intros; lia.
  - by apply sorted_desc_strict.
  - apply sorted_desc_strict. by rewrite <- Hp.
  - by rewrite !sorted_desc_perm.
Qed.
End sorted_desc.

(** *** The loop of [_apply_payloads] *)

Lemma add_regions_nil md : add_regions md [] = md.
Proof.
  destruct md as [[]|]; [|done]. unfold add_regions, with_regions; simpl.
  by rewrite app_nil_r.
Qed.

Lemma add_regions_step md p rest :
  add_regions
    (match md with
     | Some m =>
         Some (add_region m (offset p + total_len rest)
                 (offset p + total_len rest + len (content p))
                 (component_name p)
                 ("Injected " +:+ component_name p +:+ " code"))
     | None => None
     end) (regions_of rest)
  = add_regions md (regions_of (p :: rest)).
Proof.
  destruct md as [m|]; [|done]. simpl.
  unfold with_regions, add_region; simpl. by rewrite <- app_assoc.
Qed.

Lemma apply_loop s l i c md :
  drop i s = l ->
  fold_left (apply_step s) (enumerate_from i l) (c, md)
  = (splice_all c l, add_regions md (regions_of l)).
Proof.
  revert i c md.
  induction l as [|p l IH]; intros i c md Hd; simpl.
  - by rewrite add_regions_nil.
  - assert (drop (S i) s = l) as Hd'.
    { replace (S i) with (i + 1)%nat by lia.
      rewrite <- drop_drop, Hd. done. }
    rewrite Hd'. rewrite (IH (S i)) by done.
    fold (total_len l). fold (insert_at c p).
    by rewrite add_regions_step.
Qed.

Lemma apply_payloads_unfold c md ps :
  _apply_payloads c md ps
  = (splice_all c (sorted_desc offset ps),
     add_regions md (regions_of (sorted_desc offset ps))).
Proof. unfold _apply_payloads, enumerate. by apply apply_loop. Qed.

(** *** Splicing below a split point *)

Lemma insert_at_app A B p :
  0 <= offset p <= len A ->
  insert_at (A ++ B) p = insert_at A p ++ B.
Proof.
  intros H. unfold insert_at.
  pose proof (len_nonneg B).
  rewrite !slice_to_take, !slice_from_drop by (rewrite ?len_app; lia).
  unfold len in *.
  rewrite take_app_le, drop_app_le by lia.
  by rewrite <- !app_assoc.
Qed.

Lemma len_insert_at c p :
  in_range c p -> len (insert_at c p) = len c + len (content p).
Proof.
  unfold in_range. intros H. unfold insert_at.
  rewrite slice_to_take, slice_from_drop by done.
  rewrite <- (take_drop (Z.to_nat (offset p)) c) at 3.
  rewrite !len_app. lia.
Qed.

Lemma splice_all_app l : forall A B,
  Forall (in_range A) l ->
  splice_all (A ++ B) l = splice_all A l ++ B.
Proof.
  induction l as [|p l IH]; intros A B Hall; [done|].
  apply Forall_cons in Hall as [Hp Hl].
  unfold splice_all in *. simpl.
  rewrite insert_at_app by exact Hp.
  apply IH. eapply Forall_impl; [exact Hl|].
  intros q Hq. unfold in_range in *.
  rewrite len_insert_at by exact Hp.
  pose proof (len_nonneg (content p)). lia.
Qed.

Lemma len_splice_all l : forall c,
  Forall (in_range c) l ->
  len (splice_all c l) = len c + total_len l.
Proof.
  induction l as [|p l IH]; intros c Hall.
  - unfold total_len, sum_with. simpl. lia.
  - apply Forall_cons in Hall as [Hp Hl].
    unfold splice_all in *. simpl. rewrite IH.
    + rewrite len_insert_at by done. unfold total_len.
      rewrite sum_with_cons. lia.
    + eapply Forall_impl; [exact Hl|].
      intros q Hq. unfold in_range in *.
      rewrite len_insert_at by exact Hp.
      pose proof (len_nonneg (content p)). lia.
Qed.

(** The buffer after the head payload: everything applied later lands
    in the part before the head's offset. *)
Lemma splice_all_cons c p l :
  in_range c p ->
  Forall (fun q => 0 <= offset q <= offset p) l ->
  splice_all c (p :: l)
  = splice_all (slice_to c (offset p)) l ++ content p
      ++ slice_from c (offset p).
Proof.
  intros Hp Hl. unfold splice_all at 1. simpl. fold (splice_all (insert_at c p) l).
  unfold insert_at. apply splice_all_app.
  eapply Forall_impl; [exact Hl|].
  intros q Hq. unfold in_range in *. by rewrite len_slice_to.
Qed.

Lemma region_matches_app X W p r :
  region_matches X p r -> region_matches (X ++ W) p r.
Proof.
  intros (H0 & He & Hle & Hs & Hc).
  pose proof (len_nonneg (content p)). pose proof (len_nonneg W).
  repeat split; try done.
  - rewrite len_app. lia.
  - rewrite py_slice_app_l by lia. done.
Qed.

(** Every recorded region decodes to its payload.  Distinct offsets
    are not needed: the sort only has to be non-increasing. *)
Lemma regions_correct l : forall c,
  StronglySorted desc_offsets l ->
  Forall (in_range c) l ->
  Forall2 (region_matches (splice_all c l)) l (regions_of l).
Proof.
  induction l as [|p l IH]; intros c Hs Hr; [constructor|].
  apply StronglySorted_cons in Hs as [Hp Hs].
  apply Forall_cons in Hr as [Hrp Hrl].
  assert (Forall (fun q => 0 <= offset q <= offset p) l) as Hbelow.
  { rewrite Forall_forall in Hp, Hrl |- *. intros q Hq.
    specialize (Hp q Hq). specialize (Hrl q Hq).
    unfold desc_offsets, in_range in *. lia. }
  assert (Forall (in_range (slice_to c (offset p))) l) as Hrl'.
  { eapply Forall_impl; [exact Hbelow|].
    intros q Hq. unfold in_range in *. by rewrite len_slice_to. }
  rewrite splice_all_cons by done.
  set (X := splice_all (slice_to c (offset p)) l).
  assert (len X = offset p + total_len l) as HX.
  { unfold X. rewrite len_splice_all by done. by rewrite len_slice_to. }
  simpl. constructor.
  - unfold region_matches, region_of; simpl.
    pose proof (total_len_nonneg l). pose proof (len_nonneg (content p)).
    pose proof (len_nonneg (slice_from c (offset p))).
    unfold in_range in Hrp.
    repeat split; try lia.
    + rewrite !len_app. lia.
    + rewrite <- HX. apply py_slice_app_mid.
  - eapply Forall2_impl; [apply (IH (slice_to c (offset p))); done|].
    intros q r Hm. by apply region_matches_app.
Qed.

(** The engine on any list of in-range payloads. *)
Lemma apply_payloads_spec c md ps :
  Forall (in_range c) ps ->
  exists out regions,
    _apply_payloads c (Some md) ps = (out, Some (with_regions md regions))
    /\ len out = len c + total_len ps
    /\ sorted_desc offset ps ≡ₚ ps
    /\ Forall2 (region_matches out) (sorted_desc offset ps) regions.
Proof.
  intros Hr.
  exists (splice_all c (sorted_desc offset ps)),
         (regions_of (sorted_desc offset ps)).
  assert (Forall (in_range c) (sorted_desc offset ps)) as Hr'.
  { by rewrite sorted_desc_perm. }
  split; [by rewrite apply_payloads_unfold|].
  split.
  { rewrite len_splice_all by done. f_equal.
    apply sum_with_perm, sorted_desc_perm. }
  split; [apply sorted_desc_perm|].
  apply regions_correct; [|done].
  apply (sorted_desc_sorted offset).
Qed.

(** *** Properties of the engine *)

(** C1 (offset correctness): for payloads with pairwise distinct
    offsets inside a buffer of length L, [_apply_payloads] returns a
    buffer of length L plus the sum of the payload lengths, and
    appends to the metadata one region per payload (in the order of
    the sorted payloads, a permutation of the input) such that the
    slice [out[start_byte:end_byte]] is exactly that payload's bytes;
    the empty list is included. *)
Theorem apply_payloads_offset_correct c md ps :
  NoDup (offset <$> ps) ->
  Forall (in_range c) ps ->
  exists out regions,
    _apply_payloads c (Some md) ps = (out, Some (with_regions md regions))
    /\ len out = len c + total_len ps
    /\ sorted_desc offset ps ≡ₚ ps
    /\ Forall2 (region_matches out) (sorted_desc offset ps) regions.
Proof. intros _. apply apply_payloads_spec. Qed.

Lemma apply_payloads_offset_correct_witness :
  exists out regions,
    _apply_payloads (list_byte_of_string "0123456789")
      (Some (mkMetadata "a.sol" "b.sol" "tod" "coupled" "t" "0.4.24" []))
      [mkPayload 2 (list_byte_of_string "AAA") "state";
       mkPayload 7 (list_byte_of_string "BB") "setter"]
    = (out, Some (with_regions
                    (mkMetadata "a.sol" "b.sol" "tod" "coupled" "t" "0.4.24" [])
                    regions))
    /\ len out = len (list_byte_of_string "0123456789")
                 + total_len [mkPayload 2 (list_byte_of_string "AAA") "state";
                              mkPayload 7 (list_byte_of_string "BB") "setter"]
    /\ sorted_desc offset
         [mkPayload 2 (list_byte_of_string "AAA") "state";
          mkPayload 7 (list_byte_of_string "BB") "setter"]
       ≡ₚ [mkPayload 2 (list_byte_of_string "AAA") "state";
           mkPayload 7 (list_byte_of_string "BB") "setter"]
    /\ Forall2 (region_matches out)
         (sorted_desc offset
            [mkPayload 2 (list_byte_of_string "AAA") "state";
             mkPayload 7 (list_byte_of_string "BB") "setter"]) regions.
Proof.
  apply apply_payloads_offset_correct.
  - apply (bool_decide_unpack _). vm_compute. exact I.
  - repeat apply Forall_cons_2; [| |apply Forall_nil_2];
      unfold in_range; vm_compute; split; discriminate.
Defined.

Lemma filter_all {A} (P : A -> Prop) `{!forall x, Decision (P x)} l :
  Forall P l -> filter P l = l.
Proof.
  induction 1 as [|x l Hx _ IH]; [done|].
  by rewrite filter_cons_True, IH.
Qed.

Lemma filter_none {A} (P : A -> Prop) `{!forall x, Decision (P x)} l :
  Forall (fun x => ~ P x) l -> filter P l = [].
Proof.
  induction 1 as [|x l Hx _ IH]; [done|].
  by rewrite filter_cons_False, IH.
Qed.

(** In a strictly descending list the payloads at lower offsets than
    an element are exactly those after it. *)
Lemma lower_filter_sorted pre p rest :
  StronglySorted strict_desc_offsets (pre ++ p :: rest) ->
  filter (fun q => offset q < offset p) (pre ++ p :: rest) = rest.
Proof.
  intros Hs.
  apply StronglySorted_app in Hs as (Hpre & _ & Hs).
  apply StronglySorted_cons in Hs as [Hrest _].
  rewrite filter_app, filter_cons_False by lia.
  rewrite (filter_none _ pre).
  - simpl. apply filter_all.
    eapply Forall_impl; [exact Hrest|]. done.
  - rewrite Forall_forall. intros q Hq.
    specialize (Hpre q p Hq ltac:(left)).
    unfold strict_desc_offsets in Hpre. lia.
Qed.

Lemma regions_start_lower l : forall pre,
  StronglySorted strict_desc_offsets (pre ++ l) ->
  Forall2 (fun p r =>
             start_byte r = offset p + bytes_at_lower_offsets (pre ++ l) p)
          l (regions_of l).
Proof.
  induction l as [|p l IH]; intros pre Hs; [constructor|].
  simpl. constructor.
  - unfold bytes_at_lower_offsets. by rewrite lower_filter_sorted.
  - specialize (IH (pre ++ [p])). rewrite <- app_assoc in IH.
    by apply IH.
Qed.

Lemma bytes_at_lower_perm ps qs p :
  ps ≡ₚ qs -> bytes_at_lower_offsets ps p = bytes_at_lower_offsets qs p.
Proof.
  intros H. unfold bytes_at_lower_offsets, total_len.
  apply sum_with_perm. by rewrite H.
Qed.

(** C2, as the code has it: with pairwise distinct offsets, the start
    byte recorded for a payload is its original offset plus the total
    length of the fragments inserted at strictly LOWER offsets (they
    are the ones that precede it in the final buffer). *)
Theorem recorded_start_adds_lower_offsets c md ps :
  NoDup (offset <$> ps) ->
  exists out regions,
    _apply_payloads c (Some md) ps = (out, Some (with_regions md regions))
    /\ Forall2 (fun p r =>
                  start_byte r = offset p + bytes_at_lower_offsets ps p)
               (sorted_desc offset ps) regions.
Proof.
  intros Hnd. rewrite apply_payloads_unfold. eexists _, _.
  split; [reflexivity|].
  eapply Forall2_impl.
  - apply (regions_start_lower _ []). simpl.
    by apply (sorted_desc_strict offset).
  - simpl. intros p r ->. f_equal.
    apply bytes_at_lower_perm, sorted_desc_perm.
Qed.

Lemma recorded_start_adds_lower_offsets_witness :
  exists out regions,
    _apply_payloads (list_byte_of_string "0123456789")
      (Some (mkMetadata "a.sol" "b.sol" "tod" "coupled" "t" "0.4.24" []))
      [mkPayload 2 (list_byte_of_string "AAA") "state";
       mkPayload 7 (list_byte_of_string "BB") "setter"]
    = (out, Some (with_regions
                    (mkMetadata "a.sol" "b.sol" "tod" "coupled" "t" "0.4.24" [])
                    regions))
    /\ Forall2 (fun p r =>
                  start_byte r
                  = offset p + bytes_at_lower_offsets
                      [mkPayload 2 (list_byte_of_string "AAA") "state";
                       mkPayload 7 (list_byte_of_string "BB") "setter"] p)
         (sorted_desc offset
            [mkPayload 2 (list_byte_of_string "AAA") "state";
             mkPayload 7 (list_byte_of_string "BB") "setter"]) regions.
Proof.
  apply recorded_start_adds_lower_offsets.
  apply (bool_decide_unpack _). vm_compute. exact I.
Defined.

(** C2, as stated, fails: the payload at offset 7 of two (3 bytes at
    offset 2, 2 bytes at offset 7) is recorded at 10 = 7 + 3, the
    fragment at the lower offset counted; nothing lies at a higher
    offset, so the stated formula gives 7. *)
Lemma recorded_start_not_higher_offsets :
  _apply_payloads (list_byte_of_string "0123456789")
    (Some (mkMetadata "a.sol" "b.sol" "tod" "coupled" "t" "0.4.24" []))
    [mkPayload 2 (list_byte_of_string "AAA") "state";
     mkPayload 7 (list_byte_of_string "BB") "setter"]
  = (list_byte_of_string "01AAA23456BB789",
     Some (mkMetadata "a.sol" "b.sol" "tod" "coupled" "t" "0.4.24"
             [mkRegion 10 12 "setter" "Injected setter code";
              mkRegion 2 5 "state" "Injected state code"]))
  /\ start_byte (mkRegion 10 12 "setter" "Injected setter code")
     <> offset (mkPayload 7 (list_byte_of_string "BB") "setter")
        + bytes_at_higher_offsets
            [mkPayload 2 (list_byte_of_string "AAA") "state";
             mkPayload 7 (list_byte_of_string "BB") "setter"]
            (mkPayload 7 (list_byte_of_string "BB") "setter")
  /\ start_byte (mkRegion 2 5 "state" "Injected state code")
     <> offset (mkPayload 2 (list_byte_of_string "AAA") "state")
        + bytes_at_higher_offsets
            [mkPayload 2 (list_byte_of_string "AAA") "state";
             mkPayload 7 (list_byte_of_string "BB") "setter"]
            (mkPayload 2 (list_byte_of_string "AAA") "state").
Proof. split; [reflexivity|]. split; vm_compute; discriminate. Qed.

Lemma regions_of_length l : length (regions_of l) = length l.
Proof. induction l; simpl; congruence. Qed.

Lemma with_regions_neq md rs : rs <> [] -> with_regions md rs <> md.
Proof.
  intros Hrs E. apply (f_equal injected_regions) in E. simpl in E.
  apply (f_equal length) in E. rewrite length_app in E.
  destruct rs; [done|]. simpl in E. lia.
Qed.

(** C3, as the code has it: payloads that share an offset are not
    refused.  The call splices every payload (the output has length
    L plus the sum of the payload lengths) and appends one region per
    payload to the metadata, each of which decodes to its payload;
    the injection then writes the output file and the metadata
    sidecar and reports success. *)
Theorem shared_offsets_are_spliced c md ps output_path fs :
  ~ NoDup (offset <$> ps) ->
  Forall (in_range c) ps ->
  exists out regions,
    _apply_payloads c (Some md) ps = (out, Some (with_regions md regions))
    /\ ~ rejected c (Some md) (_apply_payloads c (Some md) ps)
    /\ len out = len c + total_len ps
    /\ length regions = length ps
    /\ Forall2 (region_matches out) (sorted_desc offset ps) regions
    /\ inject_apply_and_write c (Some md) ps output_path true fs
       = (true,
          mkFileSystem (<[output_path := out]> (contracts fs))
            (<[output_path := with_regions md regions]> (sidecars fs)),
          Some (with_regions md regions)).
Proof.
  intros Hdup Hr.
  destruct (apply_payloads_spec c md ps Hr) as (out & regions & E & Hl & Hp & Hm).
  exists out, regions.
  assert (length regions = length ps) as Hlen.
  { rewrite <- (Forall2_length _ _ _ Hm). by rewrite Hp. }
  repeat split; try done.
  - rewrite E. unfold rejected. intros [= _ E'].
    apply (with_regions_neq md regions); [|done].
    destruct regions; [|done]. destruct ps; [|done].
    exfalso. apply Hdup. constructor.
  - unfold inject_apply_and_write. by rewrite E.
Qed.

Lemma shared_offsets_are_spliced_witness :
  exists out regions,
    _apply_payloads (list_byte_of_string "ab")
      (Some (mkMetadata "a.sol" "b.sol" "tod" "coupled" "t" "0.4.24" []))
      [mkPayload 1 (list_byte_of_string "X") "setter";
       mkPayload 1 (list_byte_of_string "Y") "executor"]
    = (out, Some (with_regions
                    (mkMetadata "a.sol" "b.sol" "tod" "coupled" "t" "0.4.24" [])
                    regions))
    /\ ~ rejected (list_byte_of_string "ab")
         (Some (mkMetadata "a.sol" "b.sol" "tod" "coupled" "t" "0.4.24" []))
         (_apply_payloads (list_byte_of_string "ab")
            (Some (mkMetadata "a.sol" "b.sol" "tod" "coupled" "t" "0.4.24" []))
            [mkPayload 1 (list_byte_of_string "X") "setter";
             mkPayload 1 (list_byte_of_string "Y") "executor"])
    /\ len out = len (list_byte_of_string "ab")
                 + total_len [mkPayload 1 (list_byte_of_string "X") "setter";
                              mkPayload 1 (list_byte_of_string "Y") "executor"]
    /\ length regions
       = length [mkPayload 1 (list_byte_of_string "X") "setter";
                 mkPayload 1 (list_byte_of_string "Y") "executor"]
    /\ Forall2 (region_matches out)
         (sorted_desc offset
            [mkPayload 1 (list_byte_of_string "X") "setter";
             mkPayload 1 (list_byte_of_string "Y") "executor"]) regions
    /\ inject_apply_and_write (list_byte_of_string "ab")
         (Some (mkMetadata "a.sol" "b.sol" "tod" "coupled" "t" "0.4.24" []))
         [mkPayload 1 (list_byte_of_string "X") "setter";
          mkPayload 1 (list_byte_of_string "Y") "executor"]
         "b.sol" true (mkFileSystem ∅ ∅)
       = (true,
          mkFileSystem (<["b.sol" := out]> (contracts (mkFileSystem ∅ ∅)))
            (<["b.sol" := with_regions
                 (mkMetadata "a.sol" "b.sol" "tod" "coupled" "t" "0.4.24" [])
                 regions]> (sidecars (mkFileSystem ∅ ∅))),
          Some (with_regions
                  (mkMetadata "a.sol" "b.sol" "tod" "coupled" "t" "0.4.24" [])
                  regions)).
Proof.
  apply shared_offsets_are_spliced.
  - apply (bool_decide_unpack _). vm_compute. exact I.
  - repeat apply Forall_cons_2; [| |apply Forall_nil_2];
      unfold in_range; vm_compute; split; discriminate.
Defined.

(** C3, as stated, fails: two payloads at offset 1 of the buffer "ab"
    are both spliced, both regions are recorded, and the output file
    and the sidecar are written. *)
Lemma shared_offset_not_rejected :
  ~ NoDup (offset <$> [mkPayload 1 (list_byte_of_string "X") "setter";
                       mkPayload 1 (list_byte_of_string "Y") "executor"])
  /\ _apply_payloads (list_byte_of_string "ab")
       (Some (mkMetadata "a.sol" "b.sol" "tod" "coupled" "t" "0.4.24" []))
       [mkPayload 1 (list_byte_of_string "X") "setter";
        mkPayload 1 (list_byte_of_string "Y") "executor"]
     = (list_byte_of_string "aYXb",
        Some (mkMetadata "a.sol" "b.sol" "tod" "coupled" "t" "0.4.24"
                [mkRegion 2 3 "setter" "Injected setter code";
                 mkRegion 1 2 "executor" "Injected executor code"]))
  /\ ~ rejected (list_byte_of_string "ab")
       (Some (mkMetadata "a.sol" "b.sol" "tod" "coupled" "t" "0.4.24" []))
       (_apply_payloads (list_byte_of_string "ab")
          (Some (mkMetadata "a.sol" "b.sol" "tod" "coupled" "t" "0.4.24" []))
          [mkPayload 1 (list_byte_of_string "X") "setter";
           mkPayload 1 (list_byte_of_string "Y") "executor"])
  /\ (let '(ok, fs, _) :=
        inject_apply_and_write (list_byte_of_string "ab")
          (Some (mkMetadata "a.sol" "b.sol" "tod" "coupled" "t" "0.4.24" []))
          [mkPayload 1 (list_byte_of_string "X") "setter";
           mkPayload 1 (list_byte_of_string "Y") "executor"]
          "b.sol" true (mkFileSystem ∅ ∅) in
      ok = true
      /\ contracts fs !! "b.sol" = Some (list_byte_of_string "aYXb")
      /\ injected_regions <$> (sidecars fs !! "b.sol")
         = Some [mkRegion 2 3 "setter" "Injected setter code";
                 mkRegion 1 2 "executor" "Injected executor code"]).
Proof.
  split; [|split; [|split]].
  - apply (bool_decide_unpack _). vm_compute. exact I.
  - reflexivity.
  - unfold rejected. vm_compute. discriminate.
  - vm_compute. repeat split; reflexivity.
Qed.

(** C4, for payloads with pairwise distinct offsets: the returned
    buffer and the metadata after the call are the same for every
    ordering of the payload list. *)
Theorem apply_payloads_order_independent c md ps qs :
  NoDup (offset <$> ps) ->
  ps ≡ₚ qs ->
  _apply_payloads c md ps = _apply_payloads c md qs.
Proof.
  intros Hnd Hp. rewrite !apply_payloads_unfold.
  by rewrite (sorted_desc_perm_eq offset ps qs).
Qed.

Lemma apply_payloads_order_independent_witness :
  _apply_payloads (list_byte_of_string "0123456789")
    (Some (mkMetadata "a.sol" "b.sol" "tod" "coupled" "t" "0.4.24" []))
    [mkPayload 2 (list_byte_of_string "AAA") "state";
     mkPayload 7 (list_byte_of_string "BB") "setter"]
  = _apply_payloads (list_byte_of_string "0123456789")
      (Some (mkMetadata "a.sol" "b.sol" "tod" "coupled" "t" "0.4.24" []))
      [mkPayload 7 (list_byte_of_string "BB") "setter";
       mkPayload 2 (list_byte_of_string "AAA") "state"].
Proof.
  apply apply_payloads_order_independent.
  - apply (bool_decide_unpack _). vm_compute. exact I.
  - apply Permutation_swap.
Defined.

(** C4, as stated for every payload set, fails: two payloads at the
    same offset come out in the order the input lists them. *)
Lemma shared_offset_order_dependent :
  [mkPayload 1 (list_byte_of_string "X") "setter";
   mkPayload 1 (list_byte_of_string "Y") "executor"]
  ≡ₚ [mkPayload 1 (list_byte_of_string "Y") "executor";
      mkPayload 1 (list_byte_of_string "X") "setter"]
  /\ fst (_apply_payloads (list_byte_of_string "ab") None
            [mkPayload 1 (list_byte_of_string "X") "setter";
             mkPayload 1 (list_byte_of_string "Y") "executor"])
     = list_byte_of_string "aYXb"
  /\ fst (_apply_payloads (list_byte_of_string "ab") None
            [mkPayload 1 (list_byte_of_string "Y") "executor";
             mkPayload 1 (list_byte_of_string "X") "setter"])
     = list_byte_of_string "aXYb"
  /\ _apply_payloads (list_byte_of_string "ab") None
       [mkPayload 1 (list_byte_of_string "X") "setter";
        mkPayload 1 (list_byte_of_string "Y") "executor"]
     <> _apply_payloads (list_byte_of_string "ab") None
          [mkPayload 1 (list_byte_of_string "Y") "executor";
           mkPayload 1 (list_byte_of_string "X") "setter"].
Proof.
  split; [apply Permutation_swap|].
  split; [reflexivity|]. split; [reflexivity|].
  vm_compute. discriminate.
Qed.

Lemma regions_start_bound M l :
  Forall (fun q => offset q <= M) l ->
  Forall (fun r => start_byte r <= M + total_len l) (regions_of l).
Proof.
  induction 1 as [|q l Hq _ IH]; [constructor|].
  assert (total_len (q :: l) = len (content q) + total_len l) as E.
  { unfold total_len. by rewrite sum_with_cons. }
  pose proof (len_nonneg (content q)).
  simpl. constructor; simpl; [lia|].
  eapply Forall_impl; [exact IH|]. simpl. intros; lia.
Qed.

Lemma regions_strictly_decreasing l :
  StronglySorted strict_desc_offsets l ->
  StronglySorted (fun r1 r2 => start_byte r2 < start_byte r1) (regions_of l).
Proof.
  induction 1 as [|p l Hs IH Hp]; simpl; constructor; [done|].
  assert (Forall (fun q => offset q <= offset p - 1) l) as Hb.
  { eapply Forall_impl; [exact Hp|]. unfold strict_desc_offsets. simpl.
    intros; lia. }
  apply regions_start_bound in Hb.
  eapply Forall_impl; [exact Hb|]. simpl. intros; lia.
Qed.

(** C10: for payloads with pairwise distinct offsets, the regions the
    call appends to [injected_regions] (the whole list, when the
    metadata starts empty as [inject] creates it) come in strictly
    decreasing [start_byte] order: the order of application, the
    reverse of the document order of the insertion points. *)
Theorem recorded_regions_decreasing c md ps :
  NoDup (offset <$> ps) ->
  exists out md' regions,
    _apply_payloads c (Some md) ps = (out, Some md')
    /\ injected_regions md' = injected_regions md ++ regions
    /\ length regions = length ps
    /\ StronglySorted (fun r1 r2 => start_byte r2 < start_byte r1) regions.
Proof.
  intros Hnd. rewrite apply_payloads_unfold. eexists _, _, _.
  split; [reflexivity|]. split; [reflexivity|]. split.
  - rewrite regions_of_length. by rewrite sorted_desc_perm.
  - apply regions_strictly_decreasing. by apply (sorted_desc_strict offset).
Qed.

Lemma recorded_regions_decreasing_witness :
  exists out md' regions,
    _apply_payloads (list_byte_of_string "0123456789")
      (Some (mkMetadata "a.sol" "b.sol" "tod" "coupled" "t" "0.4.24" []))
      [mkPayload 2 (list_byte_of_string "AAA") "state";
       mkPayload 7 (list_byte_of_string "BB") "setter"]
    = (out, Some md')
    /\ injected_regions md'
       = injected_regions
           (mkMetadata "a.sol" "b.sol" "tod" "coupled" "t" "0.4.24" [])
         ++ regions
    /\ length regions
       = length [mkPayload 2 (list_byte_of_string "AAA") "state";
                 mkPayload 7 (list_byte_of_string "BB") "setter"]
    /\ StronglySorted (fun r1 r2 => start_byte r2 < start_byte r1) regions.
Proof.
  apply recorded_regions_decreasing.
  apply (bool_decide_unpack _). vm_compute. exact I.
Defined.

(** Scenario C of the design: fragments of 10 and 25 bytes at the
    offsets 100 and 40 are recorded at [125, 135) and [40, 65). *)
Example scenario_c :
  injected_regions
    <$> snd (_apply_payloads (replicate 120 x41)
               (Some (mkMetadata "a.sol" "b.sol" "tod" "coupled" "t" "0.4.24" []))
               [mkPayload 100 (replicate 10 x42) "setter";
                mkPayload 40 (replicate 25 x43) "state"])
  = Some [mkRegion 125 135 "setter" "Injected setter code";
          mkRegion 40 65 "state" "Injected state code"].
Proof. vm_compute. reflexivity. Qed.

(** The returned buffer does not depend on the metadata. *)
Lemma apply_payloads_buffer c md ps :
  fst (_apply_payloads c md ps) = fst (_apply_payloads c None ps).
Proof. by rewrite !apply_payloads_unfold. Qed.

End SpliceProofs.

(** ** Cross-function location discovery *)

Module DiscoveryProofs.
Import Ast AstHelpers CoupledInjector DiscoveryModel.

Lemma setter_candidate_iff f :
  is_setter_candidate f = true <->
  FunctionInfo.is_public_or_external f = true
  /\ FunctionInfo.is_state_modifying f = true
  /\ FunctionInfo.has_params f = true.
Proof. unfold is_setter_candidate. rewrite !andb_true_iff. tauto. Qed.

Lemma executor_candidate_iff f :
  is_executor_candidate f = true <->
  FunctionInfo.is_public_or_external f = true
  /\ FunctionInfo.is_state_modifying f = true
  /\ (FunctionInfo.is_payable f = true \/ FunctionInfo.has_params f = false).
Proof.
  unfold is_executor_candidate.
  rewrite !andb_true_iff, orb_true_iff, negb_true_iff. tauto.
Qed.

Lemma in_contract_pairs c s :
  In s (contract_pairs c) <->
  CoupledInjectionSet.contract s = c
  /\ In (CoupledInjectionSet.setter s)
        (setter_candidates (find_functions_in_contract (ContractInfo.node c)))
  /\ In (CoupledInjectionSet.executor s)
        (executor_candidates (find_functions_in_contract (ContractInfo.node c)))
  /\ FunctionInfo.id (CoupledInjectionSet.setter s)
     <> FunctionInfo.id (CoupledInjectionSet.executor s).
Proof.
  unfold contract_pairs. rewrite in_flat_map. split.
  - intros (st & Hst & Hin). rewrite in_flat_map in Hin.
    destruct Hin as (ex & Hex & Hin).
    case_bool_decide as Hid; [|destruct Hin].
    destruct Hin as [<-|[]]. simpl. done.
  - intros (<- & Hst & Hex & Hid). destruct s as [c st ex]; simpl in *.
    exists st. split; [done|]. rewrite in_flat_map.
    exists ex. split; [done|].
    rewrite bool_decide_eq_true_2 by done. by left.
Qed.

Lemma contract_pairs_length c :
  (length (contract_pairs c)
   <= length (setter_candidates
                (find_functions_in_contract (ContractInfo.node c)))
      * length (executor_candidates
                  (find_functions_in_contract (ContractInfo.node c))))%nat.
Proof.
  unfold contract_pairs.
  generalize (executor_candidates
                (find_functions_in_contract (ContractInfo.node c))) as exs.
  generalize (setter_candidates
                (find_functions_in_contract (ContractInfo.node c))) as sts.
  intros sts exs. induction sts as [|st sts IH]; simpl; [lia|].
  rewrite length_app.
  assert (forall l, length (flat_map (fun executor =>
            if bool_decide (FunctionInfo.id st <> FunctionInfo.id executor)
            then [CoupledInjectionSet.mk c st executor] else []) l)
          <= length l)%nat as Hin.
  { induction l as [|ex l IHl]; simpl; [lia|].
    rewrite length_app. case_bool_decide; simpl; lia. }
  specialize (Hin exs). lia.
Qed.

(** [is_state_modifying] also excludes the mutability "constant" of
    old compilers; on every other mutability it is the test "neither
    view nor pure" of the data model. *)
Lemma is_state_modifying_view_pure f :
  FunctionInfo.state_mutability f <> VStr "constant" ->
  FunctionInfo.is_state_modifying f
  = negb (in_strs (FunctionInfo.state_mutability f) ["view"; "pure"]).
Proof.
  intros H. unfold FunctionInfo.is_state_modifying, in_strs, is_str. simpl.
  rewrite (bool_decide_eq_false_2 _ H). by rewrite !orb_false_r.
Qed.

(** C7: cross-function discovery returns exactly the (setter,
    executor) pairs of functions of one concrete contract with
    different ids, both externally callable and state-modifying, the
    setter with at least one parameter and the executor payable or
    parameterless; and a contract with m setter candidates and n
    executor candidates contributes at most m * n pairs. *)
Theorem find_locations_exact ast :
  (forall s, In s (find_locations ast) <-> eligible_pair ast s)
  /\ (forall c,
        (length (contract_pairs c)
         <= length (setter_candidates
                      (find_functions_in_contract (ContractInfo.node c)))
            * length (executor_candidates
                        (find_functions_in_contract (ContractInfo.node c))))%nat)
  /\ find_locations ast
     = flat_map contract_pairs
         (List.filter ContractInfo.is_concrete_contract (find_contracts ast)).
Proof.
  split; [|split; [apply contract_pairs_length|]].
  - intros s. unfold find_locations, eligible_pair.
    rewrite in_flat_map. split.
    + intros (c & Hc & Hin).
      destruct (ContractInfo.is_concrete_contract c) eqn:Hk; [|destruct Hin].
      simpl in Hin. apply in_contract_pairs in Hin as (<- & Hst & Hex & Hid).
      unfold setter_candidates, executor_candidates in *.
      apply filter_In in Hst as [Hst Hsc], Hex as [Hex Hec].
      apply setter_candidate_iff in Hsc. apply executor_candidate_iff in Hec.
      tauto.
    + intros (Hc & Hk & Hst & Hex & Hid & H1 & H2 & H3 & H4 & H5 & H6).
      exists (CoupledInjectionSet.contract s). split; [done|].
      rewrite Hk. simpl. apply in_contract_pairs.
      unfold setter_candidates, executor_candidates.
      rewrite !filter_In, setter_candidate_iff, executor_candidate_iff.
      tauto.
  - unfold find_locations.
    induction (find_contracts ast) as [|c cs IH]; simpl; [done|].
    destruct (ContractInfo.is_concrete_contract c); simpl; by rewrite IH.
Qed.

(** Scenario B of the design: a setter [set(address _a)] and an
    executor [pay() payable] give exactly one set. *)
Example wallet_one_set :
  exists c s e,
    find_locations Samples.wallet_ast = [CoupledInjectionSet.mk c s e]
    /\ FunctionInfo.name s = VStr "set" /\ FunctionInfo.name e = VStr "pay".
Proof. eexists _, _, _. split; [vm_compute; reflexivity|]. split; reflexivity. Qed.

End DiscoveryProofs.

(** ** Selection of a named template *)

Module SelectionProofs.
Import Py Templates PointPayloadGenerator CoupledSelection SelectionModel.

Lemma select_one_in {A} (t : tape) pos (items : list A) randomize :
  items <> [] ->
  exists x pos', Utils.select_one t pos items randomize = (Some x, pos')
                 /\ In x items.
Proof.
  intros Hne. destruct items as [|x items]; [done|].
  unfold Utils.select_one. destruct randomize.
  - unfold choice. eexists _, _. split; [reflexivity|].
    apply nth_In. apply Nat.mod_upper_bound. simpl. lia.
  - exists x, pos. split; [done|]. by left.
Qed.

Lemma lookup_in (d : registry) k :
  In k (fst <$> d) -> exists v, lookup d k = Some v /\ In (k, v) d.
Proof.
  unfold lookup. induction d as [|[k' v'] d IH]; simpl; [done|].
  destruct (String.eqb_spec k' k) as [->|Hne].
  - intros _. exists v'. split; [done|]. by left.
  - intros [E|Hin]; [done|].
    destruct (IH Hin) as (v & Hl & Hv). exists v. split; [done|]. by right.
Qed.

Lemma lookup_none_of_has_key (d : registry) k :
  has_key d k = false -> lookup d k = None.
Proof.
  unfold has_key, lookup. induction d as [|[k' v'] d IH]; simpl; [done|].
  destruct (String.eqb k' k); simpl; [done|]. exact IH.
Qed.

Lemma has_key_false_in (d : registry) k k' v :
  has_key d k = false -> In (k', v) d -> k' <> k.
Proof.
  unfold has_key. intros H Hin ->.
  assert (existsb (fun kv => String.eqb (fst kv) k) d = true); [|congruence].
  apply existsb_exists. exists (k, v). split; [done|]. apply String.eqb_refl.
Qed.

Lemma given_nonempty name : name <> "" -> given (Some name) = Some name.
Proof.
  intros H. unfold given. by destruct (String.eqb_spec name "").
Qed.

(** C8, as the code has it.  A requested template that no valid
    combination offers is handled in three ways: in point mode, if it
    passed the version filter, [generate] raises the ValueError that
    names the template and the function (always with the words
    "state mutability"); in point mode, if it did not pass the
    version filter, one of the templates that fit is selected
    instead; in coupled mode one of the valid combinations is
    selected instead. *)
Theorem named_template_outcomes templates ver rnd loc vt
    (valid_sets : list valid_entry) name t pos :
  name <> "" ->
  filtered_of templates ver loc <> [] ->
  has_key (filtered_of templates ver loc) name = false ->
  valid_sets <> [] ->
  (forall e, In e valid_sets -> snd (fst e) <> name) ->
  (if has_key (compatible_of templates ver) name
   then generate_select templates ver rnd loc vt (Some name) t pos
        = (ValueError (incompatible_message name loc), pos)
   else exists n tpl pos',
          generate_select templates ver rnd loc vt (Some name) t pos
          = (Ok (n, tpl), pos')
          /\ In (n, tpl) (filtered_of templates ver loc) /\ n <> name)
  /\ exists e pos',
       inject_select valid_sets (Some name) rnd t pos = (Some e, pos')
       /\ In e valid_sets /\ snd (fst e) <> name.
Proof.
  intros Hname Hf Hk Hv Hnone. split.
  - unfold generate_select.
    fold (compatible_of templates ver).
    destruct (compatible_of templates ver) as [|c0 cs] eqn:Ec.
    { unfold filtered_of in Hf. rewrite Ec in Hf. done. }
    rewrite <- Ec.
    fold (filtered_of templates ver loc).
    destruct (filtered_of templates ver loc) as [|f0 fs] eqn:Ef; [done|].
    rewrite <- Ef in *. rewrite given_nonempty by done.
    rewrite (lookup_none_of_has_key _ _ Hk).
    destruct (has_key (compatible_of templates ver) name) eqn:Hc.
    { reflexivity. }
    destruct (select_one_in t pos (fst <$> filtered_of templates ver loc) rnd)
      as (k & pos' & -> & Hin).
    { rewrite Ef. done. }
    destruct (lookup_in _ _ Hin) as (v & -> & Hv').
    exists k, v, pos'. split; [done|]. split; [done|].
    apply (has_key_false_in (compatible_of templates ver) name k v Hc).
    unfold filtered_of in Hv'. apply filter_In in Hv'. tauto.
  - unfold inject_select. rewrite given_nonempty by done.
    match goal with
    | |- context [List.filter ?f valid_sets] =>
        assert (List.filter f valid_sets = []) as ->
    end.
    { clear Hv. induction valid_sets as [|e es IH]; [done|]. simpl.
      destruct (String.eqb_spec (snd (fst e)) name) as [E|_].
      - exfalso. apply (Hnone e); [by left|done].
      - apply IH. intros e1 H1. apply Hnone. by right. }
    destruct (select_one_in t pos valid_sets rnd Hv) as (e & pos' & -> & Hin).
    exists e, pos'. split; [done|]. split; [done|]. by apply Hnone.
Qed.

Lemma named_template_outcomes_witness :
  generate_select Samples.sample_registry "0.5.0" false
    Samples.no_address_location "tx_origin" (Some "demanding")
    Samples.zero_tape 0
  = (ValueError
       (incompatible_message "demanding" Samples.no_address_location), 0%nat)
  /\ exists e pos',
       inject_select
         (default [] (_filter_by_template
                        (CoupledInjector.find_locations Samples.vault_ast)
                        Samples.sample_registry))
         (Some "demanding") false Samples.zero_tape 0
       = (Some e, pos')
       /\ In e (default [] (_filter_by_template
                              (CoupledInjector.find_locations Samples.vault_ast)
                              Samples.sample_registry))
       /\ snd (fst e) <> "demanding".
Proof.
  apply (named_template_outcomes Samples.sample_registry "0.5.0" false
           Samples.no_address_location "tx_origin"
           (default [] (_filter_by_template
                          (CoupledInjector.find_locations Samples.vault_ast)
                          Samples.sample_registry))
           "demanding" Samples.zero_tape 0%nat).
  - discriminate.
  - vm_compute. discriminate.
  - vm_compute. reflexivity.
  - vm_compute. discriminate.
  - vm_compute. intros e [<-|[<-|[]]]; simpl; discriminate.
Defined.

(** C8, as stated, fails in coupled mode: the contract offers one
    (setter, executor) pair whose executor is not payable, so the
    requested template "demanding" (it requires a payable executor)
    fits no pair; the selection returns the pair with the template
    "plain" and reports nothing. *)
Lemma named_template_silently_replaced :
  List.map (fun e : valid_entry => snd (fst e))
    (default [] (_filter_by_template
                   (CoupledInjector.find_locations Samples.vault_ast)
                   [("plain", Samples.plain);
                    ("demanding", Samples.demanding)]))
  = ["plain"]
  /\ option_map (fun e : valid_entry => snd (fst e))
       (fst (inject_select
              (default [] (_filter_by_template
                             (CoupledInjector.find_locations Samples.vault_ast)
                             [("plain", Samples.plain);
                              ("demanding", Samples.demanding)]))
              (Some "demanding") false Samples.zero_tape 0))
     = Some "plain".
Proof. split; vm_compute; reflexivity. Qed.

(** In point mode a requested template that fails the version filter
    is replaced as well. *)
Example legacy_template_replaced :
  generate_select Samples.sample_registry "0.5.0" false
    Samples.no_address_location "tx_origin" (Some "legacy")
    Samples.zero_tape 0
  = (Ok ("plain", Samples.plain), 0%nat).
Proof. vm_compute. reflexivity. Qed.

End SelectionProofs.

(** ** Name generation *)

Module NameProofs.
Import Py PointInjection NameModel.

(** A name returned by one of the attempts is not an existing one. *)
Lemma attempts_fresh gen existing n t : forall pos name pos',
  attempts gen existing n t pos = (Some name, pos') -> name ∉ existing.
Proof.
  induction n as [|n IH]; intros pos name pos' H; simpl in H; [done|].
  destruct (gen t pos) as [x pos1].
  destruct (decide (x ∈ existing)); [by eapply IH|].
  by injection H as <- _.
Qed.

(** The only way to an existing name is the fallback after
    [max_attempts] failed attempts. *)
Lemma generate_unique_name_fresh_or_fallback gen existing n t pos :
  fst (generate_unique_name gen existing n t pos) ∉ existing
  \/ fst (attempts gen existing n t pos) = None.
Proof.
  unfold generate_unique_name.
  destruct (attempts gen existing n t pos) as [[name|] pos1] eqn:E.
  - left. simpl. by eapply attempts_fresh.
  - by right.
Qed.

Lemma generate_unique_name_spec gen used n t pos :
  fst (generate_unique_name gen used n t pos) ∉ used
  \/ fallback_shape (fst (generate_unique_name gen used n t pos)).
Proof.
  unfold generate_unique_name.
  destruct (attempts gen used n t pos) as [[name|] pos1] eqn:E.
  - left. simpl. by eapply attempts_fresh.
  - right. destruct (gen t pos1) as [base pos2]. simpl.
    exists base, (1 + t pos2 mod (999 - 1 + 1))%nat. split; [done|].
    pose proof (Nat.mod_upper_bound (t pos2) (999 - 1 + 1)). lia.
Qed.

Lemma add_kind_inv existing var_types kind key gen t st :
  pass_inv existing st -> pass_inv existing (add_kind var_types kind key gen t st).
Proof.
  destruct st as [[names used] pos]. intros (Hsub & Hused & Hgood).
  unfold add_kind. case_bool_decide; [|done].
  pose proof (generate_unique_name_spec gen used 50 t pos) as Hn.
  destruct (generate_unique_name gen used 50 t pos) as [name pos1].
  simpl in Hn. split.
  { intros x Hx. apply elem_of_union. left. by apply Hsub. }
  split.
  - intros n. rewrite fmap_app, elem_of_app. simpl.
    intros [Hin|Hin]; apply elem_of_union.
    + left. by apply Hused.
    + right. apply list_elem_of_singleton in Hin. by apply elem_of_singleton.
  - intros i k n Hi. unfold fresh_at.
    destruct (decide (i < length names)%nat) as [Hlt|Hge].
    + rewrite lookup_app_l in Hi by done.
      rewrite take_app_le by lia. by apply (Hgood i k n).
    + rewrite lookup_app_r in Hi by lia.
      destruct (i - length names)%nat eqn:Ei; simpl in Hi; [|done].
      injection Hi as <- <-.
      replace i with (length names) by lia. rewrite take_app_length.
      destruct Hn as [Hfresh|Hfb]; [left|by right].
      split.
      * intros Hin. apply Hfresh. by apply Hsub.
      * intros Hin. apply Hfresh. by apply Hused.
Qed.

(** X23: every name of a pass is either fresh (not an existing identifier,
    and different from the names generated before it) or a product of
    the fallback. *)
Theorem generated_names_fresh_unless_fallback var_types existing t pos :
  forall i key name,
    fst (generate_var_names var_types (Some existing) t pos) !! i
    = Some (key, name) ->
    fresh_at existing
      (fst (generate_var_names var_types (Some existing) t pos)) i name.
Proof.
  unfold generate_var_names. simpl.
  assert (pass_inv existing (([] : list (string * string)), existing, pos))
    as H0.
  { unfold pass_inv. split; [done|]. split; [|done].
    intros n Hn. simpl in Hn. by apply elem_of_nil in Hn. }
  apply (add_kind_inv _ var_types "addr" "var_addr" get_random_addr_var t) in H0.
  apply (add_kind_inv _ var_types "uint" "var_uint" get_random_uint_var t) in H0.
  apply (add_kind_inv _ var_types "mapping" "var_mapping"
           get_random_mapping_var t) in H0.
  apply (add_kind_inv _ var_types "bool" "var_bool" get_random_bool_var t) in H0.
  apply (add_kind_inv _ var_types "time" "var_time" get_random_time_var t) in H0.
  destruct (add_kind var_types "time" _ _ _ _) as [[names used] pos'].
  simpl. by destruct H0 as (_ & _ & Hgood).
Qed.

(** C6 fails on the fallback path: with [recipient] and [recipient1]
    among the existing identifiers, fifty draws of "recipient" are
    followed by the fallback "recipient" + "1", which is returned
    without a membership test. *)
Theorem fallback_name_collides :
  generate_var_names ["addr"] (Some Samples.taken_names) Samples.zero_tape 0
  = ([("var_addr", "recipient1")], 52%nat)
  /\ "recipient1" ∈ Samples.taken_names.
Proof.
  split; [vm_compute; reflexivity|].
  unfold Samples.taken_names. set_solver.
Qed.

End NameProofs.

(** ** Version compatibility *)

Module VersionProofs.
Import PyStr Utils.

(** C5 fails on the prefix [<=]: only [<] is removed, the first
    component becomes "=0", is dropped by the [isdigit] filter, and
    the last two components are compared as if they were the first
    two.  So 0.5.0 is rejected for the interval [0.4.0, 0.5.99], and
    0.0.5, which lies below the interval, is accepted. *)
Theorem less_equal_prefix_misparsed :
  parse_version "<=0.5.0" = Some [5; 0]
  /\ parse_version ">=0.5.0" = Some [0; 5; 0]
  /\ is_version_compatible "<=0.5.0" "0.4.0" "0.5.99" = false
  /\ is_version_compatible "0.5.0" "0.4.0" "0.5.99" = true
  /\ parse_version "<=0.0.5" = Some [0; 5]
  /\ is_version_compatible "<=0.0.5" "0.4.0" "0.5.99" = true
  /\ is_version_compatible "0.0.5" "0.4.0" "0.5.99" = false.
Proof. repeat split; vm_compute; reflexivity. Qed.

(** *** Three-component versions with a handled prefix *)

Import VersionModel.




Lemma forallb_str_app f s t :
  forallb_str f (s +:+ t) = forallb_str f s && forallb_str f t.
Proof.
  induction s as [|c s IH]; simpl; [done|]. by rewrite IH, andb_assoc.
Qed.

Lemma forallb_str_impl (f g : ascii -> bool) s :
  (forall c, f c = true -> g c = true) ->
  forallb_str f s = true -> forallb_str g s = true.
Proof.
  intros Hfg. induction s as [|c s IH]; simpl; [done|].
  rewrite !andb_true_iff. intros [Hc Hs]. split; [by apply Hfg|by apply IH].
Qed.

Lemma prefix_head_ne x old c r :
  x <> c -> String.prefix (String x old) (String c r) = false.
Proof. intros H. simpl. by destruct (ascii_dec x c). Qed.

Lemma replace_plain x old new s :
  plain_char x = false ->
  forallb_str plain_char s = true ->
  replace s (String x old) new = s.
Proof.
  intros Hx. unfold replace.
  induction s as [|c s IH]; [done|]. intros H.
  simpl in H. apply andb_true_iff in H as [Hc Hs].
  cbn [replace_go]. rewrite prefix_head_ne by congruence.
  by rewrite IH.
Qed.

Lemma version_text_plain a b c :
  decimal a -> decimal b -> decimal c ->
  forallb_str plain_char (version_text a b c) = true.
Proof.
  intros (_ & Ha & _) (_ & Hb & _) (_ & Hc & _). unfold version_text.
  assert (forall s, forallb_str is_decimal s = true ->
                    forallb_str plain_char s = true) as Hp.
  { intros s. apply forallb_str_impl. intros ch H. unfold plain_char.
    by rewrite H. }
  rewrite !forallb_str_app. simpl.
  by rewrite (Hp a Ha), (Hp b Hb), (Hp c Hc).
Qed.


Lemma remove_operators_plain s :
  forallb_str plain_char s = true -> remove_operators s = s.
Proof.
  intros H. unfold remove_operators.
  rewrite (replace_plain "^" "" "" s) by done.
  rewrite (replace_plain ">" "=" "" s) by done.
  rewrite (replace_plain ">" "" "" s) by done.
  by rewrite (replace_plain "<" "" "" s).
Qed.


Lemma replace_go_hit old new c r :
  String.prefix old (String c r) = true ->
  replace_go old new 0 (String c r)
  = new +:+ replace_go old new (String.length old - 1) r.
Proof. intros H. cbn [replace_go]. by rewrite H. Qed.

Lemma replace_go_miss old new c r :
  String.prefix old (String c r) = false ->
  replace_go old new 0 (String c r) = String c (replace_go old new 0 r).
Proof. intros H. cbn [replace_go]. by rewrite H. Qed.

Lemma replace_miss old new x r :
  String.prefix old (String x r) = false ->
  replace (String x r) old new = String x (replace r old new).
Proof. intros H. unfold replace. by apply replace_go_miss. Qed.

Lemma prefix_nil s : String.prefix "" s = true.
Proof. by destruct s. Qed.

Lemma append_nil s : "" +:+ s = s.
Proof. reflexivity. Qed.

Lemma append_cons x s t : String x s +:+ t = String x (s +:+ t).
Proof. reflexivity. Qed.

Lemma append_assoc s t u : (s +:+ t) +:+ u = s +:+ (t +:+ u).
Proof.
  induction s as [|c s IH]; [done|]. by rewrite !append_cons, IH.
Qed.

Lemma prefix_cons x old r :
  String.prefix (String x old) (String x r) = String.prefix old r.
Proof. simpl. by destruct (ascii_dec x x). Qed.

Lemma replace_hit_char x r :
  replace (String x r) (String x "") "" = replace r (String x "") "".
Proof.
  unfold replace. rewrite replace_go_hit; [done|].
  rewrite prefix_cons. apply prefix_nil.
Qed.

Lemma replace_hit_ge r : replace (String ">" (String "=" r)) ">=" "" = replace r ">=" "".
Proof.
  unfold replace. rewrite replace_go_hit; [done|].
  rewrite !prefix_cons. apply prefix_nil.
Qed.

Lemma remove_operators_prefix p c s :
  handled_prefix p ->
  is_decimal c = true ->
  forallb_str plain_char (String c s) = true ->
  remove_operators (p +:+ String c s) = String c s.
Proof.
  intros Hp Hc Hs.
  assert (String.prefix ">=" (String ">" (String c s)) = false) as Hge.
  { rewrite prefix_cons. apply prefix_head_ne. intros <-.
    vm_compute in Hc. discriminate. }
  pose proof (replace_plain "^" "" "" _ eq_refl Hs) as B1.
  pose proof (replace_plain ">" "=" "" _ eq_refl Hs) as B2.
  pose proof (replace_plain ">" "" "" _ eq_refl Hs) as B3.
  pose proof (replace_plain "<" "" "" _ eq_refl Hs) as B4.
  destruct Hp as [->|[->|[->|[->| ->]]]];
    unfold remove_operators; rewrite ?append_cons, append_nil.
  - by rewrite B1, B2, B3, B4.
  - by rewrite replace_hit_char, B1, B2, B3, B4.
  - rewrite !(replace_miss "^") by done. rewrite B1.
    by rewrite replace_hit_ge, B2, B3, B4.
  - rewrite (replace_miss "^") by done. rewrite B1.
    rewrite (replace_miss ">=") by exact Hge. rewrite B2.
    by rewrite replace_hit_char, B3, B4.
  - rewrite (replace_miss "^") by done. rewrite B1.
    rewrite (replace_miss ">=") by done. rewrite B2.
    rewrite (replace_miss ">") by done. rewrite B3.
    by rewrite replace_hit_char, B4.
Qed.

Lemma decimal_not_space c : is_decimal c = true -> isspace c = false.
Proof.
  destruct c as [[] [] [] [] [] [] [] []]; vm_compute; congruence.
Qed.

Lemma decimal_not_dot c : is_decimal c = true -> Ascii.eqb c "." = false.
Proof.
  destruct c as [[] [] [] [] [] [] [] []]; vm_compute; congruence.
Qed.

Lemma rstrip_decimal s :
  s <> "" -> forallb_str is_decimal s = true -> rstrip s = s.
Proof.
  induction s as [|c s IH]; [done|]. intros _ H.
  simpl in H. apply andb_true_iff in H as [Hc Hs].
  cbn [rstrip]. destruct s as [|c' s'].
  - simpl. by rewrite decimal_not_space.
  - rewrite IH by done. done.
Qed.

Lemma rstrip_app s t : t <> "" -> rstrip t = t -> rstrip (s +:+ t) = s +:+ t.
Proof.
  intros Ht Hr. induction s as [|c s IH]; [done|].
  rewrite append_cons. cbn [rstrip]. rewrite IH.
  destruct (s +:+ t) eqn:E; [|done].
  destruct s; [|done]. rewrite append_nil in E. done.
Qed.

Lemma split_no_sep sep s :
  forallb_str (fun c => negb (Ascii.eqb c sep)) s = true -> split sep s = [s].
Proof.
  induction s as [|c s IH]; [done|]. simpl.
  intros H. apply andb_true_iff in H as [Hc Hs].
  apply negb_true_iff in Hc. rewrite Hc, IH by done. done.
Qed.

Lemma split_app_sep sep s r :
  forallb_str (fun c => negb (Ascii.eqb c sep)) s = true ->
  split sep (s +:+ String sep r) = s :: split sep r.
Proof.
  induction s as [|c s IH]; intros H.
  - rewrite append_nil. simpl. by rewrite Ascii.eqb_refl.
  - simpl in H. apply andb_true_iff in H as [Hc Hs].
    apply negb_true_iff in Hc.
    rewrite append_cons. cbn [split]. rewrite Hc, IH by done. done.
Qed.

Lemma decimal_no_dot s :
  forallb_str is_decimal s = true ->
  forallb_str (fun c => negb (Ascii.eqb c ".")) s = true.
Proof.
  apply forallb_str_impl. intros c H. by rewrite decimal_not_dot.
Qed.

Lemma split_version_text a b c :
  decimal a -> decimal b -> decimal c ->
  split "." (version_text a b c) = [a; b; c].
Proof.
  intros (_ & Ha & _) (_ & Hb & _) (_ & Hc & _). unfold version_text.
  change ("." +:+ b +:+ "." +:+ c) with (String "." (b +:+ String "." c)).
  rewrite !split_app_sep by by apply decimal_no_dot.
  by rewrite split_no_sep by by apply decimal_no_dot.
Qed.

Lemma isdigit_decimal s : decimal s -> isdigit s = true.
Proof.
  intros (Hne & Hd & _). unfold isdigit.
  destruct (String.eqb_spec s ""); [done|]. simpl.
  eapply forallb_str_impl; [|exact Hd].
  intros c H. unfold isdigit_char. by rewrite H.
Qed.

Lemma int_acc_decimal s : forall acc,
  forallb_str is_decimal s = true -> exists v, int_acc acc s = Some v.
Proof.
  induction s as [|c s IH]; intros acc H; simpl; [by eexists|].
  simpl in H. apply andb_true_iff in H as [Hc Hs]. rewrite Hc.
  by apply IH.
Qed.

Lemma int_decimal s : decimal s -> int s = Some (value s).
Proof.
  intros (Hne & Hd & Hlen). unfold value.
  destruct (int s) eqn:E; [done|]. exfalso.
  unfold int in E. destruct s as [|c s]; [done|].
  destruct (Nat.ltb_spec int_max_str_digits (String.length (String c s)));
    [lia|].
  destruct (int_acc_decimal (String c s) 0 Hd) as [v Hv]. congruence.
Qed.

Lemma strip_version_text a b c :
  decimal a -> decimal b -> decimal c ->
  strip (version_text a b c) = version_text a b c.
Proof.
  intros (Ha0 & Ha & _) Hb (Hc0 & Hc & _). unfold strip.
  assert (lstrip (version_text a b c) = version_text a b c) as ->.
  { unfold version_text. destruct a as [|x a]; [done|].
    simpl in Ha. apply andb_true_iff in Ha as [Hx _].
    rewrite append_cons. cbn [lstrip]. by rewrite decimal_not_space. }
  unfold version_text.
  replace (a +:+ "." +:+ b +:+ "." +:+ c)
    with ((a +:+ "." +:+ b +:+ ".") +:+ c).
  - apply rstrip_app; [done|]. by apply rstrip_decimal.
  - by rewrite !append_assoc.
Qed.

(** [parse_version] on a three-component version with a handled
    prefix. *)
Lemma parse_version_triple p a b c :
  handled_prefix p -> decimal a -> decimal b -> decimal c ->
  parse_version (p +:+ version_text a b c) = Some [value a; value b; value c].
Proof.
  intros Hp Ha Hb Hc. unfold parse_version.
  fold (remove_operators (p +:+ version_text a b c)).
  assert (remove_operators (p +:+ version_text a b c) = version_text a b c) as ->.
  { pose proof (version_text_plain a b c Ha Hb Hc) as Hplain.
    destruct Ha as (Ha0 & Ha & _).
    unfold version_text in *. destruct a as [|x a]; [done|].
    rewrite append_cons in *. apply remove_operators_prefix; [done| |done].
    simpl in Ha. by apply andb_true_iff in Ha as [Hx _]. }
  rewrite strip_version_text, split_version_text by done.
  simpl. rewrite !isdigit_decimal by done.
  apply mapM_Some_2. repeat constructor; by apply int_decimal.
Qed.

Lemma tuple_le_triple x y z x' y' z' :
  tuple_le [x; y; z] [x'; y'; z'] = triple_le (x, y, z) (x', y', z').
Proof.
  unfold triple_le. simpl.
  destruct (Z.eqb_spec x x'), (Z.eqb_spec y y'), (Z.eqb_spec z z');
    destruct (Z.ltb_spec x x'), (Z.ltb_spec y y'), (Z.ltb_spec z z');
    destruct (Z.leb_spec z z'); simpl; try lia; done.
Qed.

(** On three-component versions, with one of the handled prefixes on
    the version at hand, [is_version_compatible] is the inclusive
    lexicographic interval test. *)
Theorem is_version_compatible_triples p a b c a1 b1 c1 a2 b2 c2 :
  handled_prefix p ->
  decimal a -> decimal b -> decimal c ->
  decimal a1 -> decimal b1 -> decimal c1 ->
  decimal a2 -> decimal b2 -> decimal c2 ->
  is_version_compatible (p +:+ version_text a b c)
    (version_text a1 b1 c1) (version_text a2 b2 c2)
  = in_interval (value a1, value b1, value c1) (value a, value b, value c)
      (value a2, value b2, value c2).
Proof.
  intros Hp Ha Hb Hc Ha1 Hb1 Hc1 Ha2 Hb2 Hc2.
  unfold is_version_compatible, in_interval.
  rewrite (parse_version_triple p a b c) by done.
  rewrite <- (append_nil (version_text a1 b1 c1)).
  rewrite (parse_version_triple "" a1 b1 c1) by (try done; by left).
  rewrite <- (append_nil (version_text a2 b2 c2)).
  rewrite (parse_version_triple "" a2 b2 c2) by (try done; by left).
  by rewrite !tuple_le_triple.
Qed.

End VersionProofs.

(** ** Indentation detection *)

Module IndentProofs.
Import Py PyBytes Utils IndentModel.
Import SpliceProofs.

(** *** The fuel of the loops is enough at every offset *)

Lemma skip_to_newline_ge content fuel : forall k,
  k <= skip_to_newline fuel content k.
Proof.
  induction fuel as [|fuel IH]; intros k; simpl; [lia|].
  destruct ((k <? len content) && not_newline_at content k); [|lia].
  specialize (IH (k + 1)). lia.
Qed.

Lemma find_line_end_ge content k : k <= find_line_end content k.
Proof. apply skip_to_newline_ge. Qed.

Lemma skip_to_newline_fuel content fuel : forall k,
  (Z.to_nat (len content - k) <= fuel)%nat ->
  skip_to_newline fuel content k = find_line_end content k.
Proof.
  unfold find_line_end.
  induction fuel as [|fuel IH]; intros k Hf.
  - by replace (Z.to_nat (len content - k)) with 0%nat by lia.
  - destruct (Z.ltb_spec k (len content)) as [Hlt|Hge].
    + replace (Z.to_nat (len content - k))
        with (S (Z.to_nat (len content - (k + 1)))) by lia.
      simpl. destruct (Z.ltb_spec k (len content)); [|lia]. simpl.
      destruct (not_newline_at content k); [|done].
      apply IH. lia.
    + replace (Z.to_nat (len content - k)) with 0%nat by lia.
      simpl. destruct (Z.ltb_spec k (len content)); [lia|]. done.
Qed.

(** [find_line_end] satisfies the equation of its [while] loop. *)
Lemma find_line_end_unfold content k :
  find_line_end content k
  = if (k <? len content) && not_newline_at content k
    then find_line_end content (k + 1) else k.
Proof.
  destruct (Z.ltb_spec k (len content)) as [Hlt|Hge].
  - unfold find_line_end at 1.
    replace (Z.to_nat (len content - k))
      with (S (Z.to_nat (len content - (k + 1)))) by lia.
    simpl. destruct (Z.ltb_spec k (len content)); [|lia]. simpl.
    destruct (not_newline_at content k); [|done].
    apply skip_to_newline_fuel. lia.
  - unfold find_line_end.
    replace (Z.to_nat (len content - k)) with 0%nat by lia. done.
Qed.

Lemma scan_lines_fuel content fuel : forall fuel' k open,
  (Z.to_nat (len content - k) <= fuel)%nat ->
  (Z.to_nat (len content - k) <= fuel')%nat ->
  scan_lines fuel content k open = scan_lines fuel' content k open.
Proof.
  induction fuel as [|fuel IH]; intros fuel' k open Hf Hf'.
  - destruct fuel' as [|fuel']; [done|]. simpl.
    destruct (Z.ltb_spec k (len content)); [lia|]. done.
  - destruct fuel' as [|fuel'].
    + simpl. destruct (Z.ltb_spec k (len content)); [lia|]. done.
    + cbn [scan_lines].
      destruct (Z.ltb_spec k (len content)); [|done]. cbn [negb].
      pose proof (find_line_end_ge content k).
      rewrite !(IH fuel' (find_line_end content k + 1)) by lia.
      done.
Qed.

(** The main loop from [next_line_start], with the fuel
    [detect_indentation] gives it, satisfies the equation of the
    [while] loop. *)
Lemma scan_lines_unfold content k open :
  scan_lines (Z.to_nat (len content - k)) content k open
  = if negb (k <? len content) then "  " else
    let line_end := find_line_end content k in
    let line := py_slice content k line_end in
    let stripped := strip line in
    let open1 := if contains [slash; star] stripped then true else open in
    let next := line_end + 1 in
    if contains [star; slash] stripped
    then scan_lines (Z.to_nat (len content - next)) content next false
    else if is_code_line stripped open1
            && negb (bool_decide (leading_indent line = []))
         then decode (leading_indent line)
         else scan_lines (Z.to_nat (len content - next)) content next open1.
Proof.
  destruct (Z.ltb_spec k (len content)) as [Hlt|Hge]; cbn [negb].
  - replace (Z.to_nat (len content - k))
      with (S (Z.to_nat (len content - (k + 1)))) by lia.
    cbn [scan_lines]. destruct (Z.ltb_spec k (len content)); [|lia].
    cbn [negb]. cbv zeta.
    pose proof (find_line_end_ge content k).
    rewrite !(scan_lines_fuel content (Z.to_nat (len content - (k + 1)))
                (Z.to_nat (len content - (find_line_end content k + 1))))
      by lia.
    done.
  - replace (Z.to_nat (len content - k)) with 0%nat by lia. done.
Qed.

(** *** The index loops against the list of bytes *)

Lemma drop_nil_len {A} (l : list A) k :
  0 <= k -> drop (Z.to_nat k) l = [] -> len l <= k.
Proof.
  intros Hk H. apply (f_equal length) in H.
  rewrite length_drop in H. simpl in H. unfold len. lia.
Qed.

Lemma drop_cons_len {A} (l : list A) k c r :
  0 <= k -> drop (Z.to_nat k) l = c :: r ->
  k < len l /\ drop (Z.to_nat (k + 1)) l = r.
Proof.
  intros Hk H. split.
  - apply (f_equal length) in H. rewrite length_drop in H. simpl in H.
    unfold len. lia.
  - replace (Z.to_nat (k + 1)) with (Z.to_nat k + 1)%nat by lia.
    by rewrite <- drop_drop, H.
Qed.

Lemma py_slice_one (content : bytes) k c r :
  0 <= k -> drop (Z.to_nat k) content = c :: r ->
  py_slice content k (k + 1) = [c].
Proof.
  intros Hk H. destruct (drop_cons_len _ _ _ _ Hk H) as [Hlt _].
  unfold py_slice. rewrite !slice_index_id by lia.
  replace (Z.to_nat (k + 1 - k)) with 1%nat by lia.
  by rewrite H.
Qed.

Lemma not_newline_at_cons (content : bytes) k c r :
  0 <= k -> drop (Z.to_nat k) content = c :: r ->
  not_newline_at content k = negb (Byte.eqb c newline).
Proof.
  intros Hk H. unfold not_newline_at. by rewrite (py_slice_one _ _ _ _ Hk H).
Qed.

Lemma skip_to_newline_spec content fuel : forall k rest,
  0 <= k -> drop (Z.to_nat k) content = rest ->
  (length rest <= fuel)%nat ->
  skip_to_newline fuel content k = k + len (first_line rest).
Proof.
  induction fuel as [|fuel IH]; intros k rest Hk Hd Hf.
  - destruct rest; [|simpl in Hf; lia]. simpl. unfold len. simpl. lia.
  - simpl. destruct rest as [|c r].
    + apply drop_nil_len in Hd; [|done].
      destruct (Z.ltb_spec k (len content)); [lia|]. simpl.
      unfold len. simpl. lia.
    + destruct (drop_cons_len _ _ _ _ Hk Hd) as [Hlt Hd'].
      destruct (Z.ltb_spec k (len content)); [|lia]. simpl.
      rewrite (not_newline_at_cons _ _ _ _ Hk Hd).
      destruct (Byte.eqb c newline); simpl.
      * unfold len. simpl. lia.
      * rewrite (IH (k + 1) r ltac:(lia) Hd' ltac:(simpl in Hf; lia)).
        unfold len. simpl. lia.
Qed.

(** [find_line_end] has the fuel it needs. *)
Lemma find_line_end_spec content k :
  0 <= k ->
  find_line_end content k
  = k + len (first_line (drop (Z.to_nat k) content)).
Proof.
  intros Hk. unfold find_line_end. apply skip_to_newline_spec; [done..|].
  rewrite length_drop. unfold len. lia.
Qed.

Lemma first_line_prefix rest :
  take (length (first_line rest)) rest = first_line rest.
Proof.
  induction rest as [|c r IH]; [done|]. simpl.
  destruct (Byte.eqb c newline); simpl; [done|]. by rewrite IH.
Qed.

Lemma first_line_length rest : (length (first_line rest) <= length rest)%nat.
Proof.
  induction rest as [|c r IH]; [done|]. simpl.
  destruct (Byte.eqb c newline); simpl; lia.
Qed.

Lemma line_slice content k :
  0 <= k ->
  py_slice content k (find_line_end content k)
  = first_line (drop (Z.to_nat k) content).
Proof.
  intros Hk. rewrite find_line_end_spec by done.
  set (rest := drop (Z.to_nat k) content).
  pose proof (first_line_length rest) as Hl.
  assert (length rest = length content - Z.to_nat k)%nat as Hr.
  { unfold rest. by rewrite length_drop. }
  destruct (Z.le_gt_cases k (len content)) as [Hin|Hout].
  - unfold py_slice. rewrite !slice_index_id by (unfold len in *; lia).
    fold rest.
    replace (Z.to_nat (k + len (first_line rest) - k))
      with (length (first_line rest)) by (unfold len; lia).
    apply first_line_prefix.
  - assert (rest = []) as ->.
    { unfold rest. apply drop_ge. unfold len in *. lia. }
    simpl. unfold py_slice, slice_index.
    destruct (Z.ltb_spec k 0); [lia|].
    destruct (Z.ltb_spec (k + len (@nil byte)) 0); [unfold len in *; simpl in *; lia|].
    rewrite !Z.min_r by (unfold len in *; simpl in *; lia).
    replace (Z.to_nat (len content - len content)) with 0%nat by lia.
    done.
Qed.

Lemma drop_after_line rest :
  drop (S (length (first_line rest))) rest = default [] (after_line rest).
Proof.
  induction rest as [|c r IH]; [done|]. simpl.
  destruct (Byte.eqb c newline); simpl; [by rewrite drop_0|]. exact IH.
Qed.

Lemma split_lines_cons rest :
  split_lines rest
  = first_line rest
    :: match after_line rest with Some r => split_lines r | None => [] end.
Proof.
  induction rest as [|c r IH]; [done|]. simpl.
  destruct (Byte.eqb c newline); [done|]. by rewrite IH.
Qed.

Lemma next_line_rest content k :
  0 <= k ->
  drop (Z.to_nat (find_line_end content k + 1)) content
  = default [] (after_line (drop (Z.to_nat k) content)).
Proof.
  intros Hk. rewrite find_line_end_spec by done.
  rewrite <- drop_after_line, drop_drop. f_equal. unfold len. lia.
Qed.

(** *** One pass of the loop against the classification of a line *)

Lemma startswith_contains sub l : startswith l sub = true -> contains sub l = true.
Proof.
  intros H. destruct l; unfold contains; fold contains; by rewrite H.
Qed.

Lemma classify_code open line :
  closes_comment line = false ->
  is_code_line (strip line)
    (if contains [slash; star] (strip line) then true else open)
  = match classify open line with Code => true | _ => false end.
Proof.
  intros Hc. unfold classify, is_code_line, opens_comment. rewrite Hc.
  destruct (bool_decide (strip line = [])); [done|]. simpl.
  destruct (contains [slash; star] (strip line)) eqn:Ho; simpl; [done|].
  destruct open; simpl; [done|].
  destruct (startswith (strip line) [slash; slash]); simpl; [done|].
  destruct (startswith (strip line) [slash; star]) eqn:Hs.
  { apply startswith_contains in Hs. congruence. }
  simpl. by destruct (startswith (strip line) [star]).
Qed.

Lemma first_indented_blank open :
  first_indented_code_line_indent [[]] open = default_indent.
Proof. reflexivity. Qed.

(** The main loop, given enough fuel, is the scan of the lines. *)
Lemma scan_lines_spec content fuel : forall k rest open,
  0 <= k -> drop (Z.to_nat k) content = rest ->
  (length rest <= fuel)%nat ->
  scan_lines fuel content k open
  = first_indented_code_line_indent (split_lines rest) open.
Proof.
  induction fuel as [|fuel IH]; intros k rest open Hk Hd Hf.
  { destruct rest; [done|]. simpl in Hf. lia. }
  destruct rest as [|c r] eqn:Er.
  { simpl. apply drop_nil_len in Hd; [|done].
    destruct (Z.ltb_spec k (len content)); [lia|]. done. }
  rewrite <- Er in *.
  destruct (drop_cons_len content k c r Hk ltac:(congruence)) as [Hlt _].
  cbn [scan_lines].
  destruct (Z.ltb_spec k (len content)); [|lia]. cbn [negb].
  rewrite line_slice by done. rewrite Hd.
  rewrite split_lines_cons. cbn [first_indented_code_line_indent].
  set (line := first_line rest).
  assert (forall open',
    scan_lines fuel content (find_line_end content k + 1) open'
    = first_indented_code_line_indent
        match after_line rest with
        | Some r0 => split_lines r0
        | None => []
        end open') as Hnext.
  { intros open'.
    pose proof (find_line_end_spec content k Hk) as He.
    pose proof (len_nonneg (first_line (drop (Z.to_nat k) content))).
    rewrite (IH (find_line_end content k + 1)
               (default [] (after_line rest)) open').
    - by destruct (after_line rest).
    - lia.
    - rewrite next_line_rest by done. by rewrite Hd.
    - rewrite <- drop_after_line, length_drop. rewrite Er in *. simpl in *. lia. }
  fold (closes_comment line).
  destruct (closes_comment line) eqn:Hc.
  { unfold classify, comment_open_after. rewrite Hc. apply Hnext. }
  rewrite classify_code by done.
  unfold comment_open_after. rewrite Hc. fold (opens_comment line).
  destruct (classify open line); simpl; try apply Hnext.
  destruct (leading_indent line) eqn:Hi; simpl; [apply Hnext|done].
Qed.

(** C9, as the code has it: for a non-negative offset,
    [detect_indentation] passes over the rest of the line that holds
    the offset, then over blank lines, single-line comments, lines of
    multi-line comments and code lines that start in the first
    column, and returns the leading spaces and tabs of the first code
    line that has some, or two spaces when there is none. *)
Theorem detect_indentation_spec content offset :
  0 <= offset ->
  detect_indentation content offset
  = first_indented_code_line_indent (lines_after content offset) false.
Proof.
  intros Ho. unfold detect_indentation, lines_after.
  pose proof (find_line_end_spec content offset Ho) as He.
  pose proof (len_nonneg (first_line (drop (Z.to_nat offset) content))).
  rewrite (scan_lines_spec content _ (find_line_end content offset + 1)
             (default [] (after_line (drop (Z.to_nat offset) content))) false).
  - by destruct (after_line (drop (Z.to_nat offset) content)).
  - lia.
  - by apply next_line_rest.
  - rewrite <- next_line_rest by done. rewrite length_drop. unfold len. lia.
Qed.

(** X24: the offset -1 that [find_brace_offset] returns for "no brace"
    behaves like the offset 0: the slice [content[-1:0]] is empty. *)
Lemma detect_indentation_minus_one content :
  detect_indentation content (-1) = detect_indentation content 0.
Proof.
  unfold detect_indentation.
  rewrite (find_line_end_unfold content (-1)).
  pose proof (len_nonneg content).
  destruct (Z.ltb_spec (-1) (len content)); [|lia].
  assert (not_newline_at content (-1) = true) as ->; [|done].
  unfold not_newline_at, py_slice, slice_index. simpl.
  replace (Z.to_nat (Z.min (-1 + 1) (len content) - Z.max (-1 + len content) 0))
    with 0%nat by lia.
  done.
Qed.

Lemma detect_indentation_spec_witness :
  detect_indentation Samples.commented_body 21
  = first_indented_code_line_indent
      (lines_after Samples.commented_body 21) false.
Proof. apply detect_indentation_spec. lia. Defined.

Example commented_body_indent :
  detect_indentation Samples.commented_body 21 = "      ".
Proof. vm_compute. reflexivity. Qed.

(** C9, as stated, fails: the first code line after the opening
    brace is "x = 1;", whose leading whitespace is empty, yet the
    four spaces of the line after it are returned. *)
Lemma unindented_code_line_skipped :
  lines_after Samples.flush_left_body 21
  = [list_byte_of_string "x = 1;"; list_byte_of_string "    y = 2;";
     list_byte_of_string "}"; []]
  /\ classify false (list_byte_of_string "x = 1;") = Code
  /\ first_code_line_indent (lines_after Samples.flush_left_body 21) false = ""
  /\ detect_indentation Samples.flush_left_body 21 = "    ".
Proof. repeat split; vm_compute; reflexivity. Qed.

End IndentProofs.

(** ** Undoing the splice *)

Module UnspliceProofs.
Import Py Models Injectors SpliceModel SpliceProofs UnspliceModel.

Lemma remove_region_mid (X Y W : bytes) r :
  start_byte r = len X -> end_byte r = len X + len Y ->
  remove_region (X ++ Y ++ W) r = X ++ W.
Proof.
  intros Hs He. unfold remove_region. rewrite Hs, He.
  pose proof (len_nonneg X). pose proof (len_nonneg Y). pose proof (len_nonneg W).
  rewrite slice_to_take, slice_from_drop by (rewrite !len_app; lia).
  replace (Z.to_nat (len X)) with (length X) by (unfold len; lia).
  replace (Z.to_nat (len X + len Y)) with (length X + length Y)%nat
    by (unfold len; lia).
  rewrite take_app_length.
  rewrite <- drop_drop, drop_app_length, drop_app_length. done.
Qed.

(** Removing the regions of a sorted list of payloads, in the order
    they were recorded, leaves what was there before the splice. *)
Lemma remove_regions_splice l : forall c W,
  StronglySorted desc_offsets l ->
  Forall (in_range c) l ->
  remove_regions (splice_all c l ++ W) (regions_of l) = c ++ W.
Proof.
  induction l as [|p l IH]; intros c W Hs Hr; [done|].
  apply StronglySorted_cons in Hs as [Hp Hs].
  apply Forall_cons in Hr as [Hrp Hrl].
  assert (Forall (fun q => 0 <= offset q <= offset p) l) as Hbelow.
  { rewrite Forall_forall in Hp, Hrl |- *. intros q Hq.
    specialize (Hp q Hq). specialize (Hrl q Hq).
    unfold desc_offsets, in_range in *. lia. }
  assert (Forall (in_range (slice_to c (offset p))) l) as Hrl'.
  { eapply Forall_impl; [exact Hbelow|].
    intros q Hq. unfold in_range in *. by rewrite len_slice_to. }
  rewrite splice_all_cons by done.
  set (X := splice_all (slice_to c (offset p)) l).
  assert (len X = offset p + total_len l) as HX.
  { unfold X. rewrite len_splice_all by done. by rewrite len_slice_to. }
  cbn [regions_of remove_regions fold_left].
  rewrite <- !app_assoc.
  rewrite (remove_region_mid X (content p)) by (simpl; lia).
  fold (remove_regions (X ++ slice_from c (offset p) ++ W) (regions_of l)).
  unfold X. rewrite IH by done.
  unfold in_range in Hrp.
  rewrite slice_to_take, slice_from_drop by done.
  by rewrite app_assoc, take_drop.
Qed.

(** X1: Round trip: for payloads at offsets inside the buffer, removing
    from the output the regions that the call appended to the
    metadata, in the order it appended them, gives back the original
    buffer. *)
Theorem unsplice_restores_source c md ps :
  Forall (in_range c) ps ->
  exists out regions,
    _apply_payloads c (Some md) ps = (out, Some (with_regions md regions))
    /\ remove_regions out regions = c.
Proof.
  intros Hr. rewrite apply_payloads_unfold. eexists _, _.
  split; [reflexivity|].
  pose proof (remove_regions_splice (sorted_desc offset ps) c []) as H.
  rewrite !app_nil_r in H. apply H.
  - apply (sorted_desc_sorted offset).
  - by rewrite sorted_desc_perm.
Qed.

Lemma unsplice_restores_source_witness :
  exists out regions,
    _apply_payloads (list_byte_of_string "0123456789")
      (Some (mkMetadata "a.sol" "b.sol" "tod" "coupled" "t" "0.4.24" []))
      [mkPayload 2 (list_byte_of_string "AAA") "state";
       mkPayload 7 (list_byte_of_string "BB") "setter";
       mkPayload 7 (list_byte_of_string "C") "executor"]
    = (out, Some (with_regions
                    (mkMetadata "a.sol" "b.sol" "tod" "coupled" "t" "0.4.24" [])
                    regions))
    /\ remove_regions out regions = list_byte_of_string "0123456789".
Proof.
  apply unsplice_restores_source.
  repeat apply Forall_cons_2; [| | |apply Forall_nil_2];
    unfold in_range; vm_compute; split; discriminate.
Defined.


(** *** What holds at any offset *)

Lemma slice_to_from {A} (l : list A) k : slice_to l k ++ slice_from l k = l.
Proof. unfold slice_to, slice_from. apply take_drop. Qed.

Lemma insert_at_any c p :
  c `sublist_of` insert_at c p
  /\ len (insert_at c p) = len c + len (content p).
Proof.
  unfold insert_at. split.
  - rewrite <- (slice_to_from c (offset p)) at 1.
    apply sublist_app; [done|]. by apply sublist_inserts_l.
  - rewrite <- (slice_to_from c (offset p)) at 3. rewrite !len_app. lia.
Qed.

Lemma splice_all_any l : forall c,
  c `sublist_of` splice_all c l
  /\ len (splice_all c l) = len c + total_len l.
Proof.
  induction l as [|p l IH]; intros c.
  - split; [done|]. unfold total_len, sum_with. simpl. lia.
  - destruct (insert_at_any c p) as [Hs Hl].
    destruct (IH (insert_at c p)) as [Hs' Hl'].
    unfold splice_all in *. simpl. split.
    + by etransitivity.
    + rewrite Hl', Hl. unfold total_len. rewrite sum_with_cons. lia.
Qed.

(** X2: Whatever the offsets (outside the buffer, negative, repeated),
    the call only adds bytes: the source is a subsequence of the
    output, the output is longer by the total length of the payloads,
    and one region is recorded for each payload. *)
Theorem apply_payloads_only_adds c md ps :
  c `sublist_of` fst (_apply_payloads c md ps)
  /\ len (fst (_apply_payloads c md ps)) = len c + total_len ps
  /\ forall m, md = Some m ->
       exists regions,
         snd (_apply_payloads c md ps) = Some (with_regions m regions)
         /\ length regions = length ps.
Proof.
  rewrite apply_payloads_unfold. simpl.
  destruct (splice_all_any (sorted_desc offset ps) c) as [Hs Hl].
  split; [done|]. split.
  - rewrite Hl. f_equal. apply sum_with_perm, sorted_desc_perm.
  - intros m ->. exists (regions_of (sorted_desc offset ps)).
    split; [done|]. rewrite regions_of_length.
    apply Permutation_length, sorted_desc_perm.
Qed.

(** At an offset past the end the payload is appended, and the region
    recorded for it lies outside the output. *)
Example offset_past_the_end :
  _apply_payloads (list_byte_of_string "0123456789")
    (Some (mkMetadata "a.sol" "b.sol" "tod" "point" "t" "0.4.24" []))
    [mkPayload 100 (list_byte_of_string "AAA") "state"]
  = (list_byte_of_string "0123456789AAA",
     Some (mkMetadata "a.sol" "b.sol" "tod" "point" "t" "0.4.24"
             [mkRegion 100 103 "state" "Injected state code"])).
Proof. vm_compute. reflexivity. Qed.

End UnspliceProofs.

(** ** Source ranges and the brace search *)

Module SrcLocationProofs.
Import Py PyStr PyExn SrcLocation SpliceProofs.

Lemma py_slice_in_range {A} (l : list A) a b :
  0 <= a -> a <= b -> b <= len l ->
  py_slice l a b = take (Z.to_nat (b - a)) (drop (Z.to_nat a) l).
Proof.
  intros Ha Hab Hb. unfold py_slice. by rewrite !slice_index_id by lia.
Qed.

Lemma startswith_one c l b :
  PyBytes.startswith (c :: l) [b] = Byte.eqb b c.
Proof. destruct l; simpl; by rewrite andb_true_r. Qed.

(** [find] of a single byte: -1 exactly when the byte is absent;
    otherwise the length of the part before its first occurrence. *)
Lemma find_from_spec b l : forall i,
  0 <= i ->
  (find_from [b] l i = -1 /\ Forall (fun c => c <> b) l)
  \/ exists pre post,
       l = pre ++ b :: post /\ Forall (fun c => c <> b) pre
       /\ find_from [b] l i = i + len pre.
Proof.
  induction l as [|c l IH]; intros i Hi.
  - left. split; [done|constructor].
  - cbn [find_from]. rewrite startswith_one.
    destruct (Byte.eqb b c) eqn:E.
    + apply Byte.byte_dec_bl in E as <-. right.
      exists [], l. split; [done|]. split; [constructor|].
      unfold len. simpl. lia.
    + apply Byte.eqb_false in E.
      destruct (IH (i + 1)) as [[Hn Hall]|(pre & post & -> & Hpre & Hf)]; [lia|..].
      * left. split; [done|]. constructor; [congruence|done].
      * right. exists (c :: pre), post. split; [done|].
        split; [constructor; [congruence|done]|].
        rewrite Hf. unfold len. simpl. lia.
Qed.

Lemma find_brace_offset_cases content start size :
  0 <= start -> 0 <= size ->
  (find_brace_offset content start size = -1
   /\ Forall (fun c => c <> open_brace)
        (py_slice content start (start + size)))
  \/ (start < find_brace_offset content start size <= start + size
      /\ find_brace_offset content start size <= len content
      /\ py_slice content (find_brace_offset content start size - 1)
           (find_brace_offset content start size) = [open_brace]
      /\ Forall (fun c => c <> open_brace)
           (py_slice content start
              (find_brace_offset content start size - 1))).
Proof.
  intros Hs Hl. unfold find_brace_offset, find.
  destruct (find_from_spec open_brace
              (py_slice content start (start + size)) 0 ltac:(lia))
    as [[Hn Hall]|(pre & post & E & Hpre & Hf)].
  - left. rewrite Hn. simpl. done.
  - right. rewrite Hf. pose proof (len_nonneg pre) as Hk.
    destruct (Z.eqb_spec (0 + len pre) (-1)) as [|_]; [lia|].
    replace (start + (0 + len pre) + 1 - 1) with (start + len pre) by lia.
    replace (start + (0 + len pre) + 1) with (start + len pre + 1) by lia.
    (* the range is not empty, so it starts inside the buffer *)
    assert (length (py_slice content start (start + size))
            = S (length pre + length post)) as Hlen.
    { rewrite E, length_app. simpl. lia. }
    unfold py_slice in E, Hlen. unfold slice_index in E, Hlen.
    destruct (Z.ltb_spec start 0); [lia|].
    destruct (Z.ltb_spec (start + size) 0); [lia|].
    rewrite length_take, length_drop in Hlen.
    assert (start < len content) as Hin by (unfold len in *; lia).
    rewrite (Z.min_l start) in E, Hlen by lia.
    assert (drop (Z.to_nat start) content
            = pre ++ open_brace :: post
                ++ drop (Z.to_nat (Z.min (start + size) (len content) - start))
                     (drop (Z.to_nat start) content)) as Hd.
    { rewrite <- (take_drop
                    (Z.to_nat (Z.min (start + size) (len content) - start))
                    (drop (Z.to_nat start) content)) at 1.
      rewrite E. by rewrite <- app_assoc. }
    assert (len pre + 1 <= Z.min (start + size) (len content) - start) as Hb.
    { unfold len in *. lia. }
    split; [lia|]. split; [lia|]. split.
    + eapply IndentProofs.py_slice_one; [lia|].
      replace (Z.to_nat (start + len pre))
        with (Z.to_nat start + length pre)%nat by (unfold len; lia).
      rewrite <- drop_drop, Hd. by rewrite drop_app_length.
    + rewrite py_slice_in_range by lia.
      replace (Z.to_nat (start + len pre - start)) with (length pre)
        by (unfold len; lia).
      rewrite Hd. by rewrite take_app_length.
Qed.

(** X3: [find_brace_offset]: -1 exactly when the range holds no opening
    brace; otherwise the offset just after the first opening brace of
    the range, inside the buffer. *)
Theorem find_brace_offset_spec content start size :
  0 <= start -> 0 <= size ->
  (find_brace_offset content start size = -1
   /\ Forall (fun c => c <> open_brace)
        (py_slice content start (start + size)))
  \/ (start < find_brace_offset content start size <= start + size
      /\ find_brace_offset content start size <= len content
      /\ py_slice content (find_brace_offset content start size - 1)
           (find_brace_offset content start size) = [open_brace]
      /\ Forall (fun c => c <> open_brace)
           (py_slice content start
              (find_brace_offset content start size - 1))).
Proof. apply find_brace_offset_cases. Qed.

Lemma find_brace_offset_spec_witness :
  (find_brace_offset (list_byte_of_string "contract C { }") 0 14 = -1
   /\ Forall (fun c => c <> open_brace)
        (py_slice (list_byte_of_string "contract C { }") 0 (0 + 14)))
  \/ (0 < find_brace_offset (list_byte_of_string "contract C { }") 0 14 <= 0 + 14
      /\ find_brace_offset (list_byte_of_string "contract C { }") 0 14
         <= len (list_byte_of_string "contract C { }")
      /\ py_slice (list_byte_of_string "contract C { }")
           (find_brace_offset (list_byte_of_string "contract C { }") 0 14 - 1)
           (find_brace_offset (list_byte_of_string "contract C { }") 0 14)
         = [open_brace]
      /\ Forall (fun c => c <> open_brace)
           (py_slice (list_byte_of_string "contract C { }") 0
              (find_brace_offset (list_byte_of_string "contract C { }") 0 14 - 1))).
Proof. apply find_brace_offset_spec; lia. Defined.

Example find_brace_offset_sample :
  find_brace_offset (list_byte_of_string "contract C { }") 0 14 = 12
  /\ find_brace_offset (list_byte_of_string "contract C { }") 0 10 = -1.
Proof. split; reflexivity. Qed.


(** *** Integer literals and source ranges *)

Import VersionModel VersionProofs.

Lemma digits_go_decimal s : forall acc count after,
  forallb_str is_decimal s = true ->
  (s <> "" \/ after = true) ->
  exists v, int_acc acc s = Some v
            /\ digits_go acc count after s = Some (v, (count + String.length s)%nat).
Proof.
  induction s as [|c s IH]; intros acc count after Hd Hne.
  - destruct Hne as [ | -> ]; [done|]. exists acc. simpl.
    split; [done|]. do 2 f_equal. lia.
  - simpl in Hd. apply andb_true_iff in Hd as [Hc Hs].
    simpl. rewrite Hc.
    destruct (IH (10 * acc + Z.of_N (code c - 48)) (S count) true Hs
                ltac:(by right)) as (v & Hv & Hg).
    exists v. split; [done|]. rewrite Hg. do 2 f_equal. lia.
Qed.

Lemma strip_decimal s : decimal s -> strip s = s.
Proof.
  intros (Hne & Hd & _). unfold strip.
  destruct s as [|c s]; [done|].
  pose proof Hd as Hd'. simpl in Hd'. apply andb_true_iff in Hd' as [Hc _].
  cbn [lstrip]. rewrite decimal_not_space by done.
  by apply rstrip_decimal.
Qed.

(** [int] of a string of decimal digits, without and with a sign. *)
Lemma int_literal_decimal s : decimal s -> int_literal s = Some (value s).
Proof.
  intros Hdec. pose proof Hdec as (Hne & Hd & Hlen).
  unfold int_literal. rewrite strip_decimal by done.
  destruct (digits_go_decimal s 0 0%nat false Hd ltac:(by left))
    as (v & Hv & Hg).
  assert (value s = v) as ->.
  { unfold value. rewrite (int_decimal s Hdec) in *. simpl.
    pose proof (int_decimal s Hdec) as Hi. unfold int in Hi.
    destruct s as [|c s]; [done|].
    destruct (Nat.ltb_spec int_max_str_digits (String.length (String c s)));
      [lia|]. congruence. }
  destruct s as [|c s]; [done|].
  pose proof Hd as Hd'. simpl in Hd'. apply andb_true_iff in Hd' as [Hc _].
  assert (match String c s with
          | String "-" r => (true, r)
          | String "+" r => (false, r)
          | _ => (false, String c s)
          end = (false, String c s)) as ->.
  { destruct c as [[] [] [] [] [] [] [] []]; try reflexivity;
      vm_compute in Hc; discriminate. }
  rewrite Hg.
  destruct (Nat.ltb_spec int_max_str_digits (0 + String.length (String c s)));
    [lia|done].
Qed.

Lemma int_literal_negative s :
  decimal s -> int_literal ("-" +:+ s) = Some (- value s).
Proof.
  intros Hdec. pose proof Hdec as (Hne & Hd & Hlen).
  pose proof (int_literal_decimal s Hdec) as Hpos.
  unfold int_literal in *. rewrite strip_decimal in Hpos by done.
  assert (strip ("-" +:+ s) = String "-" s) as ->.
  { unfold strip. rewrite append_cons, append_nil. cbn [lstrip].
    change (isspace "-") with false. cbn iota.
    change (String "-" s) with ("-" +:+ s).
    apply rstrip_app; [done|]. by apply rstrip_decimal. }
  destruct (digits_go_decimal s 0 0%nat false Hd ltac:(by left))
    as (v & Hv & Hg).
  destruct s as [|c s]; [done|].
  pose proof Hd as Hd'. simpl in Hd'. apply andb_true_iff in Hd' as [Hc _].
  assert (match String c s with
          | String "-" r => (true, r)
          | String "+" r => (false, r)
          | _ => (false, String c s)
          end = (false, String c s)) as E.
  { destruct c as [[] [] [] [] [] [] [] []]; try reflexivity;
      vm_compute in Hc; discriminate. }
  rewrite E in Hpos. rewrite Hg in *.
  destruct (Nat.ltb_spec int_max_str_digits (0 + String.length (String c s)));
    [lia|]. by injection Hpos as ->.
Qed.

Lemma decimal_no_colon s :
  forallb_str is_decimal s = true ->
  forallb_str (fun c => negb (Ascii.eqb c ":")) s = true.
Proof.
  apply forallb_str_impl. intros c H.
  destruct c as [[] [] [] [] [] [] [] []]; try reflexivity;
    vm_compute in H; discriminate.
Qed.

Lemma parse_src_location_fields a b c rest :
  decimal a -> decimal b -> decimal c ->
  parse_src_location (a +:+ ":" +:+ b +:+ ":" +:+ c)
  = Ret (value a, value b, value c)
  /\ parse_src_location (a +:+ ":" +:+ b +:+ ":" +:+ c +:+ ":" +:+ rest)
     = Ret (value a, value b, value c).
Proof.
  intros Ha Hb Hc.
  pose proof Ha as (_ & Hda & _). pose proof Hb as (_ & Hdb & _).
  pose proof Hc as (_ & Hdc & _).
  unfold parse_src_location, int_of, item.
  change (":" +:+ b +:+ ":" +:+ c) with (String ":" (b +:+ String ":" c)).
  change (":" +:+ b +:+ ":" +:+ c +:+ ":" +:+ rest)
    with (String ":" (b +:+ String ":" (c +:+ String ":" rest))).
  rewrite !split_app_sep by by apply decimal_no_colon.
  rewrite split_no_sep by by apply decimal_no_colon.
  simpl. rewrite !int_literal_decimal by done. done.
Qed.

(** X4: Round trip: the text [start:length:file] of three decimal numbers
    parses to the three numbers, and further fields are ignored. *)
Theorem parse_src_location_decimal a b c rest :
  decimal a -> decimal b -> decimal c ->
  parse_src_location (a +:+ ":" +:+ b +:+ ":" +:+ c)
  = Ret (value a, value b, value c)
  /\ parse_src_location (a +:+ ":" +:+ b +:+ ":" +:+ c +:+ ":" +:+ rest)
     = Ret (value a, value b, value c).
Proof. apply parse_src_location_fields. Qed.

Lemma parse_src_location_decimal_witness :
  parse_src_location ("120" +:+ ":" +:+ "45" +:+ ":" +:+ "0")
  = Ret (value "120", value "45", value "0")
  /\ parse_src_location
       ("120" +:+ ":" +:+ "45" +:+ ":" +:+ "0" +:+ ":" +:+ "x")
     = Ret (value "120", value "45", value "0").
Proof.
  apply parse_src_location_decimal;
    (split; [discriminate|split; [reflexivity|vm_compute; lia]]).
Defined.

(** X5: A text with fewer than three fields never parses: the call raises
    (ValueError for a field that is no integer, IndexError for the
    missing one). *)
Theorem parse_src_location_short src :
  (length (split ":" src) < 3)%nat ->
  exists e, parse_src_location src = Raise e.
Proof.
  intros Hlen. unfold parse_src_location, item, int_of.
  destruct (split ":" src) as [|p0 [|p1 [|p2 ps]]]; simpl in *; try lia.
  - by eexists.
  - destruct (int_literal p0); simpl; by eexists.
  - destruct (int_literal p0); simpl; [|by eexists].
    destruct (int_literal p1); simpl; by eexists.
Qed.

Lemma parse_src_location_short_witness :
  exists e, parse_src_location "12:7" = Raise e.
Proof. apply parse_src_location_short. vm_compute. lia. Defined.

Lemma int_acc_nonneg s : forall acc v,
  0 <= acc -> int_acc acc s = Some v -> 0 <= v.
Proof.
  induction s as [|c s IH]; intros acc v Ha H; simpl in H.
  - by injection H as <-.
  - destruct (is_decimal c); [|done]. eapply IH; [|exact H]. lia.
Qed.

Lemma value_nonneg s : 0 <= value s.
Proof.
  unfold value, int. destruct s as [|c s]; [done|].
  destruct (int_max_str_digits <? String.length (String c s))%nat; [done|].
  destruct (int_acc 0 (String c s)) as [v|] eqn:E; [|done].
  simpl. by eapply int_acc_nonneg; [|exact E].
Qed.

(** X6: The offsets that [inject] computes from a source range
    [start:length:file] of decimal numbers.  The function body offset
    is [start + 1], so it is never the -1 that [inject] tests it
    against.  The contract body offset is -1 when the range holds no
    opening brace, and otherwise lies inside the buffer, just after
    the first opening brace of the range. *)
Theorem body_offsets content a b c :
  decimal a -> decimal b -> decimal c ->
  _get_function_body_offset (a +:+ ":" +:+ b +:+ ":" +:+ c)
  = Ret (value a + 1)
  /\ value a + 1 <> -1
  /\ exists contract_offset,
       _get_contract_body_offset content (a +:+ ":" +:+ b +:+ ":" +:+ c)
       = Ret contract_offset
       /\ (contract_offset = -1
           \/ (value a < contract_offset <= value a + value b
               /\ contract_offset <= len content
               /\ py_slice content (contract_offset - 1) contract_offset
                  = [open_brace])).
Proof.
  intros Ha Hb Hc.
  unfold _get_function_body_offset, _get_contract_body_offset.
  destruct (parse_src_location_fields a b c "" Ha Hb Hc) as [-> _]. simpl.
  pose proof (value_nonneg a). pose proof (value_nonneg b).
  split; [done|]. split; [lia|].
  eexists. split; [reflexivity|].
  destruct (find_brace_offset_cases content (value a) (value b))
    as [[-> _]|(H1 & H2 & H3 & _)]; [lia|lia|by left|by right].
Qed.

Lemma body_offsets_witness :
  _get_function_body_offset ("9" +:+ ":" +:+ "5" +:+ ":" +:+ "0")
  = Ret (value "9" + 1)
  /\ value "9" + 1 <> -1
  /\ exists contract_offset,
       _get_contract_body_offset (list_byte_of_string "contract C { }")
         ("9" +:+ ":" +:+ "5" +:+ ":" +:+ "0")
       = Ret contract_offset
       /\ (contract_offset = -1
           \/ (value "9" < contract_offset <= value "9" + value "5"
               /\ contract_offset <= len (list_byte_of_string "contract C { }")
               /\ py_slice (list_byte_of_string "contract C { }")
                    (contract_offset - 1) contract_offset
                  = [open_brace])).
Proof.
  apply body_offsets;
    (split; [discriminate|split; [reflexivity|vm_compute; lia]]).
Defined.

(** X25: [get_start_offset] reads the first field only: when it is a
    decimal number the call returns its value, whatever follows the
    first colon, and also when no colon follows. *)
Theorem get_start_offset_first_field a rest :
  decimal a ->
  get_start_offset (a +:+ ":" +:+ rest) = Ret (value a)
  /\ get_start_offset a = Ret (value a).
Proof.
  intros Ha. pose proof Ha as (_ & Hd & _).
  unfold get_start_offset, item, int_of.
  change (":" +:+ rest) with (String ":" rest).
  rewrite split_app_sep by by apply decimal_no_colon.
  rewrite (split_no_sep ":" a) by by apply decimal_no_colon.
  simpl. by rewrite !int_literal_decimal.
Qed.

Lemma get_start_offset_first_field_witness :
  get_start_offset ("60" +:+ ":" +:+ "9:0:extra") = Ret (value "60")
  /\ get_start_offset "60" = Ret (value "60").
Proof.
  apply get_start_offset_first_field.
  split; [discriminate|split; [reflexivity|vm_compute; lia]].
Defined.

Example generated_range_offsets :
  parse_src_location "-1:-1:-1" = Ret (-1, -1, -1)
  /\ _get_function_body_offset "-1:-1:-1" = Ret 0
  /\ parse_src_location " 1_000 :+2:3" = Ret (1000, 2, 3).
Proof. repeat split; vm_compute; reflexivity. Qed.

End SrcLocationProofs.
(** * The detected indentation is blank *)

Module IndentResultProofs.
Import Py PyStr Utils CoupledIndent.

Lemma leading_indent_blank line : blank (leading_indent line).
Proof.
  induction line as [|c line IH]; simpl; [constructor|].
  destruct (Byte.eqb c PyBytes.space) eqn:E1; simpl.
  - constructor; [|done]. left. by apply Byte.byte_dec_bl.
  - destruct (Byte.eqb c PyBytes.tab) eqn:E2; [|constructor].
    constructor; [|done]. right. by apply Byte.byte_dec_bl.
Qed.

Lemma scan_lines_blank fuel : forall content k b,
  exists l, l <> [] /\ blank l /\ scan_lines fuel content k b = PyBytes.decode l.
Proof.
  assert (exists l, l <> [] /\ blank l /\ "  " = PyBytes.decode l) as Hdef.
  { exists [PyBytes.space; PyBytes.space]. split; [done|].
    split; [|done]. repeat constructor. }
  induction fuel as [|fuel IH]; intros content k b; simpl; [done|].
  destruct (negb (k <? len content)); [done|].
  destruct (PyBytes.contains [PyBytes.star; PyBytes.slash] _); [apply IH|].
  match goal with |- context [if ?c then _ else _] => destruct c eqn:E end;
    [|apply IH].
  apply andb_true_iff in E as [_ E]. apply negb_true_iff in E.
  apply bool_decide_eq_false in E.
  eexists. split; [exact E|]. split; [apply leading_indent_blank|done].
Qed.

Lemma strip_blank l : blank l -> strip (PyBytes.decode l) = "".
Proof.
  unfold strip. induction 1 as [|c l Hc Hl IH]; [done|].
  destruct Hc as [-> | ->]; exact IH.
Qed.

(** X7: Whatever the content and the offset, [detect_indentation] returns
    a non-empty run of spaces and tabs; stripping it leaves nothing, so
    the replacement by the eight-space default never takes place. *)
Theorem detect_indentation_blank content offset :
  exists l, l <> [] /\ blank l
            /\ detect_indentation content offset = PyBytes.decode l
            /\ strip (detect_indentation content offset) = ""
            /\ body_indent content offset = detect_indentation content offset.
Proof.
  unfold body_indent, detect_indentation.
  destruct (scan_lines_blank
              (Z.to_nat (len content - (find_line_end content offset + 1)))
              content (find_line_end content offset + 1) false)
    as (l & Hne & Hb & ->).
  exists l. rewrite (strip_blank l Hb). done.
Qed.

End IndentResultProofs.

(** * Tree traversal *)

Module TraversalProofs.
Import Py Ast PyExn AstHelpers AstTraversal.

(** Induction on a tree, with the property assumed of the children. *)
Lemma node_children_ind (P : node -> Prop) :
  (forall nm i s a cs, Forall P cs -> P (Node nm i s a cs)) ->
  forall n, P n.
Proof.
  intros H. fix IH 1. intros [nm i s a cs]. apply H.
  induction cs as [|c cs IHcs]; constructor; [apply IH|exact IHcs].
Qed.

Lemma bind_assoc {A B C} (r : result A) (f : A -> result B)
    (g : B -> result C) :
  bind (bind r f) g = bind r (fun a => bind (f a) g).
Proof. by destruct r. Qed.

Lemma visit_all_app {S} (v : node -> S -> result S) l1 l2 s :
  visit_all v (l1 ++ l2) s = bind (visit_all v l1 s) (visit_all v l2).
Proof.
  revert s. induction l1 as [|n l1 IH]; intros s; simpl; [done|].
  destruct (v n s) as [s'|e]; simpl; [apply IH|done].
Qed.

(** The trace of the recording visitor, started from any list. *)
Lemma traverse_record n :
  exists l, l <> [] /\ forall seen,
    traverse_ast record_visit n seen = Ret (seen ++ l).
Proof.
  induction n as [nm i s a cs IH] using node_children_ind.
  assert (exists l, forall seen,
    (fix traverse_children (l : list node) (s : list node)
       : result (list node) :=
       match l with
       | [] => Ret s
       | child :: l' =>
           bind (traverse_ast record_visit child s) (traverse_children l')
       end) cs seen = Ret (seen ++ l)) as (l & Hl).
  { induction IH as [|c cs (lc & _ & Hc) _ (lr & Hr)].
    - exists []. intros seen. by rewrite app_nil_r.
    - exists (lc ++ lr). intros seen. rewrite Hc. simpl. rewrite Hr.
      by rewrite app_assoc. }
  exists (Node nm i s a cs :: l). split; [done|]. intros seen.
  simpl. rewrite Hl. by rewrite <- app_assoc.
Qed.

Lemma visit_order_node nm i s a cs :
  visit_order (Node nm i s a cs)
  = Node nm i s a cs :: flat_map visit_order cs.
Proof.
  unfold visit_order at 1. simpl.
  assert (forall seen,
    (fix traverse_children (l : list node) (s : list node)
       : result (list node) :=
       match l with
       | [] => Ret s
       | child :: l' =>
           bind (traverse_ast record_visit child s) (traverse_children l')
       end) cs seen = Ret (seen ++ flat_map visit_order cs)) as ->; [|done].
  induction cs as [|c cs IH]; intros seen; simpl.
  - by rewrite app_nil_r.
  - destruct (traverse_record c) as (lc & _ & Hc).
    assert (visit_order c = lc) as ->.
    { unfold visit_order. by rewrite Hc. }
    rewrite Hc. simpl. rewrite IH. by rewrite app_assoc.
Qed.

(** [traverse_ast] calls the visitor on the nodes of the tree in
    depth-first pre-order, and stops at the first exception. *)
Lemma traverse_ast_visit_all {S} (v : node -> S -> result S) n : forall s,
  traverse_ast v n s = visit_all v (visit_order n) s.
Proof.
  induction n as [nm i sr a cs IH] using node_children_ind. intros s.
  rewrite visit_order_node. simpl.
  destruct (v (Node nm i sr a cs) s) as [s'|e]; simpl; [|done].
  revert s'. induction IH as [|c cs Hc _ IHcs]; intros s'; simpl; [done|].
  rewrite visit_all_app, Hc.
  destruct (visit_all v (visit_order c) s') as [s''|e]; simpl; [|done].
  apply IHcs.
Qed.

Lemma filter_flat_map {A B} (p : B -> bool) (f : A -> list B) l :
  List.filter p (flat_map f l) = flat_map (fun x => List.filter p (f x)) l.
Proof.
  induction l as [|x l IH]; simpl; [done|].
  by rewrite List.filter_app, IH.
Qed.

Lemma find_nodes_by_name_filter ast node_name :
  find_nodes_by_name ast node_name
  = List.filter (fun n => String.eqb (name n) node_name) (visit_order ast).
Proof.
  induction ast as [nm i s a cs IH] using node_children_ind.
  rewrite visit_order_node. simpl.
  assert ((fix search_children (l : list node) : list node :=
             match l with
             | [] => []
             | child :: l' =>
                 find_nodes_by_name child node_name ++ search_children l'
             end) cs
          = List.filter (fun n => String.eqb (name n) node_name)
              (flat_map visit_order cs)) as ->.
  { induction IH as [|c cs Hc _ IHcs]; simpl; [done|].
    by rewrite List.filter_app, Hc, IHcs. }
  by destruct (String.eqb nm node_name).
Qed.

(** X9: [find_nodes_by_name] yields the nodes of the wanted kind in the
    order [traverse_ast] visits them. *)
Theorem find_nodes_by_name_visit_order ast node_name :
  find_nodes_by_name ast node_name
  = List.filter (fun n => String.eqb (name n) node_name) (visit_order ast).
Proof. apply find_nodes_by_name_filter. Qed.

Lemma find_app {A} (p : A -> bool) l1 l2 :
  List.find p (l1 ++ l2)
  = match List.find p l1 with Some x => Some x | None => List.find p l2 end.
Proof.
  induction l1 as [|x l1 IH]; simpl; [done|]. by destruct (p x).
Qed.

Lemma find_node_by_id_find ast target_id :
  find_node_by_id ast target_id
  = List.find (fun n => bool_decide (id n = Some target_id)) (visit_order ast).
Proof.
  induction ast as [nm i s a cs IH] using node_children_ind.
  rewrite visit_order_node. simpl.
  destruct (bool_decide (i = Some target_id)); [done|].
  induction IH as [|c cs Hc _ IHcs]; simpl; [done|].
  rewrite find_app, Hc.
  by destruct (List.find _ (visit_order c)).
Qed.

(** X10: [find_node_by_id] returns the first node, in the order of
    [traverse_ast], whose id is the wanted one; so a node it returns
    belongs to the tree and carries the id, and it returns [None]
    exactly when no node of the tree has the id. *)
Theorem find_node_by_id_first ast target_id :
  find_node_by_id ast target_id
  = List.find (fun n => bool_decide (id n = Some target_id)) (visit_order ast)
  /\ (forall n, find_node_by_id ast target_id = Some n ->
        In n (visit_order ast) /\ id n = Some target_id)
  /\ (find_node_by_id ast target_id = None <->
      forall n, In n (visit_order ast) -> id n <> Some target_id).
Proof.
  rewrite find_node_by_id_find. split; [done|]. split.
  - intros n H. apply find_some in H as [Hin Hid].
    split; [done|]. by apply bool_decide_eq_true in Hid.
  - split.
    + intros H n Hin. apply (find_none _ _ H) in Hin.
      by apply bool_decide_eq_false in Hin.
    + intros H. destruct (List.find _ _) as [n|] eqn:E; [|done].
      apply find_some in E as [Hin Hid].
      apply bool_decide_eq_true in Hid. by destruct (H n Hin).
Qed.

(** X11: In a tree whose ids are pairwise distinct, looking up the id of a
    node gives back that node. *)
Theorem find_node_by_id_round_trip ast n i :
  In n (visit_order ast) -> id n = Some i ->
  NoDup (omap id (visit_order ast)) ->
  find_node_by_id ast i = Some n.
Proof.
  rewrite find_node_by_id_find.
  induction (visit_order ast) as [|x l IH]; simpl; [done|].
  intros [->|Hin] Hid Hnd.
  - by rewrite bool_decide_eq_true_2.
  - case_bool_decide as Hx.
    + rewrite Hx in Hnd. simpl in Hnd. apply NoDup_cons in Hnd as [Hni _].
      exfalso. apply Hni. apply list_elem_of_omap. exists n.
      split; [by apply list_elem_of_In|done].
    + apply IH; [done|done|].
      destruct (id x); simpl in Hnd; [by apply NoDup_cons in Hnd as [_ ?]|done].
Qed.

Lemma find_node_by_id_round_trip_witness :
  find_node_by_id Samples.wallet_ast 3
  = Some (Samples.func 3 "pay" "payable" []).
Proof.
  apply find_node_by_id_round_trip.
  - vm_compute. do 7 right. by left.
  - reflexivity.
  - apply (bool_decide_unpack _). vm_compute. exact I.
Defined.


(** *** The identifiers of a tree *)

Lemma identifier_not_declaration nm :
  nm ∈ declaration_kinds -> String.eqb nm "Identifier" = false.
Proof.
  intros Hin. destruct (String.eqb_spec nm "Identifier") as [->|]; [|done].
  assert (bool_decide ("Identifier" ∈ declaration_kinds) = true) as H
    by by apply bool_decide_eq_true_2.
  vm_compute in H. done.
Qed.

Lemma collect_name_spec n acc :
  collect_name n acc
  = if names_identifier n && truthy (get (attributes n) "name" VNone)
    then set_add (get (attributes n) "name" VNone) acc else Ret acc.
Proof.
  unfold collect_name, names_identifier.
  case_bool_decide as Hk; simpl.
  - rewrite (identifier_not_declaration _ Hk). simpl.
    destruct (truthy _); [|done]. by destruct (set_add _ _).
  - done.
Qed.

Lemma elem_of_strings_of ids s : s ∈ strings_of ids <-> VStr s ∈ ids.
Proof.
  unfold strings_of. rewrite elem_of_list_to_set, list_elem_of_omap. split.
  - intros (v & Hv & E). destruct v; try done. by injection E as ->.
  - intros H. by exists (VStr s).
Qed.

Lemma visit_all_collect l : forall acc ids,
  visit_all collect_name l acc = Ret ids ->
  forall s, s ∈ strings_of ids <->
    s ∈ strings_of acc
    \/ (s <> "" /\ exists n, In n l /\ names_identifier n = true
                            /\ get (attributes n) "name" VNone = VStr s).
Proof.
  induction l as [|n l IH]; intros acc ids H s; simpl in H.
  - injection H as <-. split; [by left|]. intros [?|(_ & ? & [] & _)]. done.
  - rewrite collect_name_spec in H.
    destruct (names_identifier n && truthy (get (attributes n) "name" VNone))
      eqn:E; simpl in H.
    + apply andb_true_iff in E as [Hk Ht].
      destruct (get (attributes n) "name" VNone) as [|b|z|x|o] eqn:Hn;
        simpl in H; try done;
        rewrite (IH _ _ H s), !elem_of_strings_of, elem_of_app,
          list_elem_of_singleton.
      * split.
        -- intros [[?|?]|(? & m & ? & ? & ?)]; [by left|done|].
           right. split; [done|]. exists m. split; [by right|done].
        -- intros [?|(? & m & [<-|?] & ? & Hm)]; [by left; left|congruence|].
           right. split; [done|]. by exists m.
      * split.
        -- intros [[?|?]|(? & m & ? & ? & ?)]; [by left|done|].
           right. split; [done|]. exists m. split; [by right|done].
        -- intros [?|(? & m & [<-|?] & ? & Hm)]; [by left; left|congruence|].
           right. split; [done|]. by exists m.
      * split.
        -- intros [[?|Hx]|(? & m & ? & ? & ?)]; [by left| |].
           ++ injection Hx as ->. right. split.
              ** simpl in Ht. intros ->. done.
              ** exists n. split; [by left|done].
           ++ right. split; [done|]. exists m. split; [by right|done].
        -- intros [?|(? & m & [<-|?] & ? & Hm)]; [by left; left| |].
           ++ left. right. congruence.
           ++ right. split; [done|]. by exists m.
    + rewrite (IH _ _ H s). split.
      * intros [?|(? & m & ? & ? & ?)]; [by left|].
        right. split; [done|]. exists m. split; [by right|done].
      * intros [?|(Hs & m & [<-|?] & Hk & Hm)]; [by left| |].
        -- exfalso. rewrite Hk, Hm in E. simpl in E.
           apply negb_false_iff in E. apply String.eqb_eq in E. done.
        -- right. split; [done|]. by exists m.
Qed.

Lemma extract_strings ast ids :
  extract_all_identifiers ast = Ret ids ->
  forall s, s ∈ strings_of ids <->
    s <> "" /\ exists n, In n (visit_order ast) /\ names_identifier n = true
                       /\ get (attributes n) "name" VNone = VStr s.
Proof.
  unfold extract_all_identifiers. rewrite traverse_ast_visit_all.
  intros H s. rewrite (visit_all_collect _ _ _ H s).
  rewrite elem_of_strings_of. split; [|by right].
  intros [Hin|?]; [|done]. by apply elem_of_nil in Hin.
Qed.

(** X12: The strings that [extract_all_identifiers] collects are the
    non-empty names of the declarations (variables, functions,
    events, modifiers, structs, enums, contracts) and of the
    identifier references of the tree. *)
Theorem extract_all_identifiers_strings ast ids :
  extract_all_identifiers ast = Ret ids ->
  forall s, s ∈ strings_of ids <->
    s <> "" /\ exists n, In n (visit_order ast) /\ names_identifier n = true
                       /\ get (attributes n) "name" VNone = VStr s.
Proof. apply extract_strings. Qed.

Lemma extract_all_identifiers_strings_witness :
  "set" ∈ strings_of [VStr "Wallet"; VStr "set"; VStr "_a"; VStr "pay"]
  <-> "set" <> ""
      /\ exists n, In n (visit_order Samples.wallet_ast)
                   /\ names_identifier n = true
                   /\ get (attributes n) "name" VNone = VStr "set".
Proof.
  apply (extract_all_identifiers_strings Samples.wallet_ast).
  vm_compute. reflexivity.
Defined.

(** X13: The identifiers are collected unless the name of a declaration or
    of an identifier is a non-empty list or object, which cannot be
    added to a set: then the TypeError comes out. *)
Theorem extract_all_identifiers_total ast :
  (forall n, In n (visit_order ast) -> names_identifier n = true ->
             get (attributes n) "name" VNone <> VOther true) ->
  exists ids, extract_all_identifiers ast = Ret ids.
Proof.
  unfold extract_all_identifiers. rewrite traverse_ast_visit_all.
  generalize (@nil pyval).
  induction (visit_order ast) as [|n l IH]; intros acc H; simpl.
  - by eexists.
  - assert (forall acc', exists ids, visit_all collect_name l acc' = Ret ids)
      as Hrest.
    { intros acc'. apply IH. intros m Hm. apply H. by right. }
    rewrite collect_name_spec.
    destruct (names_identifier n) eqn:Hk; simpl; [|apply Hrest].
    destruct (get (attributes n) "name" VNone) as [|b|z|x|o] eqn:Hn; simpl;
      try apply Hrest.
    + destruct b; simpl; apply Hrest.
    + destruct (negb (z =? 0)); simpl; apply Hrest.
    + destruct (negb (String.eqb x "")); simpl; apply Hrest.
    + destruct o; simpl; [|apply Hrest].
      exfalso. by apply (H n); [left| |].
Qed.

Lemma extract_all_identifiers_total_witness :
  exists ids, extract_all_identifiers Samples.wallet_ast = Ret ids.
Proof.
  apply extract_all_identifiers_total.
  intros n Hin. vm_compute in Hin.
  repeat (destruct Hin as [<-|Hin]; [vm_compute; intros _; discriminate|]).
  done.
Defined.

End TraversalProofs.

(** * Placeholder substitution *)

Module PayloadTextProofs.
Import Py PyStr PyExn Utils Templates PayloadText CoupledIndent.
Import VersionProofs IndentResultProofs.

Section replace_all.
Context (old new : string).
Context (Hold : old <> "") (Hnew : new <> "").
Context (Hdisj : forall y, In y (chars new) -> ~ In y (chars old)).

(** A text made of characters of [old] that starts the result also
    starts the input: the result differs from the input only from
    the first replacement on, and [new] starts with a character that
    [old] does not have. *)
Lemma prefix_of_replaced s : forall p,
  (forall x, In x (chars p) -> In x (chars old)) ->
  String.prefix p (replace_go old new 0 s) = true ->
  String.prefix p s = true.
Proof.
  induction s as [|c r IH]; intros p Hp H.
  - done.
  - destruct p as [|x p']; [done|].
    destruct (String.prefix old (String c r)) eqn:E.
    + exfalso. rewrite replace_go_hit in H by done.
      destruct new as [|y new'] eqn:En; [done|].
      rewrite append_cons in H. simpl in H.
      destruct (ascii_dec x y) as [->|]; [|done].
      apply (Hdisj y); [by left|]. apply Hp. by left.
    + rewrite replace_go_miss in H by done. simpl in H |- *.
      destruct (ascii_dec x c); [|done].
      apply IH; [|done]. intros z Hz. apply Hp. by right.
Qed.

Lemma no_prefix_replaced s :
  String.prefix old (replace_go old new 0 s) = false.
Proof.
  destruct (String.prefix old (replace_go old new 0 s)) eqn:E; [|done].
  exfalso. pose proof (prefix_of_replaced s old (fun _ H => H) E) as Hs.
  destruct s as [|c r]; [by destruct old|].
  rewrite replace_go_hit in E by done.
  destruct new as [|y new'] eqn:En; [done|].
  destruct old as [|x old'] eqn:Eo; [done|].
  rewrite append_cons in E. simpl in E.
  destruct (ascii_dec x y) as [->|]; [|done].
  apply (Hdisj y); by left.
Qed.

Lemma no_occurrence_after_new (w rest : string) :
  (forall y, In y (chars w) -> ~ In y (chars old)) ->
  contains old rest = false -> contains old (w +:+ rest) = false.
Proof.
  intros Hw Hrest. induction w as [|y w IH]; [done|].
  rewrite append_cons. cbn [contains].
  rewrite IH by (intros z Hz; apply Hw; by right).
  rewrite orb_false_r.
  destruct old as [|x old'] eqn:Eo; [done|]. simpl.
  destruct (ascii_dec x y) as [->|]; [|done].
  exfalso. apply (Hw y); by left.
Qed.

Lemma no_occurrence_replaced s : forall skip,
  contains old (replace_go old new skip s) = false.
Proof.
  induction s as [|c r IH]; intros skip.
  - simpl. destruct old; [done|]. by destruct skip.
  - destruct skip as [|k]; [|apply IH].
    destruct (String.prefix old (String c r)) eqn:E.
    + rewrite replace_go_hit by done.
      apply no_occurrence_after_new; [done|apply IH].
    + pose proof (no_prefix_replaced (String c r)) as Hp.
      rewrite replace_go_miss in * by done.
      cbn [contains]. by rewrite Hp, IH.
Qed.

End replace_all.

(** After [s.replace(old, new)], with [new] not empty and made of
    characters that [old] does not have, no occurrence of [old] is
    left. *)
Lemma replace_removes_all s old new :
  old <> "" -> new <> "" ->
  (forall y, In y (chars new) -> ~ In y (chars old)) ->
  contains old (replace s old new) = false.
Proof. intros. by apply no_occurrence_replaced. Qed.

Lemma blank_chars l y :
  blank l -> In y (chars (PyBytes.decode l)) -> y = " "%char \/ y = "009"%char.
Proof.
  induction 1 as [|c l Hc Hl IH]; simpl; [done|].
  intros [<-|Hin]; [|by apply IH].
  destruct Hc as [-> | ->]; [by left|by right].
Qed.

Lemma blank_decode_nonempty l : l <> [] -> PyBytes.decode l <> "".
Proof. by destruct l. Qed.

Lemma apply_var_names_blank template_str var_names input_param l :
  l <> [] -> blank l ->
  exists code,
    apply_var_names (Some template_str) var_names input_param
      (PyBytes.decode l) = Some code
    /\ contains "{indent}" code = false.
Proof.
  intros Hne Hb. unfold apply_var_names. eexists. split; [reflexivity|].
  apply replace_removes_all; [done|by apply blank_decode_nonempty|].
  intros y Hy Hin. destruct (blank_chars l y Hb Hy) as [-> | ->];
    vm_compute in Hin; intuition discriminate.
Qed.

(** X8: No [{indent}] placeholder is left by the substitution, whatever
    the template and the names: in single-function mode the text put
    in its place is the detected indentation, a non-empty run of
    spaces and tabs; in cross-function mode it is the default of four
    spaces, so that the indentation detected later has no placeholder
    to fill. *)
Theorem apply_vars_fills_indent template_str var_names :
  (forall input_param content offset,
     exists code,
       point_apply_vars (Some template_str) var_names input_param
         (detect_indentation content offset) = Some code
       /\ contains "{indent}" code = false)
  /\ exists code,
       coupled_apply_vars (Some template_str) var_names = Some code
       /\ contains "{indent}" code = false.
Proof.
  split.
  - intros input_param content offset.
    unfold point_apply_vars, detect_indentation.
    destruct (scan_lines_blank
                (Z.to_nat (len content - (find_line_end content offset + 1)))
                content (find_line_end content offset + 1) false)
      as (l & Hne & Hb & ->).
    by apply apply_var_names_blank.
  - unfold coupled_apply_vars.
    apply (apply_var_names_blank template_str var_names None
             (replicate 4 PyBytes.space)); [done|].
    repeat constructor.
Qed.

(** With an empty replacement the same call can leave a placeholder
    behind: the removal joins the two halves of another one. *)
Example empty_indent_leaves_placeholder :
  apply_var_names (Some "{ind{indent}ent}") [] None "" = Some "{indent}".
Proof. vm_compute. reflexivity. Qed.

End PayloadTextProofs.

(** * Generated names: keys, pools, and the identifiers of the tree *)

Module GeneratedNameProofs.
Import Py Ast PyExn PointInjection NameModel AstTraversal NamePools.
Import NameProofs TraversalProofs VersionProofs.

Lemma choice_in {A} (d : A) t pos (l : list A) :
  l <> [] -> In (fst (choice d t pos l)) l.
Proof.
  intros Hne. unfold choice. simpl. apply nth_In.
  apply Nat.mod_upper_bound. by destruct l.
Qed.

Lemma attempts_drawn gen existing n t : forall pos name pos',
  attempts gen existing n t pos = (Some name, pos') ->
  exists p, name = fst (gen t p).
Proof.
  induction n as [|n IH]; intros pos name pos' H; simpl in H; [done|].
  destruct (gen t pos) as [x pos1] eqn:E.
  destruct (decide (x ∈ existing)); [by eapply IH|].
  injection H as <- _. exists pos. by rewrite E.
Qed.

Lemma generate_unique_name_from_pool gen pool used n t pos :
  draws_from gen pool ->
  from_pool pool (fst (generate_unique_name gen used n t pos)).
Proof.
  intros Hgen. unfold generate_unique_name.
  destruct (attempts gen used n t pos) as [[name|] pos1] eqn:E.
  - destruct (attempts_drawn _ _ _ _ _ _ _ E) as (p & ->). simpl.
    exists (fst (gen t p)). split; [apply Hgen|by left].
  - pose proof (Hgen t pos1) as Hb.
    destruct (gen t pos1) as [base pos2]. simpl in *.
    exists base. split; [done|]. right.
    exists (1 + t pos2 mod (999 - 1 + 1))%nat. split; [|done].
    pose proof (Nat.mod_upper_bound (t pos2) (999 - 1 + 1)). lia.
Qed.

Lemma keys_for_app var_types ks kind key pool :
  keys_for var_types (ks ++ [(kind, key, pool)])
  = keys_for var_types ks
    ++ (if bool_decide (kind ∈ var_types) then [key] else []).
Proof.
  unfold keys_for. rewrite omap_app. simpl. by case_bool_decide.
Qed.

Lemma add_kind_shape var_types ks kind key pool gen t st :
  draws_from gen pool ->
  shape_inv var_types ks st ->
  shape_inv var_types (ks ++ [(kind, key, pool)])
    (add_kind var_types kind key gen t st).
Proof.
  intros Hgen. destruct st as [[names used] pos]. intros [Hkeys Hnames].
  unfold add_kind, shape_inv. rewrite keys_for_app.
  case_bool_decide as Hk.
  - pose proof (generate_unique_name_from_pool gen pool used 50 t pos Hgen)
      as Hn.
    destruct (generate_unique_name gen used 50 t pos) as [name pos1].
    simpl in Hn. split.
    + by rewrite fmap_app, Hkeys.
    + intros k n Hin. apply in_app_or in Hin as [Hin|[E|[]]].
      * destruct (Hnames k n Hin) as (kd & pl & H1 & H2 & H3).
        exists kd, pl. split; [apply in_or_app; by left|done].
      * injection E as <- <-. exists kind, pool.
        split; [apply in_or_app; right; by left|done].
  - split; [by rewrite app_nil_r|].
    intros k n Hin. destruct (Hnames k n Hin) as (kd & pl & H1 & H2 & H3).
    exists kd, pl. split; [apply in_or_app; by left|done].
Qed.

Lemma shape_inv_start var_types existing pos :
  shape_inv var_types [] (([] : list (string * string)), existing, pos).
Proof. split; [done|]. intros k n []. Qed.

Lemma draws_choice pool : pool <> [] -> draws_from (fun t pos => choice "" t pos pool) pool.
Proof. intros Hne t pos. by apply choice_in. Qed.

Lemma draws_address :
  draws_from CoupledNames.get_random_address_var address_names.
Proof.
  intros t pos. unfold CoupledNames.get_random_address_var.
  pose proof (choice_in "" t pos CoupledNames.REALISTIC_PREFIXES
                ltac:(done)) as Hp.
  destruct (choice "" t pos CoupledNames.REALISTIC_PREFIXES) as [p pos1].
  pose proof (choice_in "" t pos1 CoupledNames.REALISTIC_SUFFIXES
                ltac:(done)) as Hs.
  destruct (choice "" t pos1 CoupledNames.REALISTIC_SUFFIXES) as [s pos2].
  cbn [fst] in *. unfold address_names. apply in_flat_map. exists p.
  split; [done|]. apply in_map_iff. by exists s.
Qed.

Lemma point_shape var_types existing t pos :
  (fst (generate_var_names var_types existing t pos)).*1
  = keys_for var_types point_kinds
  /\ forall key name,
       In (key, name) (fst (generate_var_names var_types existing t pos)) ->
       exists kind pool, In (kind, key, pool) point_kinds
                         /\ kind ∈ var_types /\ from_pool pool name.
Proof.
  unfold generate_var_names.
  pose proof (shape_inv_start var_types (default ∅ existing) pos) as H0.
  apply (add_kind_shape _ _ "addr" "var_addr" ADDR_VAR_NAMES
           get_random_addr_var t) in H0; [|by apply draws_choice].
  apply (add_kind_shape _ _ "uint" "var_uint" UINT_VAR_NAMES
           get_random_uint_var t) in H0; [|by apply draws_choice].
  apply (add_kind_shape _ _ "mapping" "var_mapping" MAPPING_VAR_NAMES
           get_random_mapping_var t) in H0; [|by apply draws_choice].
  apply (add_kind_shape _ _ "bool" "var_bool" BOOL_VAR_NAMES
           get_random_bool_var t) in H0; [|by apply draws_choice].
  apply (add_kind_shape _ _ "time" "var_time" TIME_VAR_NAMES
           get_random_time_var t) in H0; [|by apply draws_choice].
  destruct (add_kind var_types "time" _ _ _ _) as [[names used] pos'].
  exact H0.
Qed.

(** X14: The dict of single-function mode has one key for each requested
    kind among the five known ones, in the order of the source
    (other kinds are ignored); the name under a key is a name of the
    pool of its kind, or one followed by a number from 1 to 999. *)
Theorem generate_var_names_keys_and_pools var_types existing t pos :
  (fst (generate_var_names var_types existing t pos)).*1
  = keys_for var_types point_kinds
  /\ forall key name,
       In (key, name) (fst (generate_var_names var_types existing t pos)) ->
       exists kind pool, In (kind, key, pool) point_kinds
                         /\ kind ∈ var_types /\ from_pool pool name.
Proof. apply point_shape. Qed.

Lemma pass_inv_start existing pos :
  pass_inv existing (([] : list (string * string)), existing, pos).
Proof.
  unfold pass_inv. split; [done|]. split; [|done].
  intros n Hn. simpl in Hn. by apply elem_of_nil in Hn.
Qed.

Lemma point_pass_fresh var_types existing t pos i key name :
  fst (generate_var_names var_types (Some existing) t pos) !! i
  = Some (key, name) ->
  fresh_at existing
    (fst (generate_var_names var_types (Some existing) t pos)) i name.
Proof.
  unfold generate_var_names. simpl.
  pose proof (pass_inv_start existing pos) as H0.
  apply (add_kind_inv _ var_types "addr" "var_addr" get_random_addr_var t) in H0.
  apply (add_kind_inv _ var_types "uint" "var_uint" get_random_uint_var t) in H0.
  apply (add_kind_inv _ var_types "mapping" "var_mapping"
           get_random_mapping_var t) in H0.
  apply (add_kind_inv _ var_types "bool" "var_bool" get_random_bool_var t) in H0.
  apply (add_kind_inv _ var_types "time" "var_time" get_random_time_var t) in H0.
  destruct (add_kind var_types "time" _ _ _ _) as [[names used] pos'].
  simpl. destruct H0 as (_ & _ & Hgood). apply Hgood.
Qed.

(** X15: The names of the coupled templates: the keys follow the seven
    blocks of the source, each name comes from the pool of its kind,
    and each is fresh (not an existing identifier, and different from
    the names generated before it) unless the fallback made it. *)
Theorem coupled_names_keys_pools_fresh var_types existing t pos :
  (fst (CoupledNames.generate_var_names var_types (Some existing) t pos)).*1
  = keys_for var_types coupled_kinds
  /\ (forall key name,
        In (key, name)
          (fst (CoupledNames.generate_var_names var_types (Some existing)
                  t pos)) ->
        exists kind pool, In (kind, key, pool) coupled_kinds
                          /\ kind ∈ var_types /\ from_pool pool name)
  /\ forall i key name,
       fst (CoupledNames.generate_var_names var_types (Some existing) t pos)
         !! i = Some (key, name) ->
       fresh_at existing
         (fst (CoupledNames.generate_var_names var_types (Some existing)
                 t pos)) i name.
Proof.
  unfold CoupledNames.generate_var_names. simpl.
  pose proof (shape_inv_start var_types existing pos) as H0.
  pose proof (pass_inv_start existing pos) as F0.
  apply (add_kind_shape _ _ "addr" "var_addr" address_names
           CoupledNames.get_random_address_var t) in H0;
    [|apply draws_address].
  apply (add_kind_inv _ var_types "addr" "var_addr"
           CoupledNames.get_random_address_var t) in F0.
  apply (add_kind_shape _ _ "time" "var_time" CoupledNames.TIME_NAMES
           CoupledNames.get_random_time_var t) in H0;
    [|by apply draws_choice].
  apply (add_kind_inv _ var_types "time" "var_time"
           CoupledNames.get_random_time_var t) in F0.
  apply (add_kind_shape _ _ "amt" "var_amt" CoupledNames.AMOUNT_NAMES
           CoupledNames.get_random_amount_var t) in H0;
    [|by apply draws_choice].
  apply (add_kind_inv _ var_types "amt" "var_amt"
           CoupledNames.get_random_amount_var t) in F0.
  apply (add_kind_shape _ _ "array" "var_array" CoupledNames.ARRAY_NAMES
           CoupledNames.get_random_array_var t) in H0;
    [|by apply draws_choice].
  apply (add_kind_inv _ var_types "array" "var_array"
           CoupledNames.get_random_array_var t) in F0.
  apply (add_kind_shape _ _ "mapping" "var_mapping" CoupledNames.MAPPING_NAMES
           CoupledNames.get_random_mapping_var t) in H0;
    [|by apply draws_choice].
  apply (add_kind_inv _ var_types "mapping" "var_mapping"
           CoupledNames.get_random_mapping_var t) in F0.
  apply (add_kind_shape _ _ "bool" "var_bool" CoupledNames.BOOL_VAR_NAMES
           CoupledNames.get_random_bool_var t) in H0;
    [|by apply draws_choice].
  apply (add_kind_inv _ var_types "bool" "var_bool"
           CoupledNames.get_random_bool_var t) in F0.
  apply (add_kind_shape _ _ "uint" "var_uint" CoupledNames.UINT_VAR_NAMES
           CoupledNames.get_random_uint_var t) in H0;
    [|by apply draws_choice].
  apply (add_kind_inv _ var_types "uint" "var_uint"
           CoupledNames.get_random_uint_var t) in F0.
  destruct (add_kind var_types "uint" _ _ _ _) as [[names used] pos'].
  simpl. destruct H0 as [Hk Hn]. destruct F0 as (_ & _ & Hgood).
  split; [exact Hk|]. split; [exact Hn|exact Hgood].
Qed.

Lemma point_pool_nonempty kind key pool base :
  In (kind, key, pool) point_kinds -> In base pool -> base <> "".
Proof.
  intros Hk Hb. unfold point_kinds in Hk. simpl in Hk.
  repeat (destruct Hk as [E|Hk];
    [injection E as <- <- <-; vm_compute in Hb;
     repeat (destruct Hb as [<-|Hb]; [discriminate|]); done|]).
  done.
Qed.

Lemma from_pool_nonempty pool name :
  (forall base, In base pool -> base <> "") -> from_pool pool name ->
  name <> "".
Proof.
  intros Hp (base & Hb & [->|(k & _ & ->)]); [by apply Hp|].
  specialize (Hp base Hb). destruct base; [done|].
  rewrite append_cons. discriminate.
Qed.

(** X16: Single-function mode, from the tree to the names: a generated
    name is not the name of any declaration or identifier reference
    of the tree, and differs from the names generated before it,
    unless the fallback (a pool name followed by a number from 1 to
    999) produced it. *)
Theorem generated_names_avoid_tree ast ids var_types t pos i key name :
  extract_all_identifiers ast = Ret ids ->
  fst (generate_var_names var_types (Some (strings_of ids)) t pos) !! i
  = Some (key, name) ->
  ((forall n, In n (visit_order ast) -> names_identifier n = true ->
              get (attributes n) "name" VNone <> VStr name)
   /\ name ∉ (take i (fst (generate_var_names var_types
                             (Some (strings_of ids)) t pos))).*2)
  \/ fallback_shape name.
Proof.
  intros Hids Hi.
  destruct (point_pass_fresh _ _ _ _ _ _ _ Hi) as [[Hex Hprev]|Hfb];
    [left|by right].
  split; [|done]. intros n Hin Hk Hn. apply Hex.
  apply (extract_strings ast ids Hids). split; [|by exists n].
  destruct (point_shape var_types (Some (strings_of ids)) t pos) as [_ Hshape].
  destruct (Hshape key name) as (kind & pool & Hkd & _ & Hfp).
  { apply list_elem_of_In. by eapply list_elem_of_lookup_2. }
  eapply from_pool_nonempty; [|exact Hfp].
  intros base. by apply (point_pool_nonempty kind key pool).
Qed.

Lemma generated_names_avoid_tree_witness :
  ((forall n, In n (visit_order Samples.wallet_ast) ->
              names_identifier n = true ->
              get (attributes n) "name" VNone <> VStr "recipient")
   /\ "recipient" ∉ (take 0 (fst (generate_var_names ["addr"]
        (Some (strings_of [VStr "Wallet"; VStr "set"; VStr "_a"; VStr "pay"]))
        Samples.zero_tape 0))).*2)
  \/ fallback_shape "recipient".
Proof.
  apply (generated_names_avoid_tree Samples.wallet_ast
           [VStr "Wallet"; VStr "set"; VStr "_a"; VStr "pay"]
           ["addr"] Samples.zero_tape 0%nat 0%nat "var_addr" "recipient").
  - vm_compute. reflexivity.
  - vm_compute. reflexivity.
Defined.

Lemma generated_names_fresh_unless_fallback_witness :
  fresh_at Samples.taken_names
    (fst (generate_var_names ["addr"; "uint"] (Some Samples.taken_names)
            Samples.zero_tape 0)) 1 "amount".
Proof.
  apply (generated_names_fresh_unless_fallback ["addr"; "uint"]
           Samples.taken_names Samples.zero_tape 0%nat 1%nat
           "var_uint" "amount").
  vm_compute. reflexivity.
Defined.

End GeneratedNameProofs.

(** * Template selection: what can come out *)

Module SelectionSoundness.
Import Py Templates PointPayloadGenerator CoupledSelection SelectionModel.
Import SelectionProofs.









Lemma filter_name_in (valid_sets : list valid_entry) req e :
  In e (List.filter (fun e : valid_entry => String.eqb (snd (fst e)) req)
          valid_sets) ->
  In e valid_sets /\ snd (fst e) = req.
Proof.
  intros H. apply filter_In in H as [Hin Hk].
  split; [done|]. by apply String.eqb_eq.
Qed.

(** X19: The selection of cross-function mode, on a non-empty list of
    valid combinations, returns one of them; when a template is
    requested and some combination offers it, the combination
    returned is one for that template. *)
Theorem inject_select_sound (valid_sets : list valid_entry) name rnd t pos :
  valid_sets <> [] ->
  exists e pos',
    inject_select valid_sets name rnd t pos = (Some e, pos')
    /\ In e valid_sets
    /\ forall req, given name = Some req ->
         (exists e', In e' valid_sets /\ snd (fst e') = req) ->
         snd (fst e) = req.
Proof.
  intros Hne. unfold inject_select.
  destruct (given name) as [req|].
  - match goal with
    | |- context [List.filter ?f valid_sets] =>
        destruct (List.filter f valid_sets) as [|m ms] eqn:Em
    end.
    + destruct (select_one_in t pos valid_sets rnd Hne)
        as (e & pos' & -> & Hin).
      exists e, pos'. split; [done|]. split; [done|].
      intros r [= <-] (e' & Hin' & Hk). exfalso.
      match type of Em with
      | ?l = _ => assert (In e' l) as Hf
      end.
      { apply filter_In. split; [done|]. by apply String.eqb_eq. }
      rewrite Em in Hf. destruct Hf.
    + destruct (select_one_in t pos (m :: ms) rnd ltac:(done))
        as (e & pos' & -> & Hin).
      rewrite <- Em in Hin. apply filter_name_in in Hin as [Hin Hk].
      exists e, pos'. split; [done|]. split; [done|]. by intros r [= <-] _.
  - destruct (select_one_in t pos valid_sets rnd Hne) as (e & pos' & -> & Hin).
    exists e, pos'. split; [done|]. split; [done|]. done.
Qed.

Lemma inject_select_sound_witness :
  exists e pos',
    inject_select
      (default [] (_filter_by_template
                     (CoupledInjector.find_locations Samples.wallet_ast)
                     Samples.sample_registry))
      (Some "demanding") true Samples.zero_tape 0 = (Some e, pos')
    /\ In e (default [] (_filter_by_template
                           (CoupledInjector.find_locations Samples.wallet_ast)
                           Samples.sample_registry))
    /\ forall req, given (Some "demanding") = Some req ->
         (exists e', In e' (default [] (_filter_by_template
                           (CoupledInjector.find_locations Samples.wallet_ast)
                           Samples.sample_registry))
                     /\ snd (fst e') = req) ->
         snd (fst e) = req.
Proof.
  apply inject_select_sound. intros H. apply (f_equal length) in H.
  vm_compute in H. discriminate.
Defined.

End SelectionSoundness.

(** * The locations of single-function mode *)

Module PointLocationProofs.
Import Py Ast PyExn AstHelpers PointLocations.

Lemma collect_exact {A B} (f : A -> result (list B)) l :
  match collect f l with
  | Ret out =>
      (forall a, In a l ->
         exists here, f a = Ret here /\ forall b, In b here -> In b out)
      /\ forall b, In b out ->
           exists a here, In a l /\ f a = Ret here /\ In b here
  | Raise e => exists a, In a l /\ f a = Raise e
  end.
Proof.
  induction l as [|x l IH]; simpl.
  { split; [by intros a []|by intros b []]. }
  destruct (f x) as [here|e] eqn:Ex; simpl.
  - destruct (collect f l) as [rest|e]; simpl.
    + destruct IH as [IH1 IH2]. split.
      * intros a [<-|Ha].
        -- exists here. split; [done|]. intros b Hb. apply in_or_app. by left.
        -- destruct (IH1 a Ha) as (h & Hf & Hsub). exists h. split; [done|].
           intros b Hb. apply in_or_app. right. by apply Hsub.
      * intros b Hb. apply in_app_or in Hb as [Hb|Hb].
        -- exists x, here. split; [by left|done].
        -- destruct (IH2 b Hb) as (a & h & Ha & Hf & Hin).
           exists a, h. split; [by right|done].
    + destruct IH as (a & Ha & Hf). exists a. split; [by right|done].
  - exists x. split; [by left|done].
Qed.



(** A contract with a view function, a function without a body range
    and an internal one: only the first is a location. *)
Example view_function_is_a_location :
  (fun r => match r with
            | Ret locations =>
                List.map (fun loc => (FunctionInfo.name (function loc),
                                      has_address_param loc,
                                      is_state_modifying loc)) locations
            | Raise _ => []
            end)
    (find_point_injection_locations LocationSamples.ledger_ast)
  = [(VStr "peek", true, false)].
Proof. vm_compute. reflexivity. Qed.

End PointLocationProofs.

(** * Versions of any number of components *)

Module DottedVersionProofs.
Import PyStr Utils VersionModel DottedVersions VersionProofs.

Lemma dotted_cons a b rest :
  dotted (a :: b :: rest) = a +:+ String "." (dotted (b :: rest)).
Proof. reflexivity. Qed.

Lemma decimal_plain s :
  forallb_str is_decimal s = true -> forallb_str plain_char s = true.
Proof.
  apply forallb_str_impl. intros ch H. unfold plain_char. by rewrite H.
Qed.

Lemma dotted_plain comps :
  Forall decimal comps -> forallb_str plain_char (dotted comps) = true.
Proof.
  induction 1 as [|a rest (_ & Ha & _) Hrest IH]; [done|].
  destruct rest as [|b rest]; [by apply decimal_plain|].
  rewrite dotted_cons, forallb_str_app. cbn [forallb_str].
  rewrite (decimal_plain a Ha), IH. done.
Qed.

Lemma dotted_head comps :
  comps <> [] -> Forall decimal comps ->
  exists c s, dotted comps = String c s /\ is_decimal c = true.
Proof.
  intros Hne Hall. destruct comps as [|a rest]; [done|].
  apply Forall_cons in Hall as [(Ha0 & Ha & _) _].
  destruct a as [|c a]; [done|]. simpl in Ha.
  apply andb_true_iff in Ha as [Hc _].
  destruct rest; [by exists c, a|].
  rewrite dotted_cons, append_cons. by eexists _, _.
Qed.

Lemma plain_not_space c : plain_char c = true -> isspace c = false.
Proof.
  destruct c as [[] [] [] [] [] [] [] []]; vm_compute; congruence.
Qed.

Lemma rstrip_plain s : forallb_str plain_char s = true -> rstrip s = s.
Proof.
  induction s as [|c s IH]; [done|]. intros H.
  simpl in H. apply andb_true_iff in H as [Hc Hs].
  cbn [rstrip]. rewrite IH by done.
  destruct s; [|done]. by rewrite plain_not_space.
Qed.

Lemma strip_dotted comps :
  comps <> [] -> Forall decimal comps -> strip (dotted comps) = dotted comps.
Proof.
  intros Hne Hall. unfold strip.
  pose proof (dotted_plain comps Hall) as Hp.
  destruct (dotted_head comps Hne Hall) as (c & s & E & Hc).
  rewrite E in *. cbn [lstrip]. rewrite decimal_not_space by done.
  by apply rstrip_plain.
Qed.

Lemma split_dotted comps :
  comps <> [] -> Forall decimal comps -> split "." (dotted comps) = comps.
Proof.
  intros Hne Hall. induction Hall as [|a rest (_ & Ha & _) Hrest IH]; [done|].
  destruct rest as [|b rest].
  - simpl. by apply split_no_sep, decimal_no_dot.
  - rewrite dotted_cons, split_app_sep by by apply decimal_no_dot.
    by rewrite IH.
Qed.

Lemma filter_isdigit_decimal comps :
  Forall decimal comps -> List.filter isdigit comps = comps.
Proof.
  induction 1 as [|a rest Ha _ IH]; [done|]. simpl.
  by rewrite isdigit_decimal, IH.
Qed.

Lemma mapM_int_decimal comps :
  Forall decimal comps -> mapM int comps = Some (value <$> comps).
Proof.
  intros Hall. apply mapM_Some_2.
  induction Hall as [|a rest Ha _ IH]; simpl; constructor; [|done].
  by apply int_decimal.
Qed.

Lemma parse_version_dotted p comps :
  handled_prefix p -> comps <> [] -> Forall decimal comps ->
  parse_version (p +:+ dotted comps) = Some (version_tuple comps).
Proof.
  intros Hp Hne Hall. unfold parse_version, version_tuple.
  fold (remove_operators (p +:+ dotted comps)).
  assert (remove_operators (p +:+ dotted comps) = dotted comps) as ->.
  { pose proof (dotted_plain comps Hall) as Hplain.
    destruct (dotted_head comps Hne Hall) as (c & s & E & Hc).
    rewrite E in *. by apply remove_operators_prefix. }
  rewrite strip_dotted, split_dotted by done.
  assert (Forall decimal (take 3 comps)) as Hall3 by by apply Forall_take.
  rewrite filter_isdigit_decimal by done.
  by apply mapM_int_decimal.
Qed.

(** X21: On versions written as decimal numbers joined by dots, however
    many, [is_version_compatible] compares the tuples of the first
    three numbers of each text, a shorter tuple being smaller than
    its extensions: a fourth number is ignored, and a two-number
    version lies below the three-number versions that extend it. *)
Theorem is_version_compatible_dotted p version min_version max_version :
  handled_prefix p ->
  version <> [] -> min_version <> [] -> max_version <> [] ->
  Forall decimal version -> Forall decimal min_version ->
  Forall decimal max_version ->
  is_version_compatible (p +:+ dotted version) (dotted min_version)
    (dotted max_version)
  = tuple_le (version_tuple min_version) (version_tuple version)
    && tuple_le (version_tuple version) (version_tuple max_version).
Proof.
  intros Hp H1 H2 H3 A1 A2 A3. unfold is_version_compatible.
  rewrite (parse_version_dotted p version) by done.
  rewrite <- (append_nil (dotted min_version)).
  rewrite (parse_version_dotted "" min_version) by (try done; by left).
  rewrite <- (append_nil (dotted max_version)).
  by rewrite (parse_version_dotted "" max_version) by (try done; by left).
Qed.

Lemma is_version_compatible_dotted_witness :
  is_version_compatible ("^" +:+ dotted ["0"; "4"]) (dotted ["0"; "4"; "0"])
    (dotted ["0"; "4"; "26"])
  = tuple_le (version_tuple ["0"; "4"; "0"]) (version_tuple ["0"; "4"])
    && tuple_le (version_tuple ["0"; "4"]) (version_tuple ["0"; "4"; "26"]).
Proof.
  apply is_version_compatible_dotted;
    [by right; left|discriminate|discriminate|discriminate|..];
    repeat apply Forall_cons_2; try apply Forall_nil_2;
    (split; [discriminate|split; [reflexivity|vm_compute; lia]]).
Defined.

(** A pragma of two numbers is refused by the interval that starts at
    its own minor version, a fourth number is ignored, and a version
    without any number is refused. *)
Example short_versions :
  is_version_compatible "^0.4" "0.4.0" "0.4.26" = false
  /\ is_version_compatible "0.4.24.1" "0.4.24" "0.4.24" = true
  /\ is_version_compatible "" "0.4.0" "0.8.99" = false.
Proof. repeat split; vm_compute; reflexivity. Qed.

End DottedVersionProofs.

(** * Assignments to state variables *)

Module StateAssignmentProofs.
Import Py Ast PyExn AstHelpers AstTraversal StateAssignments.
Import TraversalProofs PointLocationProofs.

Lemma state_vars_sound l : forall acc m,
  visit_all record_state_variable l acc = Ret m ->
  forall z v, m !! z = Some v ->
    acc !! z = Some v
    \/ exists decl, In decl l
         /\ Ast.name decl = "VariableDeclaration"
         /\ truthy (get (attributes decl) "stateVariable" VNone) = true
         /\ get (attributes decl) "name" VNone = v
         /\ truthy v = true
         /\ Ast.id decl = Some z.
Proof.
  induction l as [|n l IH]; intros acc m H z v Hz; simpl in H.
  - injection H as <-. by left.
  - assert (forall acc', visit_all record_state_variable l acc' = Ret m ->
              acc' = acc ->
              acc !! z = Some v
              \/ exists decl, In decl (n :: l)
                   /\ Ast.name decl = "VariableDeclaration"
                   /\ truthy (get (attributes decl) "stateVariable" VNone)
                      = true
                   /\ get (attributes decl) "name" VNone = v
                   /\ truthy v = true
                   /\ Ast.id decl = Some z) as Hsame.
    { intros acc' H' ->. destruct (IH _ _ H' z v Hz) as [?|(d & Hd & ?)];
        [by left|]. right. exists d. split; [by right|done]. }
    unfold record_state_variable in H.
    destruct (String.eqb_spec (Ast.name n) "VariableDeclaration") as [Hk|];
      [|by eapply Hsame].
    destruct (truthy (get (attributes n) "stateVariable" VNone)) eqn:Hsv;
      [|by eapply Hsame].
    destruct (Ast.id n) as [var_id|] eqn:Hid; [|by eapply Hsame].
    destruct (truthy (get (attributes n) "name" VNone)) eqn:Hnm;
      [|by eapply Hsame].
    simpl in H. destruct (IH _ _ H z v Hz) as [Hin|(d & Hd & ?)].
    + destruct (decide (var_id = z)) as [->|Hne].
      * rewrite lookup_insert_eq in Hin. injection Hin as <-.
        right. exists n. split; [by left|done].
      * rewrite lookup_insert_ne in Hin by done. by left.
    + right. exists d. split; [by right|done].
Qed.

Lemma find_state_variables_sound ast z v :
  find_state_variables ast !! z = Some v ->
  exists decl, In decl (visit_order ast)
    /\ Ast.name decl = "VariableDeclaration"
    /\ truthy (get (attributes decl) "stateVariable" VNone) = true
    /\ get (attributes decl) "name" VNone = v
    /\ truthy v = true
    /\ Ast.id decl = Some z.
Proof.
  unfold find_state_variables. rewrite traverse_ast_visit_all.
  destruct (visit_all record_state_variable (visit_order ast) ∅) as [m|e]
    eqn:E; [|by rewrite lookup_empty].
  intros Hz. destruct (state_vars_sound _ _ _ E z v Hz) as [H|H]; [|done].
  by rewrite lookup_empty in H.
Qed.

Lemma lookup_ref_sound m ref_id v :
  lookup_ref m ref_id = Ret (Some v) ->
  exists z, dict_key ref_id = Ret (Some z) /\ m !! z = Some v.
Proof.
  unfold lookup_ref. destruct (dict_key ref_id) as [[z|]|e]; simpl; try done.
  intros [= H]. by exists z.
Qed.

Lemma check_assignment_target_sound n m v :
  check_assignment_target n m = Ret (Some v) ->
  exists target z,
    written_identifier n target
    /\ dict_key (referenced_declaration target) = Ret (Some z)
    /\ m !! z = Some v.
Proof.
  unfold check_assignment_target, written_identifier.
  destruct (children n) as [|lhs rest] eqn:Hc; [done|].
  destruct (String.eqb_spec (Ast.name lhs) "Identifier") as [Hid|Hid].
  - destruct (lookup_ref m (referenced_declaration lhs)) as [[x|]|e] eqn:El;
      simpl; try done.
    + intros [= ->]. apply lookup_ref_sound in El as (z & Hk & Hz).
      exists lhs, z. split; [|done]. split; [done|].
      exists lhs, rest. split; [done|by left].
    + rewrite Hid. simpl. done.
  - cbn [bind].
    destruct (in_strs (VStr (Ast.name lhs)) ["IndexAccess"; "MemberAccess"])
      eqn:Hk; [|done].
    destruct (children lhs) as [|base rest'] eqn:Hb; [done|].
    destruct (String.eqb_spec (Ast.name base) "Identifier") as [Hbase|];
      [|done].
    intros El. apply lookup_ref_sound in El as (z & Hz1 & Hz2).
    exists base, z. split; [|done]. split; [done|].
    exists lhs, rest. split; [done|]. right. split; [done|]. by exists rest'.
Qed.

Lemma assignments_sound m l : forall acc out,
  visit_all (record_assignment m) l acc = Ret out ->
  forall n v, In (n, v) out ->
    In (n, v) acc
    \/ (In n l /\ Ast.name n = "Assignment"
        /\ check_assignment_target n m = Ret (Some v)).
Proof.
  induction l as [|x l IH]; intros acc out H n v Hin; simpl in H.
  - injection H as <-. by left.
  - assert (forall acc', visit_all (record_assignment m) l acc' = Ret out ->
              acc' = acc ->
              In (n, v) acc
              \/ (In n (x :: l) /\ Ast.name n = "Assignment"
                  /\ check_assignment_target n m = Ret (Some v))) as Hsame.
    { intros acc' H' ->. destruct (IH _ _ H' n v Hin) as [?|(? & ?)];
        [by left|]. right. split; [by right|done]. }
    unfold record_assignment in H.
    destruct (String.eqb_spec (Ast.name x) "Assignment") as [Hk|];
      [|by eapply Hsame].
    destruct (check_assignment_target x m) as [[sv|]|e] eqn:Ec; simpl in H;
      [| by eapply Hsame | done].
    destruct (truthy sv); [|by eapply Hsame].
    destruct (IH _ _ H n v Hin) as [Ha|(? & ?)].
    + apply in_app_or in Ha as [Ha|[[= <- <-]|[]]]; [by left|].
      right. split; [by left|done].
    + right. split; [by right|done].
Qed.

(** X22: Every location of [find_reentrancy_locations] is sound: its
    function is a public or external, state-modifying function of the
    tree; its assignment is an [Assignment] node inside that function
    which writes to an identifier (directly, or as the base of an
    index or member access); and the tree declares a state variable
    with the id that this identifier refers to, under the name the
    location records. *)
Theorem find_reentrancy_locations_sound ast locations loc :
  find_reentrancy_locations ast = Ret locations ->
  In loc locations ->
  exists func_node,
    In func_node (visit_order ast)
    /\ FunctionInfo.from_ast_node func_node = Some (function loc)
    /\ FunctionInfo.is_public_or_external (function loc) = true
    /\ FunctionInfo.is_state_modifying (function loc) = true
    /\ In (assignment loc) (visit_order func_node)
    /\ Ast.name (assignment loc) = "Assignment"
    /\ exists target decl,
         written_identifier (assignment loc) target
         /\ In decl (visit_order ast)
         /\ declares decl (referenced_declaration target) (state_variable loc).
Proof.
  unfold find_reentrancy_locations. intros H Hin.
  pose proof (collect_exact (function_locations (find_state_variables ast))
                (find_nodes_by_name ast "FunctionDefinition")) as Hc.
  rewrite H in Hc. destruct Hc as [_ Hc].
  apply Hc in Hin as (func_node & here & Hfn & Hhere & Hin).
  rewrite find_nodes_by_name_filter in Hfn. apply filter_In in Hfn as [Hfn _].
  exists func_node. split; [done|].
  unfold function_locations in Hhere.
  destruct (FunctionInfo.from_ast_node func_node) as [func_info|];
    [|by injection Hhere as <-].
  destruct (FunctionInfo.is_public_or_external func_info) eqn:Hp;
    simpl in Hhere; [|by injection Hhere as <-].
  destruct (FunctionInfo.is_state_modifying func_info) eqn:Hs;
    simpl in Hhere; [|by injection Hhere as <-].
  destruct (find_state_variable_assignments func_node
              (find_state_variables ast)) as [assignments|e] eqn:Ea;
    simpl in Hhere; [|done].
  injection Hhere as <-. apply in_map_iff in Hin as ([n v] & <- & Hin).
  simpl. unfold find_state_variable_assignments in Ea.
  rewrite traverse_ast_visit_all in Ea.
  destruct (assignments_sound _ _ _ _ Ea n v Hin) as [[]|(Hn & Hk & Hchk)].
  repeat (split; [done|]).
  apply check_assignment_target_sound in Hchk as (target & z & Hw & Hkey & Hz).
  apply find_state_variables_sound in Hz
    as (decl & Hd & Hdk & Hsv & Hnm & Htr & Hid).
  exists target, decl. split; [done|]. split; [done|].
  unfold declares. repeat (split; [done|]). by exists z.
Qed.

Lemma find_reentrancy_locations_sound_witness :
  exists func_node,
    In func_node (visit_order ReentrancySamples.bank_ast)
    /\ FunctionInfo.from_ast_node func_node
       = Some (function ReentrancySamples.add_location)
    /\ FunctionInfo.is_public_or_external
         (function ReentrancySamples.add_location) = true
    /\ FunctionInfo.is_state_modifying
         (function ReentrancySamples.add_location) = true
    /\ In (assignment ReentrancySamples.add_location) (visit_order func_node)
    /\ Ast.name (assignment ReentrancySamples.add_location) = "Assignment"
    /\ exists target decl,
         written_identifier (assignment ReentrancySamples.add_location) target
         /\ In decl (visit_order ReentrancySamples.bank_ast)
         /\ declares decl (referenced_declaration target)
              (state_variable ReentrancySamples.add_location).
Proof.
  apply (find_reentrancy_locations_sound ReentrancySamples.bank_ast
           [ReentrancySamples.add_location]).
  - vm_compute. reflexivity.
  - by left.
Defined.

End StateAssignmentProofs.
